(** * Uthread synchronisation primitives of Akaros' parlib (user/parlib/mutex.c)

    A shallow embedding of the generic uthread semaphores, mutexes, recursive
    mutexes, condition variables and reader-writer locks, together with the
    default sync object (a TAILQ of uthreads) and the timeout alarm handler.

    Conventions of the embedding:
    - a [struct uthread *] that is not NULL is a [uthread]; a pointer that may
      be NULL is an [option uthread];
    - an [unsigned int] is a [Z] in [0, 2^32), every arithmetic result being
      reduced with [uint];
    - a pointer to a field of an object living in a memory of shape [Mem] is a
      [ptr Mem T]: an address tag with the load and the store it denotes;
    - code that takes spinlocks, calls into the 2LS or the alarm subsystem is
      written in the monad [prog Mem], which threads the memory, collects the
      calls made to the outside as a trace of [event]s, and gets [Stuck] where
      the C code would not make progress on its own;
    - an access that the C code makes between [spin_pdr_lock] and
      [spin_pdr_unlock] of the lock of an object is an access under that
      lock: made while the lock is not held it is a data race, where the run
      gets [Stuck] as well;
    - a function that calls [uthread_yield] is split at the yield: the part up
      to and including the yield callback, and the part run once the uthread
      has been restarted. *)

From Stdlib Require Import ZArith List Bool Lia String Arith.
Import ListNotations.
Local Open Scope Z_scope.

Set Implicit Arguments.

(** ** Machine integers *)

Definition UINT_MAX : Z := 2 ^ 32 - 1.

(** Value of an [unsigned int] expression: reduction modulo 2^32. *)
Definition uint (z : Z) : Z := z mod 2 ^ 32.

(** ** Uthreads, time, and the calls that leave this file *)

Definition uthread := nat.

(** [struct timespec]: seconds and nanoseconds, opaque to this code. *)
Record timespec := Timespec { tv_sec : Z; tv_nsec : Z }.

Definition addr := string.
Bind Scope string_scope with addr.

Inductive event : Type :=
| EvSpinLock (a : addr)                 (* spin_pdr_lock(a) returned *)
| EvSpinUnlock (a : addr)               (* spin_pdr_unlock(a) *)
| EvYield (uth : uthread)               (* uthread_yield(TRUE, cb, arg) *)
| EvHasBlocked (uth : uthread)          (* uthread_has_blocked(uth, UTH_EXT_BLK_MUTEX) *)
| EvRunnable (uth : uthread)            (* uthread_runnable(uth) *)
| EvBulkRunnable (wakees : list uthread) (* sched_ops->thread_bulk_runnable(wakees) *)
| EvSetAlarm (uth : uthread) (abs : timespec) (* set_alarm(waiter) *)
| EvUnsetAlarm (uth : uthread).         (* unset_alarm(waiter) *)

Definition trace := list event.

(** ** The monad *)

Inductive stuck : Type :=
| Spinning (a : addr)   (* spin_pdr_lock on a lock that is held *)
| OutOfFuel             (* a loop over a 2LS hook did not finish *)
| Racing (a : addr).    (* access to a protected object, its lock not held *)

Inductive result (A : Type) : Type :=
| Ok (a : A)
| Stuck (why : stuck).
Arguments Stuck {A} why.

Definition prog (Mem A : Type) : Type := Mem -> result (A * Mem * trace).

Definition ret {Mem A} (a : A) : prog Mem A := fun m => Ok (a, m, []).

Definition bind {Mem A B} (c : prog Mem A) (f : A -> prog Mem B) : prog Mem B :=
  fun m =>
    match c m with
    | Stuck w => Stuck w
    | Ok (a, m1, t1) =>
        match f a m1 with
        | Stuck w => Stuck w
        | Ok (b, m2, t2) => Ok (b, m2, t1 ++ t2)
        end
    end.

Declare Scope prog_scope.
Delimit Scope prog_scope with prog.
Notation "x <- c ;; k" := (bind c (fun x => k))
  (at level 61, c at next level, right associativity) : prog_scope.
Notation "c ;; k" := (bind c (fun _ => k))
  (at level 61, right associativity) : prog_scope.
Local Open Scope prog_scope.

Definition emit {Mem} (e : event) : prog Mem unit := fun m => Ok (tt, m, [e]).
Definition get_stuck {Mem A} (w : stuck) : prog Mem A := fun _ => Stuck w.

(** [if (c) body] with no else branch. *)
Definition when {Mem} (c : bool) (body : prog Mem unit) : prog Mem unit :=
  if c then body else ret tt.

(** ** Pointers *)

Record ptr (Mem T : Type) : Type := Ptr {
  addr_of : addr;
  load_of : Mem -> T;
  store_of : T -> Mem -> Mem
}.

Definition load {Mem T} (p : ptr Mem T) : prog Mem T :=
  fun m => Ok (load_of p m, m, []).
Definition store {Mem T} (p : ptr Mem T) (v : T) : prog Mem unit :=
  fun m => Ok (tt, store_of p v m, []).

(** A call [f(p)] to a function of the sync layer, which works on the object
    [p] designates and returns a value. *)
Definition call {Mem T A} (p : ptr Mem T) (f : T -> A * T) : prog Mem A :=
  v <- load p ;;
  let (a, v') := f v in
  store p v' ;; ret a.

(** A call [f(p)] that returns nothing, or an update in place such as
    [sem->count++]. *)
Definition update {Mem T} (p : ptr Mem T) (f : T -> T) : prog Mem unit :=
  v <- load p ;; store p (f v).

(** [&p->f] for a field [f] with getter [get] and setter [set]. *)
Definition field {Mem A B} (p : ptr Mem A) (name : string)
    (get : A -> B) (set : B -> A -> A) : ptr Mem B :=
  {| addr_of := (addr_of p ++ "." ++ name)%string;
     load_of := fun m => get (load_of p m);
     store_of := fun v m => store_of p (set v (load_of p m)) m |}.

(** The object that is the whole memory. *)
Definition self (Mem : Type) (name : string) : ptr Mem Mem :=
  {| addr_of := name; load_of := fun m => m; store_of := fun v _ => v |}.

(** A pointer behaves like one memory cell. *)
Record ptr_ok {Mem T} (p : ptr Mem T) : Prop := {
  load_store : forall v m, load_of p (store_of p v m) = v;
  store_load : forall m, store_of p (load_of p m) m = m;
  store_store : forall v w m, store_of p v (store_of p w m) = store_of p v m
}.

(** Two pointers to cells that do not overlap. *)
Record ptr_apart {Mem T U} (p : ptr Mem T) (q : ptr Mem U) : Prop := {
  load_other : forall v m, load_of p (store_of q v m) = load_of p m;
  other_load : forall v m, load_of q (store_of p v m) = load_of q m;
  store_comm : forall v w m,
    store_of p v (store_of q w m) = store_of q w (store_of p v m)
}.

(** ** Spinlocks, once-controls, yielding, alarms (parlib, outside this file) *)

(** Modelled from the spec: [struct spin_pdr_lock] (parlib/spinlock.h is not
    part of the sources at hand).  The lock is held ([true]) or free
    ([false]); locking a held lock spins, which in a run of one caller never
    ends. *)
Definition spin_pdr_lock_t := bool.

(** Modelled from the spec: [spin_pdr_init] (parlib/spinlock.h), which leaves
    the lock free. *)
Definition spin_pdr_init {Mem} (l : ptr Mem spin_pdr_lock_t) : prog Mem unit :=
  store l false.

(** Modelled from the spec: [spin_pdr_lock] (parlib/spinlock.h), which returns
    with the lock held once it was free. *)
Definition spin_pdr_lock {Mem} (l : ptr Mem spin_pdr_lock_t) : prog Mem unit :=
  held <- load l ;;
  if held then get_stuck (Spinning (addr_of l))
  else store l true ;; emit (EvSpinLock (addr_of l)).

(** Modelled from the spec: [spin_pdr_unlock] (parlib/spinlock.h). *)
Definition spin_pdr_unlock {Mem} (l : ptr Mem spin_pdr_lock_t) : prog Mem unit :=
  store l false ;; emit (EvSpinUnlock (addr_of l)).

(** *** Objects that a spinlock protects

    The count and the wait queue of a semaphore, the wait queue of a
    condition variable, the fields of a reader-writer lock and the wait queue
    a timeout blob points to are read and written by the code with the
    spinlock of the object held.  The access carries the rule: with the lock
    [l] free nothing is read or written, and the run stops as [Racing]. *)
Definition under {Mem A} (l : ptr Mem spin_pdr_lock_t) (a : addr)
    (access : prog Mem A) : prog Mem A :=
  held <- load l ;;
  if held then access else get_stuck (Racing a).

Definition load_under {Mem T} (l : ptr Mem spin_pdr_lock_t) (p : ptr Mem T)
  : prog Mem T :=
  under l (addr_of p) (load p).
Definition store_under {Mem T} (l : ptr Mem spin_pdr_lock_t) (p : ptr Mem T)
    (v : T) : prog Mem unit :=
  under l (addr_of p) (store p v).
Definition call_under {Mem T A} (l : ptr Mem spin_pdr_lock_t) (p : ptr Mem T)
    (f : T -> A * T) : prog Mem A :=
  under l (addr_of p) (call p f).
Definition update_under {Mem T} (l : ptr Mem spin_pdr_lock_t) (p : ptr Mem T)
    (f : T -> T) : prog Mem unit :=
  under l (addr_of p) (update p f).

(** Modelled from the spec: [parlib_once_t] (parlib/parlib.h is not part of
    the sources at hand): whether the initializer has run. *)
Definition parlib_once_t := bool.

(** Modelled from the spec: [parlib_run_once] (parlib/parlib.h): the
    initializer runs at most once per primitive, and the primitive is
    initialized when the call returns. *)
Definition parlib_run_once {Mem} (once_ctl : ptr Mem parlib_once_t)
    (init_fn : prog Mem unit) : prog Mem unit :=
  ran <- load once_ctl ;;
  if ran then ret tt else init_fn ;; store once_ctl true.

(** Modelled from the spec: [parlib_set_ran_once] (parlib/parlib.h), which
    marks the once-control as having run. *)
Definition parlib_set_ran_once {Mem} (once_ctl : ptr Mem parlib_once_t)
  : prog Mem unit :=
  store once_ctl true.

(** Modelled from the spec: [assert_can_block] (parlib/uthread.h).  The caller
    is a uthread in a context that may block; a violation is a programming
    error and no such caller is modelled. *)
Definition assert_can_block {Mem} : prog Mem unit := ret tt.

(** Modelled from the spec: [uthread_has_blocked] (uthread.c), a call into
    the 2LS that this file only issues. *)
Definition uthread_has_blocked {Mem} (uth : uthread) : prog Mem unit :=
  emit (EvHasBlocked uth).

(** Modelled from the spec: [uthread_runnable] (uthread.c), which asks the 2LS
    to make the uthread runnable. *)
Definition uthread_runnable {Mem} (uth : uthread) : prog Mem unit :=
  emit (EvRunnable uth).

(** Modelled from the spec: [uthread_yield(TRUE, cb, arg)] (uthread.c).  The
    scheduler suspends the calling uthread and then runs the callback on it in
    vcore context; the caller's code after the yield runs when the uthread is
    restarted, and is a separate definition here. *)
Definition uthread_yield {Mem} (current_uthread : uthread)
    (cb : uthread -> prog Mem unit) : prog Mem unit :=
  emit (EvYield current_uthread) ;; cb current_uthread.

(** What a call that may yield hands back: its return value, or the frame it
    needs when the uthread is restarted. *)
Inductive blocking (A K : Type) : Type :=
| Returned (a : A)
| Yielded (k : K).
Arguments Returned {A K} a.
Arguments Yielded {A K} k.

(** ** The 2LS and the sync object *)

(** [struct uth_tailq]: a TAILQ of uthreads linked through [sync_next], head
    first. *)
Definition uth_tailq := list uthread.

(** [uth_sync_t]: opaque storage, large enough for a [struct uth_tailq]. *)
Definition uth_sync_t := uth_tailq.

(** The hooks of [struct schedule_ops] that the functions embedded here
    consult; [None] is a NULL function pointer.  A hook on a sync object
    hands back the contents it leaves in it. *)
Record schedule_ops : Type := {
  sync_init : option (uth_sync_t -> uth_sync_t);
  sync_enqueue : option (uthread -> uth_sync_t -> uth_sync_t);
  sync_get_next : option (uth_sync_t -> option uthread * uth_sync_t);
  sync_get_uth : option (uth_sync_t -> uthread -> bool * uth_sync_t);
  sync_swap : option (uth_sync_t -> uth_sync_t -> uth_sync_t * uth_sync_t);
  sync_is_empty : option (uth_sync_t -> bool);
  thread_bulk_runnable : option (uth_sync_t -> unit)
}.

(** A 2LS that leaves every sync hook NULL, and may or may not wake in bulk. *)
Definition generic_2ls (bulk : option (uth_sync_t -> unit)) : schedule_ops :=
  {| sync_init := None; sync_enqueue := None;
     sync_get_next := None; sync_get_uth := None; sync_swap := None;
     sync_is_empty := None; thread_bulk_runnable := bulk |}.

(** *** Default sync object implementation *)

Definition uth_default_sync_init (sync : uth_sync_t) : uth_sync_t := [].

Definition uth_default_sync_enqueue (uth : uthread) (sync : uth_sync_t)
  : uth_sync_t :=
  sync ++ [uth].

Definition uth_default_sync_get_next (sync : uth_sync_t)
  : option uthread * uth_sync_t :=
  match sync with
  | [] => (None, sync)
  | first :: rest => (Some first, rest)
  end.

Fixpoint uth_default_sync_get_uth (sync : uth_sync_t) (uth : uthread)
  : bool * uth_sync_t :=
  match sync with
  | [] => (false, [])
  | i :: rest =>
      if Nat.eqb i uth then (true, rest)
      else let (found, rest') := uth_default_sync_get_uth rest uth in
           (found, i :: rest')
  end.

Definition uth_default_sync_swap (a b : uth_sync_t) : uth_sync_t * uth_sync_t :=
  (b, a).

Definition uth_default_sync_is_empty (sync : uth_sync_t) : bool :=
  match sync with [] => true | _ :: _ => false end.

(** [struct timeout_blob]. *)
Record timeout_blob (Mem : Type) : Type := {
  timed_out : bool;
  uth : uthread;
  sync_ptr : ptr Mem uth_sync_t;
  lock_ptr : ptr Mem spin_pdr_lock_t
}.

(** [struct uth_semaphore] (a [uth_mutex_t] is the same struct). *)
Record uth_semaphore : Type := {
  sem_once_ctl : parlib_once_t;
  sem_count : Z;
  sem_lock : spin_pdr_lock_t;
  sem_sync_obj : uth_sync_t
}.

Definition set_sem_once_ctl (v : parlib_once_t) (s : uth_semaphore) :=
  {| sem_once_ctl := v; sem_count := sem_count s; sem_lock := sem_lock s;
     sem_sync_obj := sem_sync_obj s |}.
Definition set_sem_count (v : Z) (s : uth_semaphore) :=
  {| sem_once_ctl := sem_once_ctl s; sem_count := v; sem_lock := sem_lock s;
     sem_sync_obj := sem_sync_obj s |}.
Definition set_sem_lock (v : spin_pdr_lock_t) (s : uth_semaphore) :=
  {| sem_once_ctl := sem_once_ctl s; sem_count := sem_count s; sem_lock := v;
     sem_sync_obj := sem_sync_obj s |}.
Definition set_sem_sync_obj (v : uth_sync_t) (s : uth_semaphore) :=
  {| sem_once_ctl := sem_once_ctl s; sem_count := sem_count s;
     sem_lock := sem_lock s; sem_sync_obj := v |}.

(** [&sem->once_ctl], [&sem->count], [&sem->lock], [&sem->sync_obj]. *)
Section Sem_fields.
Context {Mem : Type} (sem : ptr Mem uth_semaphore).
Definition p_sem_once_ctl := field sem "once_ctl" sem_once_ctl set_sem_once_ctl.
Definition p_sem_count := field sem "count" sem_count set_sem_count.
Definition p_sem_lock := field sem "lock" sem_lock set_sem_lock.
Definition p_sem_sync_obj := field sem "sync_obj" sem_sync_obj set_sem_sync_obj.
End Sem_fields.

(** [struct uth_recurse_mutex]. *)
Record uth_recurse_mutex : Type := {
  rmtx_once_ctl : parlib_once_t;
  rmtx_mtx : uth_semaphore;
  rmtx_lockholder : option uthread;
  rmtx_count : Z
}.

Definition set_rmtx_once_ctl (v : parlib_once_t) (r : uth_recurse_mutex) :=
  {| rmtx_once_ctl := v; rmtx_mtx := rmtx_mtx r;
     rmtx_lockholder := rmtx_lockholder r; rmtx_count := rmtx_count r |}.
Definition set_rmtx_mtx (v : uth_semaphore) (r : uth_recurse_mutex) :=
  {| rmtx_once_ctl := rmtx_once_ctl r; rmtx_mtx := v;
     rmtx_lockholder := rmtx_lockholder r; rmtx_count := rmtx_count r |}.
Definition set_rmtx_lockholder (v : option uthread) (r : uth_recurse_mutex) :=
  {| rmtx_once_ctl := rmtx_once_ctl r; rmtx_mtx := rmtx_mtx r;
     rmtx_lockholder := v; rmtx_count := rmtx_count r |}.
Definition set_rmtx_count (v : Z) (r : uth_recurse_mutex) :=
  {| rmtx_once_ctl := rmtx_once_ctl r; rmtx_mtx := rmtx_mtx r;
     rmtx_lockholder := rmtx_lockholder r; rmtx_count := v |}.

(** [&r_mtx->once_ctl], [&r_mtx->mtx], [&r_mtx->lockholder], [&r_mtx->count]. *)
Section Rmtx_fields.
Context {Mem : Type} (r_mtx : ptr Mem uth_recurse_mutex).
Definition p_rmtx_once_ctl := field r_mtx "once_ctl" rmtx_once_ctl set_rmtx_once_ctl.
Definition p_rmtx_mtx := field r_mtx "mtx" rmtx_mtx set_rmtx_mtx.
Definition p_rmtx_lockholder :=
  field r_mtx "lockholder" rmtx_lockholder set_rmtx_lockholder.
Definition p_rmtx_count := field r_mtx "count" rmtx_count set_rmtx_count.
End Rmtx_fields.

(** [struct uth_cond_var]. *)
Record uth_cond_var : Type := {
  cv_once_ctl : parlib_once_t;
  cv_lock : spin_pdr_lock_t;
  cv_sync_obj : uth_sync_t
}.

Definition set_cv_once_ctl (v : parlib_once_t) (c : uth_cond_var) :=
  {| cv_once_ctl := v; cv_lock := cv_lock c; cv_sync_obj := cv_sync_obj c |}.
Definition set_cv_lock (v : spin_pdr_lock_t) (c : uth_cond_var) :=
  {| cv_once_ctl := cv_once_ctl c; cv_lock := v; cv_sync_obj := cv_sync_obj c |}.
Definition set_cv_sync_obj (v : uth_sync_t) (c : uth_cond_var) :=
  {| cv_once_ctl := cv_once_ctl c; cv_lock := cv_lock c; cv_sync_obj := v |}.

(** [&cv->once_ctl], [&cv->lock], [&cv->sync_obj]. *)
Section Cv_fields.
Context {Mem : Type} (cv : ptr Mem uth_cond_var).
Definition p_cv_once_ctl := field cv "once_ctl" cv_once_ctl set_cv_once_ctl.
Definition p_cv_lock := field cv "lock" cv_lock set_cv_lock.
Definition p_cv_sync_obj := field cv "sync_obj" cv_sync_obj set_cv_sync_obj.
End Cv_fields.

(** [struct uth_rwlock]. *)
Record uth_rwlock : Type := {
  rwl_once_ctl : parlib_once_t;
  rwl_lock : spin_pdr_lock_t;
  rwl_nr_readers : Z;
  rwl_has_writer : bool;
  rwl_readers : uth_sync_t;
  rwl_writers : uth_sync_t
}.

Definition set_rwl_once_ctl (v : parlib_once_t) (r : uth_rwlock) :=
  {| rwl_once_ctl := v; rwl_lock := rwl_lock r;
     rwl_nr_readers := rwl_nr_readers r; rwl_has_writer := rwl_has_writer r;
     rwl_readers := rwl_readers r; rwl_writers := rwl_writers r |}.
Definition set_rwl_lock (v : spin_pdr_lock_t) (r : uth_rwlock) :=
  {| rwl_once_ctl := rwl_once_ctl r; rwl_lock := v;
     rwl_nr_readers := rwl_nr_readers r; rwl_has_writer := rwl_has_writer r;
     rwl_readers := rwl_readers r; rwl_writers := rwl_writers r |}.
Definition set_rwl_nr_readers (v : Z) (r : uth_rwlock) :=
  {| rwl_once_ctl := rwl_once_ctl r; rwl_lock := rwl_lock r;
     rwl_nr_readers := v; rwl_has_writer := rwl_has_writer r;
     rwl_readers := rwl_readers r; rwl_writers := rwl_writers r |}.
Definition set_rwl_has_writer (v : bool) (r : uth_rwlock) :=
  {| rwl_once_ctl := rwl_once_ctl r; rwl_lock := rwl_lock r;
     rwl_nr_readers := rwl_nr_readers r; rwl_has_writer := v;
     rwl_readers := rwl_readers r; rwl_writers := rwl_writers r |}.
Definition set_rwl_readers (v : uth_sync_t) (r : uth_rwlock) :=
  {| rwl_once_ctl := rwl_once_ctl r; rwl_lock := rwl_lock r;
     rwl_nr_readers := rwl_nr_readers r; rwl_has_writer := rwl_has_writer r;
     rwl_readers := v; rwl_writers := rwl_writers r |}.
Definition set_rwl_writers (v : uth_sync_t) (r : uth_rwlock) :=
  {| rwl_once_ctl := rwl_once_ctl r; rwl_lock := rwl_lock r;
     rwl_nr_readers := rwl_nr_readers r; rwl_has_writer := rwl_has_writer r;
     rwl_readers := rwl_readers r; rwl_writers := v |}.

(** [&rwl->once_ctl], [&rwl->lock], [&rwl->nr_readers], [&rwl->has_writer],
    [&rwl->readers], [&rwl->writers]. *)
Section Rwl_fields.
Context {Mem : Type} (rwl : ptr Mem uth_rwlock).
Definition p_rwl_once_ctl := field rwl "once_ctl" rwl_once_ctl set_rwl_once_ctl.
Definition p_rwl_lock := field rwl "lock" rwl_lock set_rwl_lock.
Definition p_rwl_nr_readers :=
  field rwl "nr_readers" rwl_nr_readers set_rwl_nr_readers.
Definition p_rwl_has_writer :=
  field rwl "has_writer" rwl_has_writer set_rwl_has_writer.
Definition p_rwl_readers := field rwl "readers" rwl_readers set_rwl_readers.
Definition p_rwl_writers := field rwl "writers" rwl_writers set_rwl_writers.
End Rwl_fields.

Section Uthread_sync.

(** The 2LS in use ([sched_ops]) and the uthread that makes the call
    ([current_uthread]); both are globals of uthread.c. *)
Variable sched_ops : schedule_ops.
Variable current_uthread : uthread.

(** *** External uthread sync interface *)

Definition __uth_sync_init (sync : uth_sync_t) : uth_sync_t :=
  match sync_init sched_ops with
  | Some hook => hook sync
  | None => uth_default_sync_init sync
  end.

Definition __uth_sync_enqueue (uth : uthread) (sync : uth_sync_t) : uth_sync_t :=
  match sync_enqueue sched_ops with
  | Some hook => hook uth sync
  | None => uth_default_sync_enqueue uth sync
  end.

Definition __uth_sync_get_next (sync : uth_sync_t) : option uthread * uth_sync_t :=
  match sync_get_next sched_ops with
  | Some hook => hook sync
  | None => uth_default_sync_get_next sync
  end.

Definition __uth_sync_get_uth (sync : uth_sync_t) (uth : uthread)
  : bool * uth_sync_t :=
  match sync_get_uth sched_ops with
  | Some hook => hook sync uth
  | None => uth_default_sync_get_uth sync uth
  end.

Definition __uth_sync_swap (a b : uth_sync_t) : uth_sync_t * uth_sync_t :=
  match sync_swap sched_ops with
  | Some hook => hook a b
  | None => uth_default_sync_swap a b
  end.

Definition __uth_sync_is_empty (sync : uth_sync_t) : bool :=
  match sync_is_empty sched_ops with
  | Some hook => hook sync
  | None => uth_default_sync_is_empty sync
  end.

(** The [else] branch of [__uth_sync_wake_all]:
    [while ((uth_i = __uth_sync_get_next(wakees))) uthread_runnable(uth_i);]
    A hook of the 2LS need not ever return NULL, hence the fuel. *)
Fixpoint wake_each {Mem} (fuel : nat) (wakees : uth_sync_t) : prog Mem unit :=
  match fuel with
  | O => get_stuck OutOfFuel
  | S fuel' =>
      match __uth_sync_get_next wakees with
      | (Some uth_i, wakees') => uthread_runnable uth_i ;; wake_each fuel' wakees'
      | (None, _) => ret tt
      end
  end.

(** What the bulk hook does with the wakees is the 2LS's business; the call
    is recorded with the uthreads it is given. *)
Definition __uth_sync_wake_all {Mem} (fuel : nat) (wakees : uth_sync_t)
  : prog Mem unit :=
  match thread_bulk_runnable sched_ops with
  | Some _ => emit (EvBulkRunnable wakees)
  | None => wake_each fuel wakees
  end.

(** *** Timeouts *)

Section Timeouts.
Context {Mem : Type}.

(** The alarm handler.  [waiter->data] is the blob; the blob lives on the
    stack of the waiter, outside [Mem], and its new contents are returned. *)
Definition timeout_handler (blob : timeout_blob Mem)
  : prog Mem (timeout_blob Mem) :=
  spin_pdr_lock (lock_ptr blob) ;;
  removed <- call_under (lock_ptr blob) (sync_ptr blob)
               (fun sync => __uth_sync_get_uth sync (uth blob)) ;;
  let blob :=
    if removed : bool
    then {| timed_out := true; uth := uth blob; sync_ptr := sync_ptr blob;
            lock_ptr := lock_ptr blob |}
    else blob in
  spin_pdr_unlock (lock_ptr blob) ;;
  when (timed_out blob) (uthread_runnable (uth blob)) ;;
  ret blob.

Definition set_timeout_blob (sync_ptr : ptr Mem uth_sync_t)
    (lock_ptr : ptr Mem spin_pdr_lock_t) : timeout_blob Mem :=
  {| timed_out := false; uth := current_uthread; sync_ptr := sync_ptr;
     lock_ptr := lock_ptr |}.

(** [init_awaiter], [set_awaiter_abs_unix] and [set_alarm] belong to the alarm
    subsystem: the alarm is armed, with [timeout_handler] to run on the blob
    when it fires. *)
Definition set_timeout_alarm (blob : timeout_blob Mem) (abs_timeout : timespec)
  : prog Mem unit :=
  emit (EvSetAlarm (uth blob) abs_timeout).

(** Modelled from the spec: [unset_alarm] (parlib/alarm.h): when it returns the
    handler has completed or will never run. *)
Definition unset_alarm (blob : timeout_blob Mem) : prog Mem unit :=
  emit (EvUnsetAlarm (uth blob)).

End Timeouts.

(** *** Semaphores and mutexes *)

Section Semaphores.
Context {Mem : Type}.

Definition __uth_semaphore_init (sem : ptr Mem uth_semaphore) : prog Mem unit :=
  spin_pdr_init (p_sem_lock sem) ;;
  update (p_sem_sync_obj sem) __uth_sync_init.

Definition uth_semaphore_init (sem : ptr Mem uth_semaphore) (count : Z)
  : prog Mem unit :=
  __uth_semaphore_init sem ;;
  store (p_sem_count sem) (uint count) ;; (* the argument is an unsigned int *)
  parlib_set_ran_once (p_sem_once_ctl sem).

Definition __semaphore_cb (sem : ptr Mem uth_semaphore) (uth : uthread)
  : prog Mem unit :=
  uthread_has_blocked uth ;;
  update_under (p_sem_lock sem) (p_sem_sync_obj sem) (__uth_sync_enqueue uth) ;;
  spin_pdr_unlock (p_sem_lock sem).

(** [uth_semaphore_timed_down] up to its return on the fast path, or else
    through [uthread_yield] and its callback.  The frame of a yielded call is
    its blob, present iff [abs_timeout] is not NULL. *)
Definition uth_semaphore_timed_down (sem : ptr Mem uth_semaphore)
    (abs_timeout : option timespec)
  : prog Mem (blocking bool (option (timeout_blob Mem))) :=
  assert_can_block ;;
  parlib_run_once (p_sem_once_ctl sem) (__uth_semaphore_init sem) ;;
  spin_pdr_lock (p_sem_lock sem) ;;
  count <- load_under (p_sem_lock sem) (p_sem_count sem) ;;
  if 0 <? count then
    store_under (p_sem_lock sem) (p_sem_count sem) (uint (count - 1)) ;;
    spin_pdr_unlock (p_sem_lock sem) ;;
    ret (Returned true)
  else
    blob <- match abs_timeout with
            | Some abs =>
                let blob := set_timeout_blob (p_sem_sync_obj sem) (p_sem_lock sem) in
                set_timeout_alarm blob abs ;;
                ret (Some blob)
            | None => ret None
            end ;;
    uthread_yield current_uthread (__semaphore_cb sem) ;;
    ret (Yielded blob).

(** [uth_semaphore_timed_down] from the return of [uthread_yield] on.  The
    blob is the one of the frame as the alarm handler may have left it. *)
Definition uth_semaphore_timed_down_restarted (blob : option (timeout_blob Mem))
  : prog Mem bool :=
  match blob with
  | Some blob =>
      unset_alarm blob ;;
      ret (if timed_out blob then false else true)
  | None => ret true
  end.

Definition uth_semaphore_down (sem : ptr Mem uth_semaphore)
  : prog Mem (blocking unit (option (timeout_blob Mem))) :=
  r <- uth_semaphore_timed_down sem None ;;
  match r with
  | Returned _ => ret (Returned tt)
  | Yielded frame => ret (Yielded frame)
  end.

Definition uth_semaphore_down_restarted (blob : option (timeout_blob Mem))
  : prog Mem unit :=
  uth_semaphore_timed_down_restarted blob ;; ret tt.

Definition uth_semaphore_trydown (sem : ptr Mem uth_semaphore) : prog Mem bool :=
  assert_can_block ;;
  parlib_run_once (p_sem_once_ctl sem) (__uth_semaphore_init sem) ;;
  spin_pdr_lock (p_sem_lock sem) ;;
  count <- load_under (p_sem_lock sem) (p_sem_count sem) ;;
  ret_ <- (if 0 <? count
           then store_under (p_sem_lock sem) (p_sem_count sem)
                  (uint (count - 1)) ;;
                ret true
           else ret false) ;;
  spin_pdr_unlock (p_sem_lock sem) ;;
  ret ret_.

Definition uth_semaphore_up (sem : ptr Mem uth_semaphore) : prog Mem unit :=
  parlib_run_once (p_sem_once_ctl sem) (__uth_semaphore_init sem) ;;
  spin_pdr_lock (p_sem_lock sem) ;;
  uth <- call_under (p_sem_lock sem) (p_sem_sync_obj sem)
           __uth_sync_get_next ;;
  match uth with
  | None => update_under (p_sem_lock sem) (p_sem_count sem)
              (fun count => uint (count + 1))
  | Some _ => ret tt
  end ;;
  spin_pdr_unlock (p_sem_lock sem) ;;
  match uth with
  | Some uth => uthread_runnable uth
  | None => ret tt
  end.

Definition __uth_mutex_init (mtx : ptr Mem uth_semaphore) : prog Mem unit :=
  __uth_semaphore_init mtx ;;
  store (p_sem_count mtx) 1.

Definition uth_mutex_init (mtx : ptr Mem uth_semaphore) : prog Mem unit :=
  __uth_mutex_init mtx ;;
  parlib_set_ran_once (p_sem_once_ctl mtx).

Definition uth_mutex_timed_lock (mtx : ptr Mem uth_semaphore)
    (abs_timeout : option timespec)
  : prog Mem (blocking bool (option (timeout_blob Mem))) :=
  parlib_run_once (p_sem_once_ctl mtx) (__uth_mutex_init mtx) ;;
  uth_semaphore_timed_down mtx abs_timeout.

Definition uth_mutex_timed_lock_restarted (blob : option (timeout_blob Mem))
  : prog Mem bool :=
  uth_semaphore_timed_down_restarted blob.

Definition uth_mutex_lock (mtx : ptr Mem uth_semaphore)
  : prog Mem (blocking unit (option (timeout_blob Mem))) :=
  parlib_run_once (p_sem_once_ctl mtx) (__uth_mutex_init mtx) ;;
  uth_semaphore_down mtx.

Definition uth_mutex_lock_restarted (blob : option (timeout_blob Mem))
  : prog Mem unit :=
  uth_semaphore_down_restarted blob.

Definition uth_mutex_trylock (mtx : ptr Mem uth_semaphore) : prog Mem bool :=
  parlib_run_once (p_sem_once_ctl mtx) (__uth_mutex_init mtx) ;;
  uth_semaphore_trydown mtx.

Definition uth_mutex_unlock (mtx : ptr Mem uth_semaphore) : prog Mem unit :=
  uth_semaphore_up mtx.

End Semaphores.

(** *** Recursive mutexes *)

Section Recursive_mutexes.
Context {Mem : Type}.

Definition __uth_recurse_mutex_init (r_mtx : ptr Mem uth_recurse_mutex)
  : prog Mem unit :=
  __uth_mutex_init (p_rmtx_mtx r_mtx) ;;
  parlib_set_ran_once (p_sem_once_ctl (p_rmtx_mtx r_mtx)) ;;
  store (p_rmtx_lockholder r_mtx) None ;;
  store (p_rmtx_count r_mtx) 0.

Definition uth_recurse_mutex_init (r_mtx : ptr Mem uth_recurse_mutex)
  : prog Mem unit :=
  __uth_recurse_mutex_init r_mtx ;;
  parlib_set_ran_once (p_rmtx_once_ctl r_mtx).

(** [r_mtx->lockholder == current_uthread]. *)
Definition is_current_uthread (lockholder : option uthread) : bool :=
  match lockholder with
  | Some uth => Nat.eqb uth current_uthread
  | None => false
  end.

(** [uth_recurse_mutex_timed_lock] from the return of [uth_mutex_timed_lock]
    on, [got] being what that call returned. *)
Definition uth_recurse_mutex_timed_lock_tail (r_mtx : ptr Mem uth_recurse_mutex)
    (got : bool) : prog Mem bool :=
  if negb got then ret false
  else
    store (p_rmtx_lockholder r_mtx) (Some current_uthread) ;;
    store (p_rmtx_count r_mtx) 1 ;;
    ret true.

(** [uth_recurse_mutex_timed_lock] up to its return, or to the yield inside
    [uth_mutex_timed_lock]. *)
Definition uth_recurse_mutex_timed_lock (r_mtx : ptr Mem uth_recurse_mutex)
    (abs_timeout : option timespec)
  : prog Mem (blocking bool (option (timeout_blob Mem))) :=
  assert_can_block ;;
  parlib_run_once (p_rmtx_once_ctl r_mtx) (__uth_recurse_mutex_init r_mtx) ;;
  lockholder <- load (p_rmtx_lockholder r_mtx) ;;
  if is_current_uthread lockholder then
    update (p_rmtx_count r_mtx) (fun count => uint (count + 1)) ;;
    ret (Returned true)
  else
    r <- uth_mutex_timed_lock (p_rmtx_mtx r_mtx) abs_timeout ;;
    match r with
    | Returned got =>
        ret_ <- uth_recurse_mutex_timed_lock_tail r_mtx got ;;
        ret (Returned ret_)
    | Yielded frame => ret (Yielded frame)
    end.

(** [uth_recurse_mutex_timed_lock] once the uthread that yielded inside
    [uth_mutex_timed_lock] has been restarted. *)
Definition uth_recurse_mutex_timed_lock_restarted
    (r_mtx : ptr Mem uth_recurse_mutex) (blob : option (timeout_blob Mem))
  : prog Mem bool :=
  got <- uth_mutex_timed_lock_restarted blob ;;
  uth_recurse_mutex_timed_lock_tail r_mtx got.

Definition uth_recurse_mutex_lock (r_mtx : ptr Mem uth_recurse_mutex)
  : prog Mem (blocking unit (option (timeout_blob Mem))) :=
  r <- uth_recurse_mutex_timed_lock r_mtx None ;;
  match r with
  | Returned _ => ret (Returned tt)
  | Yielded frame => ret (Yielded frame)
  end.

Definition uth_recurse_mutex_lock_restarted (r_mtx : ptr Mem uth_recurse_mutex)
    (blob : option (timeout_blob Mem)) : prog Mem unit :=
  uth_recurse_mutex_timed_lock_restarted r_mtx blob ;; ret tt.

Definition uth_recurse_mutex_trylock (r_mtx : ptr Mem uth_recurse_mutex)
  : prog Mem bool :=
  assert_can_block ;;
  parlib_run_once (p_rmtx_once_ctl r_mtx) (__uth_recurse_mutex_init r_mtx) ;;
  lockholder <- load (p_rmtx_lockholder r_mtx) ;;
  if is_current_uthread lockholder then
    update (p_rmtx_count r_mtx) (fun count => uint (count + 1)) ;;
    ret true
  else
    ret_ <- uth_mutex_trylock (p_rmtx_mtx r_mtx) ;;
    when ret_ (store (p_rmtx_lockholder r_mtx) (Some current_uthread) ;;
               store (p_rmtx_count r_mtx) 1) ;;
    ret ret_.

Definition uth_recurse_mutex_unlock (r_mtx : ptr Mem uth_recurse_mutex)
  : prog Mem unit :=
  update (p_rmtx_count r_mtx) (fun count => uint (count - 1)) ;;
  count <- load (p_rmtx_count r_mtx) ;;
  when (count =? 0)
    (store (p_rmtx_lockholder r_mtx) None ;;
     uth_mutex_unlock (p_rmtx_mtx r_mtx)).

End Recursive_mutexes.

(** *** Condition variables *)

Section Condition_variables.
Context {Mem : Type}.

Definition __uth_cond_var_init (cv : ptr Mem uth_cond_var) : prog Mem unit :=
  spin_pdr_init (p_cv_lock cv) ;;
  update (p_cv_sync_obj cv) __uth_sync_init.

Definition uth_cond_var_init (cv : ptr Mem uth_cond_var) : prog Mem unit :=
  __uth_cond_var_init cv ;;
  parlib_set_ran_once (p_cv_once_ctl cv).

(** [struct uth_cv_link]. *)
Record uth_cv_link : Type := {
  link_cv : ptr Mem uth_cond_var;
  link_mtx : ptr Mem uth_semaphore
}.

Definition __cv_wait_cb (link : uth_cv_link) (uth : uthread) : prog Mem unit :=
  let cv := link_cv link in
  let mtx := link_mtx link in
  uthread_has_blocked uth ;;
  update_under (p_cv_lock cv) (p_cv_sync_obj cv) (__uth_sync_enqueue uth) ;;
  spin_pdr_unlock (p_cv_lock cv) ;;
  uth_mutex_unlock mtx.

(** [uth_cond_var_timed_wait] through [uthread_yield] and its callback.  The
    call always yields; its frame is the blob, present iff [abs_timeout] is
    not NULL. *)
Definition uth_cond_var_timed_wait (cv : ptr Mem uth_cond_var)
    (mtx : ptr Mem uth_semaphore) (abs_timeout : option timespec)
  : prog Mem (option (timeout_blob Mem)) :=
  assert_can_block ;;
  parlib_run_once (p_cv_once_ctl cv) (__uth_cond_var_init cv) ;;
  let link := {| link_cv := cv; link_mtx := mtx |} in
  spin_pdr_lock (p_cv_lock cv) ;;
  blob <- match abs_timeout with
          | Some abs =>
              let blob := set_timeout_blob (p_cv_sync_obj cv) (p_cv_lock cv) in
              set_timeout_alarm blob abs ;;
              ret (Some blob)
          | None => ret None
          end ;;
  uthread_yield current_uthread (__cv_wait_cb link) ;;
  ret blob.

(** [__cv_wait_cb] up to and including [spin_pdr_unlock(&cv->lock)].  From
    there on the uthread can be signalled and restarted, while the callback
    still has [uth_mutex_unlock(mtx)] to run. *)
Definition __cv_wait_cb_enqueued (link : uth_cv_link) (uth : uthread)
  : prog Mem unit :=
  let cv := link_cv link in
  uthread_has_blocked uth ;;
  update_under (p_cv_lock cv) (p_cv_sync_obj cv) (__uth_sync_enqueue uth) ;;
  spin_pdr_unlock (p_cv_lock cv).

(** [uth_cond_var_timed_wait] up to that same point of its yield callback. *)
Definition uth_cond_var_timed_wait_enqueued (cv : ptr Mem uth_cond_var)
    (mtx : ptr Mem uth_semaphore) (abs_timeout : option timespec)
  : prog Mem (option (timeout_blob Mem)) :=
  assert_can_block ;;
  parlib_run_once (p_cv_once_ctl cv) (__uth_cond_var_init cv) ;;
  let link := {| link_cv := cv; link_mtx := mtx |} in
  spin_pdr_lock (p_cv_lock cv) ;;
  blob <- match abs_timeout with
          | Some abs =>
              let blob := set_timeout_blob (p_cv_sync_obj cv) (p_cv_lock cv) in
              set_timeout_alarm blob abs ;;
              ret (Some blob)
          | None => ret None
          end ;;
  uthread_yield current_uthread (__cv_wait_cb_enqueued link) ;;
  ret blob.

(** [uth_cond_var_timed_wait] from the return of [uthread_yield] up to its
    own return, or to the yield inside [uth_mutex_lock].  The frame of that
    second yield keeps [ret]. *)
Definition uth_cond_var_timed_wait_restarted (mtx : ptr Mem uth_semaphore)
    (blob : option (timeout_blob Mem))
  : prog Mem (blocking bool (bool * option (timeout_blob Mem))) :=
  ret_ <- match blob with
          | Some blob =>
              unset_alarm blob ;;
              ret (if timed_out blob then false else true)
          | None => ret true
          end ;;
  r <- uth_mutex_lock mtx ;;
  match r with
  | Returned _ => ret (Returned ret_)
  | Yielded frame => ret (Yielded (ret_, frame))
  end.

(** [uth_cond_var_timed_wait] once the uthread that yielded inside
    [uth_mutex_lock] has been restarted. *)
Definition uth_cond_var_timed_wait_relocked
    (frame : bool * option (timeout_blob Mem)) : prog Mem bool :=
  uth_mutex_lock_restarted (snd frame) ;;
  ret (fst frame).

Definition uth_cond_var_signal (cv : ptr Mem uth_cond_var) : prog Mem unit :=
  parlib_run_once (p_cv_once_ctl cv) (__uth_cond_var_init cv) ;;
  spin_pdr_lock (p_cv_lock cv) ;;
  uth <- call_under (p_cv_lock cv) (p_cv_sync_obj cv) __uth_sync_get_next ;;
  spin_pdr_unlock (p_cv_lock cv) ;;
  match uth with
  | Some uth => uthread_runnable uth
  | None => ret tt
  end.

(** [restartees] is a local sync object, uninitialized until
    [__uth_sync_init] runs on it. *)
Definition uth_cond_var_broadcast (fuel : nat) (cv : ptr Mem uth_cond_var)
  : prog Mem unit :=
  parlib_run_once (p_cv_once_ctl cv) (__uth_cond_var_init cv) ;;
  spin_pdr_lock (p_cv_lock cv) ;;
  sync_obj <- load_under (p_cv_lock cv) (p_cv_sync_obj cv) ;;
  if __uth_sync_is_empty sync_obj then
    spin_pdr_unlock (p_cv_lock cv)
  else
    let restartees := __uth_sync_init [] in
    restartees <- call_under (p_cv_lock cv) (p_cv_sync_obj cv)
                    (__uth_sync_swap restartees) ;;
    spin_pdr_unlock (p_cv_lock cv) ;;
    __uth_sync_wake_all fuel restartees.

End Condition_variables.

(** *** Reader-writer sleeping locks *)

Section Rwlocks.
Context {Mem : Type}.

Definition __uth_rwlock_init (rwl : ptr Mem uth_rwlock) : prog Mem unit :=
  spin_pdr_init (p_rwl_lock rwl) ;;
  store (p_rwl_nr_readers rwl) 0 ;;
  store (p_rwl_has_writer rwl) false ;;
  update (p_rwl_readers rwl) __uth_sync_init ;;
  update (p_rwl_writers rwl) __uth_sync_init.

Definition uth_rwlock_init (rwl : ptr Mem uth_rwlock) : prog Mem unit :=
  __uth_rwlock_init rwl ;;
  parlib_set_ran_once (p_rwl_once_ctl rwl).

Definition __rwlock_rd_cb (rwl : ptr Mem uth_rwlock) (uth : uthread)
  : prog Mem unit :=
  uthread_has_blocked uth ;;
  update_under (p_rwl_lock rwl) (p_rwl_readers rwl) (__uth_sync_enqueue uth) ;;
  spin_pdr_unlock (p_rwl_lock rwl).

(** Nothing runs after the yield in [uth_rwlock_rdlock]: the restarted
    uthread returns. *)
Definition uth_rwlock_rdlock (rwl : ptr Mem uth_rwlock)
  : prog Mem (blocking unit unit) :=
  assert_can_block ;;
  parlib_run_once (p_rwl_once_ctl rwl) (__uth_rwlock_init rwl) ;;
  spin_pdr_lock (p_rwl_lock rwl) ;;
  has_writer <- load_under (p_rwl_lock rwl) (p_rwl_has_writer rwl) ;;
  if negb has_writer then
    update_under (p_rwl_lock rwl) (p_rwl_nr_readers rwl)
      (fun n => uint (n + 1)) ;;
    spin_pdr_unlock (p_rwl_lock rwl) ;;
    ret (Returned tt)
  else
    uthread_yield current_uthread (__rwlock_rd_cb rwl) ;;
    ret (Yielded tt).

Definition uth_rwlock_try_rdlock (rwl : ptr Mem uth_rwlock) : prog Mem bool :=
  assert_can_block ;;
  parlib_run_once (p_rwl_once_ctl rwl) (__uth_rwlock_init rwl) ;;
  spin_pdr_lock (p_rwl_lock rwl) ;;
  has_writer <- load_under (p_rwl_lock rwl) (p_rwl_has_writer rwl) ;;
  ret_ <- (if negb has_writer
           then update_under (p_rwl_lock rwl) (p_rwl_nr_readers rwl)
                  (fun n => uint (n + 1)) ;;
                ret true
           else ret false) ;;
  spin_pdr_unlock (p_rwl_lock rwl) ;;
  ret ret_.

Definition __rwlock_wr_cb (rwl : ptr Mem uth_rwlock) (uth : uthread)
  : prog Mem unit :=
  uthread_has_blocked uth ;;
  update_under (p_rwl_lock rwl) (p_rwl_writers rwl) (__uth_sync_enqueue uth) ;;
  spin_pdr_unlock (p_rwl_lock rwl).

(** Nothing runs after the yield in [uth_rwlock_wrlock] either. *)
Definition uth_rwlock_wrlock (rwl : ptr Mem uth_rwlock)
  : prog Mem (blocking unit unit) :=
  assert_can_block ;;
  parlib_run_once (p_rwl_once_ctl rwl) (__uth_rwlock_init rwl) ;;
  spin_pdr_lock (p_rwl_lock rwl) ;;
  has_writer <- load_under (p_rwl_lock rwl) (p_rwl_has_writer rwl) ;;
  nr_readers <- load_under (p_rwl_lock rwl) (p_rwl_nr_readers rwl) ;;
  if negb has_writer && (nr_readers =? 0) then
    store_under (p_rwl_lock rwl) (p_rwl_has_writer rwl) true ;;
    spin_pdr_unlock (p_rwl_lock rwl) ;;
    ret (Returned tt)
  else
    uthread_yield current_uthread (__rwlock_wr_cb rwl) ;;
    ret (Yielded tt).

Definition uth_rwlock_try_wrlock (rwl : ptr Mem uth_rwlock) : prog Mem bool :=
  assert_can_block ;;
  parlib_run_once (p_rwl_once_ctl rwl) (__uth_rwlock_init rwl) ;;
  spin_pdr_lock (p_rwl_lock rwl) ;;
  has_writer <- load_under (p_rwl_lock rwl) (p_rwl_has_writer rwl) ;;
  nr_readers <- load_under (p_rwl_lock rwl) (p_rwl_nr_readers rwl) ;;
  ret_ <- (if negb has_writer && (nr_readers =? 0)
           then store_under (p_rwl_lock rwl) (p_rwl_has_writer rwl) true ;;
                ret true
           else ret false) ;;
  spin_pdr_unlock (p_rwl_lock rwl) ;;
  ret ret_.

(** The loop of [__rw_unlock_writer]:
    [while ((uth = __uth_sync_get_next(&rwl->readers))) { ... }]; the fuel is
    for a 2LS hook that never returns NULL. *)
Fixpoint drain_readers (fuel : nat) (rwl : ptr Mem uth_rwlock)
    (restartees : uth_tailq) : prog Mem uth_tailq :=
  match fuel with
  | O => get_stuck OutOfFuel
  | S fuel' =>
      uth <- call_under (p_rwl_lock rwl) (p_rwl_readers rwl)
               __uth_sync_get_next ;;
      match uth with
      | Some uth =>
          let restartees := restartees ++ [uth] in
          update_under (p_rwl_lock rwl) (p_rwl_nr_readers rwl)
            (fun n => uint (n + 1)) ;;
          drain_readers fuel' rwl restartees
      | None => ret restartees
      end
  end.

(** [restartees] is the caller's local TAILQ, passed in and handed back. *)
Definition __rw_unlock_writer (fuel : nat) (rwl : ptr Mem uth_rwlock)
    (restartees : uth_tailq) : prog Mem uth_tailq :=
  uth <- call_under (p_rwl_lock rwl) (p_rwl_writers rwl)
           __uth_sync_get_next ;;
  match uth with
  | Some uth => ret (restartees ++ [uth])
  | None =>
      store_under (p_rwl_lock rwl) (p_rwl_has_writer rwl) false ;;
      drain_readers fuel rwl restartees
  end.

Definition __rw_unlock_reader (rwl : ptr Mem uth_rwlock)
    (restartees : uth_tailq) : prog Mem uth_tailq :=
  update_under (p_rwl_lock rwl) (p_rwl_nr_readers rwl)
    (fun n => uint (n - 1)) ;;
  nr_readers <- load_under (p_rwl_lock rwl) (p_rwl_nr_readers rwl) ;;
  if nr_readers =? 0 then
    uth <- call_under (p_rwl_lock rwl) (p_rwl_writers rwl)
             __uth_sync_get_next ;;
    match uth with
    | Some uth =>
        store_under (p_rwl_lock rwl) (p_rwl_has_writer rwl) true ;;
        ret (restartees ++ [uth])
    | None => ret restartees
    end
  else ret restartees.

(** [TAILQ_FOREACH_SAFE(i, &restartees, sync_next, safe) uthread_runnable(i);] *)
Fixpoint runnable_each (restartees : uth_tailq) : prog Mem unit :=
  match restartees with
  | [] => ret tt
  | i :: safe => uthread_runnable i ;; runnable_each safe
  end.

Definition uth_rwlock_unlock (fuel : nat) (rwl : ptr Mem uth_rwlock)
  : prog Mem unit :=
  let restartees := [] in
  spin_pdr_lock (p_rwl_lock rwl) ;;
  has_writer <- load_under (p_rwl_lock rwl) (p_rwl_has_writer rwl) ;;
  restartees <- (if has_writer : bool
                 then __rw_unlock_writer fuel rwl restartees
                 else __rw_unlock_reader rwl restartees) ;;
  spin_pdr_unlock (p_rwl_lock rwl) ;;
  runnable_each restartees.

End Rwlocks.

End Uthread_sync.

(** ** The rest of the interface *)

Section Wait_recurse.
Variable sched_ops : schedule_ops.
Variable current_uthread : uthread.
Context {Mem : Type}.

(** [uth_cond_var_timed_wait_recurse] through the yield of
    [uth_cond_var_timed_wait].  The frame keeps [old_count] with the blob. *)
Definition uth_cond_var_timed_wait_recurse (cv : ptr Mem uth_cond_var)
    (r_mtx : ptr Mem uth_recurse_mutex) (abs_timeout : option timespec)
  : prog Mem (Z * option (timeout_blob Mem)) :=
  old_count <- load (p_rmtx_count r_mtx) ;;
  store (p_rmtx_lockholder r_mtx) None ;;
  store (p_rmtx_count r_mtx) 0 ;;
  blob <- uth_cond_var_timed_wait sched_ops current_uthread cv
            (p_rmtx_mtx r_mtx) abs_timeout ;;
  ret (old_count, blob).

(** [uth_cond_var_timed_wait_recurse] from the return of
    [uth_cond_var_timed_wait] on, [ret_] being what that call returned. *)
Definition uth_cond_var_timed_wait_recurse_tail
    (r_mtx : ptr Mem uth_recurse_mutex) (old_count : Z) (ret_ : bool)
  : prog Mem bool :=
  store (p_rmtx_lockholder r_mtx) (Some current_uthread) ;;
  store (p_rmtx_count r_mtx) old_count ;;
  ret ret_.

(** [uth_cond_var_timed_wait_recurse] once the uthread has been restarted
    from the wait queue of the condition variable. *)
Definition uth_cond_var_timed_wait_recurse_restarted
    (r_mtx : ptr Mem uth_recurse_mutex)
    (frame : Z * option (timeout_blob Mem))
  : prog Mem (blocking bool (Z * (bool * option (timeout_blob Mem)))) :=
  r <- uth_cond_var_timed_wait_restarted sched_ops current_uthread
         (p_rmtx_mtx r_mtx) (snd frame) ;;
  match r with
  | Returned ret_ =>
      ret_ <- uth_cond_var_timed_wait_recurse_tail r_mtx (fst frame) ret_ ;;
      ret (Returned ret_)
  | Yielded frame2 => ret (Yielded (fst frame, frame2))
  end.

(** [uth_cond_var_timed_wait_recurse] once the uthread has been restarted
    from the wait queue of the embedded mutex. *)
Definition uth_cond_var_timed_wait_recurse_relocked
    (r_mtx : ptr Mem uth_recurse_mutex)
    (frame : Z * (bool * option (timeout_blob Mem))) : prog Mem bool :=
  ret_ <- uth_cond_var_timed_wait_relocked (snd frame) ;;
  uth_cond_var_timed_wait_recurse_tail r_mtx (fst frame) ret_.

End Wait_recurse.

(** *** Destroying *)

(** Modelled from the spec: [assert] (parlib/assert.h is not part of the
    sources at hand): a failed assertion is a programming error that ends the
    program.  The outcome of a function whose only failure is an [assert]. *)
Inductive asserted (A : Type) : Type :=
| Passed (a : A)
| AssertFailed.
Arguments AssertFailed {A}.

Definition uth_default_sync_destroy (sync : uth_sync_t) : asserted uth_sync_t :=
  match sync with
  | [] => Passed sync
  | _ :: _ => AssertFailed
  end.

(** [sync_destroy] is the hook [sched_ops->sync_destroy], NULL when [None]. *)
Definition __uth_sync_destroy
    (sync_destroy : option (uth_sync_t -> asserted uth_sync_t))
    (sync : uth_sync_t) : asserted uth_sync_t :=
  match sync_destroy with
  | Some hook => hook sync
  | None => uth_default_sync_destroy sync
  end.

Definition uth_semaphore_destroy
    (sync_destroy : option (uth_sync_t -> asserted uth_sync_t))
    (sem : uth_semaphore) : asserted uth_semaphore :=
  match __uth_sync_destroy sync_destroy (sem_sync_obj sem) with
  | Passed sync => Passed (set_sem_sync_obj sync sem)
  | AssertFailed => AssertFailed
  end.

Definition uth_mutex_destroy
    (sync_destroy : option (uth_sync_t -> asserted uth_sync_t))
    (mtx : uth_semaphore) : asserted uth_semaphore :=
  uth_semaphore_destroy sync_destroy mtx.

Definition uth_recurse_mutex_destroy
    (sync_destroy : option (uth_sync_t -> asserted uth_sync_t))
    (r_mtx : uth_recurse_mutex) : asserted uth_recurse_mutex :=
  match uth_semaphore_destroy sync_destroy (rmtx_mtx r_mtx) with
  | Passed mtx => Passed (set_rmtx_mtx mtx r_mtx)
  | AssertFailed => AssertFailed
  end.

Definition uth_cond_var_destroy
    (sync_destroy : option (uth_sync_t -> asserted uth_sync_t))
    (cv : uth_cond_var) : asserted uth_cond_var :=
  match __uth_sync_destroy sync_destroy (cv_sync_obj cv) with
  | Passed sync => Passed (set_cv_sync_obj sync cv)
  | AssertFailed => AssertFailed
  end.

Definition uth_rwlock_destroy
    (sync_destroy : option (uth_sync_t -> asserted uth_sync_t))
    (rwl : uth_rwlock) : asserted uth_rwlock :=
  match __uth_sync_destroy sync_destroy (rwl_readers rwl) with
  | Passed readers =>
      match __uth_sync_destroy sync_destroy (rwl_writers rwl) with
      | Passed writers =>
          Passed (set_rwl_writers writers (set_rwl_readers readers rwl))
      | AssertFailed => AssertFailed
      end
  | AssertFailed => AssertFailed
  end.

(** * Runs of calls, and what the properties are stated with *)

(** A semaphore that is all of the memory, at address "sem"; likewise a
    condition variable, a reader-writer lock and a recursive mutex. *)
Definition the_sem : ptr uth_semaphore uth_semaphore := self uth_semaphore "sem".
Definition the_cv : ptr uth_cond_var uth_cond_var := self uth_cond_var "cv".
Definition the_rwl : ptr uth_rwlock uth_rwlock := self uth_rwlock "rwl".
Definition the_rmtx : ptr uth_recurse_mutex uth_recurse_mutex :=
  self uth_recurse_mutex "r_mtx".

(** The semaphore as [parlib_run_once(&sem->once_ctl, __uth_semaphore_init,
    sem)] leaves it: unchanged when the once-control has run, else with a
    free lock and an initialized sync object. *)
Definition sem_ready (ops : schedule_ops) (s : uth_semaphore) : uth_semaphore :=
  if sem_once_ctl s then s
  else {| sem_once_ctl := true; sem_count := sem_count s; sem_lock := false;
          sem_sync_obj := __uth_sync_init ops (sem_sync_obj s) |}.

(** Modelled from the spec: the static initializer [UTH_SEMAPHORE_INIT(n)]
    (parlib/uthread.h is not part of the sources at hand): zero-filled but
    for the count, with the once-control unset. *)
Definition UTH_SEMAPHORE_INIT (n : Z) : uth_semaphore :=
  {| sem_once_ctl := false; sem_count := uint n; sem_lock := false;
     sem_sync_obj := [] |}.

(** A run that ends, in a memory with property [P]. *)
Definition ends_in {Mem A} (P : Mem -> Prop) (r : result (A * Mem * trace))
  : Prop :=
  match r with
  | Ok (_, m, _) => P m
  | Stuck _ => False
  end.

(** One call after the other, each run to its return or to its yield. *)
Fixpoint run_calls {Mem Call : Type} (step : Call -> prog Mem unit)
    (calls : list Call) : prog Mem unit :=
  match calls with
  | [] => ret tt
  | c :: rest => step c ;; run_calls step rest
  end.

(** What can happen to a semaphore: the calls of its interface, made by some
    uthread, the alarm of a timed down firing, and a uthread that had yielded
    in a down being restarted. *)
Inductive sem_call : Type :=
| SemDown (uth : uthread)
| SemTimedDown (uth : uthread) (abs_timeout : timespec)
| SemTryDown
| SemUp
| SemAlarmFires (uth : uthread)
| SemRestarted (blob : option (timeout_blob uth_semaphore)).

Definition sem_step (ops : schedule_ops) (c : sem_call)
  : prog uth_semaphore unit :=
  match c with
  | SemDown uth => uth_semaphore_down ops uth the_sem ;; ret tt
  | SemTimedDown uth abs =>
      uth_semaphore_timed_down ops uth the_sem (Some abs) ;; ret tt
  | SemTryDown => uth_semaphore_trydown ops the_sem ;; ret tt
  | SemUp => uth_semaphore_up ops the_sem
  | SemAlarmFires uth =>
      timeout_handler ops
        (set_timeout_blob uth (p_sem_sync_obj the_sem) (p_sem_lock the_sem)) ;;
      ret tt
  | SemRestarted blob => uth_semaphore_timed_down_restarted blob ;; ret tt
  end.

(** The semaphore between two calls: its spinlock is free, its count is an
    unsigned int, and a positive count goes with an empty wait queue. *)
Definition sem_inv (s : uth_semaphore) : Prop :=
  sem_lock s = false /\
  0 <= sem_count s <= UINT_MAX /\
  (0 < sem_count s -> sem_sync_obj s = []).

(** The condition variable as [parlib_run_once(&cv->once_ctl,
    __uth_cond_var_init, cv)] leaves it. *)
Definition cv_ready (ops : schedule_ops) (c : uth_cond_var) : uth_cond_var :=
  if cv_once_ctl c then c
  else {| cv_once_ctl := true; cv_lock := false;
          cv_sync_obj := __uth_sync_init ops (cv_sync_obj c) |}.

(** The uthreads that the calls of a trace ask the 2LS to make runnable, in
    the order of the calls. *)
Fixpoint woken (tr : trace) : list uthread :=
  match tr with
  | [] => []
  | EvRunnable uth :: rest => uth :: woken rest
  | EvBulkRunnable wakees :: rest => wakees ++ woken rest
  | _ :: rest => woken rest
  end.

(** Modelled from the spec: the static initializer [UTH_RWLOCK_INIT]
    (parlib/uthread.h is not part of the sources at hand): zero-filled, with
    the once-control unset. *)
Definition UTH_RWLOCK_INIT : uth_rwlock :=
  {| rwl_once_ctl := false; rwl_lock := false; rwl_nr_readers := 0;
     rwl_has_writer := false; rwl_readers := []; rwl_writers := [] |}.

(** The calls of the interface of a reader-writer lock; the blocking ones
    name the uthread that makes them. *)
Inductive rw_call : Type :=
| RwRdlock (uth : uthread)
| RwTryRdlock
| RwWrlock (uth : uthread)
| RwTryWrlock
| RwUnlock.

Definition rw_step (ops : schedule_ops) (fuel : nat) (c : rw_call)
  : prog uth_rwlock unit :=
  match c with
  | RwRdlock uth => uth_rwlock_rdlock ops uth the_rwl ;; ret tt
  | RwTryRdlock => uth_rwlock_try_rdlock ops the_rwl ;; ret tt
  | RwWrlock uth => uth_rwlock_wrlock ops uth the_rwl ;; ret tt
  | RwTryWrlock => uth_rwlock_try_wrlock ops the_rwl ;; ret tt
  | RwUnlock => uth_rwlock_unlock ops fuel the_rwl
  end.

(** The reader-writer lock between two calls: its spinlock is free, a writer
    excludes readers, and readers wait only while there is a writer. *)
Definition rw_inv (r : uth_rwlock) : Prop :=
  rwl_lock r = false /\
  (rwl_has_writer r = true -> rwl_nr_readers r = 0) /\
  (rwl_has_writer r = false -> rwl_readers r = []).

(** The three ways of locking a recursive mutex. *)
Inductive lock_kind : Type :=
| ByLock
| ByTrylock
| ByTimedLock (abs_timeout : timespec).

(** A lock call of some kind by [uth], up to its return or its yield;
    [uth_recurse_mutex_lock] returns nothing, which counts as TRUE. *)
Definition recurse_lock_call (ops : schedule_ops) (uth : uthread)
    (kind : lock_kind)
  : prog uth_recurse_mutex
      (blocking bool (option (timeout_blob uth_recurse_mutex))) :=
  match kind with
  | ByLock =>
      r <- uth_recurse_mutex_lock ops uth the_rmtx ;;
      ret (match r with
           | Returned _ => Returned true
           | Yielded frame => Yielded frame
           end)
  | ByTrylock =>
      b <- uth_recurse_mutex_trylock ops uth the_rmtx ;;
      ret (Returned b)
  | ByTimedLock abs => uth_recurse_mutex_timed_lock ops uth the_rmtx (Some abs)
  end.

(** Calls on a recursive mutex, all made by the same uthread. *)
Inductive rmtx_call : Type :=
| RLock (kind : lock_kind)
| RUnlock.

Definition rmtx_step (ops : schedule_ops) (uth : uthread) (c : rmtx_call)
  : prog uth_recurse_mutex unit :=
  match c with
  | RLock kind => recurse_lock_call ops uth kind ;; ret tt
  | RUnlock => uth_recurse_mutex_unlock ops the_rmtx
  end.

(** Where [j] unlocks leave a recursive mutex that the uthread [t] had
    locked [k] times, [r1] being the mutex as the first of these locks left
    it: short of [k] unlocks [t] is the lockholder with what is left of the
    count and the embedded mutex has not been touched; with the [k]-th there
    is no lockholder, the count is zero, and the embedded mutex has been
    released as [uth_semaphore_up] does. *)
Definition after_unlocks (ops : schedule_ops) (t : uthread) (k : Z) (j : nat)
    (r1 r' : uth_recurse_mutex) : Prop :=
  (Z.of_nat j < k ->
   rmtx_lockholder r' = Some t /\ rmtx_count r' = k - Z.of_nat j /\
   rmtx_mtx r' = rmtx_mtx r1) /\
  (Z.of_nat j = k ->
   rmtx_lockholder r' = None /\ rmtx_count r' = 0 /\
   exists tr',
     uth_semaphore_up ops the_sem (rmtx_mtx r1) = Ok (tt, rmtx_mtx r', tr')).

(** The blob of a timed call at its restart: the one of the frame, with the
    flag set if the alarm handler has set it in between. *)
Definition blob_at_restart {Mem} (frame blob : option (timeout_blob Mem))
  : Prop :=
  blob = frame \/
  exists b, frame = Some b /\
            blob = Some {| timed_out := true; uth := uth b;
                           sync_ptr := sync_ptr b; lock_ptr := lock_ptr b |}.

(** A memory with one condition variable and the mutex its waiters hold. *)
Record cv_mtx : Type := { m_cv : uth_cond_var; m_mtx : uth_semaphore }.

Definition cvm_cv : ptr cv_mtx uth_cond_var :=
  {| addr_of := "cv"; load_of := m_cv;
     store_of := fun v m => {| m_cv := v; m_mtx := m_mtx m |} |}.
Definition cvm_mtx : ptr cv_mtx uth_semaphore :=
  {| addr_of := "mtx"; load_of := m_mtx;
     store_of := fun v m => {| m_cv := m_cv m; m_mtx := v |} |}.

(** The mutex as [parlib_run_once(&mtx->once_ctl, __uth_mutex_init, mtx)]
    leaves it. *)
Definition mtx_ready (ops : schedule_ops) (s : uth_semaphore) : uth_semaphore :=
  if sem_once_ctl s then s
  else {| sem_once_ctl := true; sem_count := 1; sem_lock := false;
          sem_sync_obj := __uth_sync_init ops (sem_sync_obj s) |}.

(** The flag of the blob of a wait, FALSE for a wait without a timeout. *)
Definition blob_timed_out {Mem} (blob : option (timeout_blob Mem)) : bool :=
  match blob with
  | Some b => timed_out b
  | None => false
  end.

(** What [uth_cond_var_timed_wait] returns or is going to return. *)
Definition wait_result {K : Type} (out : blocking bool (bool * K)) : bool :=
  match out with
  | Returned ret_ => ret_
  | Yielded frame => fst frame
  end.

(** How a waiter came off the wait queue of the condition variable. *)
Inductive wake_cause : Type :=
| BySignal
| ByBroadcast
| ByTimeout.

(** What can happen around a uthread that waits on a condition variable,
    from the moment its yield callback has released the spinlock of the
    condition variable: a signal, a broadcast, the alarm of its own wait
    firing, another uthread getting on the wait queue, the alarm of the wait
    of another uthread firing, another uthread locking the mutex, and an
    [uth_mutex_unlock] of the mutex, be it by a holder, by the yield callback
    of another waiter, or by the yield callback of the waiter itself, which
    runs it at some point after having released the spinlock. *)
Inductive cv_event : Type :=
| CvSignal
| CvBroadcast
| CvAlarmFires
| CvOtherWait (u : uthread) (abs_timeout : option timespec)
| CvOtherAlarmFires (u : uthread)
| CvMutexLock (u : uthread)
| CvMutexUnlock.

(** The waiter: the memory, the blob on its stack when its wait is timed,
    and how it came off the wait queue if it has. *)
Record waiter : Type := {
  w_mem : cv_mtx;
  w_blob : option (timeout_blob cv_mtx);
  w_cause : option wake_cause
}.

Definition queued (t : uthread) (m : cv_mtx) : bool :=
  existsb (Nat.eqb t) (cv_sync_obj (m_cv m)).

(** The cause is recorded at the event after which the waiter is no longer
    in the queue. *)
Definition cause_after (t : uthread) (by_ : wake_cause)
    (before after : cv_mtx) (cause : option wake_cause) : option wake_cause :=
  match cause with
  | Some c => Some c
  | None => if queued t before && negb (queued t after) then Some by_ else None
  end.

Definition cv_env_step (ops : schedule_ops) (fuel : nat) (t : uthread)
    (e : cv_event) (w : waiter) : result waiter :=
  match e with
  | CvSignal =>
      match uth_cond_var_signal ops cvm_cv (w_mem w) with
      | Ok (_, m', _) =>
          Ok {| w_mem := m'; w_blob := w_blob w;
                w_cause := cause_after t BySignal (w_mem w) m' (w_cause w) |}
      | Stuck why => Stuck why
      end
  | CvBroadcast =>
      match uth_cond_var_broadcast ops fuel cvm_cv (w_mem w) with
      | Ok (_, m', _) =>
          Ok {| w_mem := m'; w_blob := w_blob w;
                w_cause := cause_after t ByBroadcast (w_mem w) m' (w_cause w) |}
      | Stuck why => Stuck why
      end
  | CvAlarmFires =>
      match w_blob w with
      | Some blob =>
          match timeout_handler ops blob (w_mem w) with
          | Ok (blob', m', _) =>
              Ok {| w_mem := m'; w_blob := Some blob';
                    w_cause := cause_after t ByTimeout (w_mem w) m' (w_cause w) |}
          | Stuck why => Stuck why
          end
      | None => Ok w
      end
  | CvOtherWait u abs_timeout =>
      match uth_cond_var_timed_wait_enqueued ops u cvm_cv cvm_mtx abs_timeout
              (w_mem w) with
      | Ok (_, m', _) =>
          Ok {| w_mem := m'; w_blob := w_blob w; w_cause := w_cause w |}
      | Stuck why => Stuck why
      end
  | CvOtherAlarmFires u =>
      match timeout_handler ops
              (set_timeout_blob u (p_cv_sync_obj cvm_cv) (p_cv_lock cvm_cv))
              (w_mem w) with
      | Ok (_, m', _) =>
          Ok {| w_mem := m'; w_blob := w_blob w; w_cause := w_cause w |}
      | Stuck why => Stuck why
      end
  | CvMutexLock u =>
      match uth_mutex_lock ops u cvm_mtx (w_mem w) with
      | Ok (_, m', _) =>
          Ok {| w_mem := m'; w_blob := w_blob w; w_cause := w_cause w |}
      | Stuck why => Stuck why
      end
  | CvMutexUnlock =>
      match uth_mutex_unlock ops cvm_mtx (w_mem w) with
      | Ok (_, m', _) =>
          Ok {| w_mem := m'; w_blob := w_blob w; w_cause := w_cause w |}
      | Stuck why => Stuck why
      end
  end.

(** A run of such events.  It is started on the memory that the waiter's
    yield callback leaves when it releases the spinlock of the condition
    variable, with the mutex not yet released: the events that come before
    the [CvMutexUnlock] of the callback are those of the window between
    its [spin_pdr_unlock(&cv->lock)] and its [uth_mutex_unlock(mtx)]. *)
Fixpoint cv_env_run (ops : schedule_ops) (fuel : nat) (t : uthread)
    (events : list cv_event) (w : waiter) : result waiter :=
  match events with
  | [] => Ok w
  | e :: rest =>
      match cv_env_step ops fuel t e w with
      | Ok w' => cv_env_run ops fuel t rest w'
      | Stuck why => Stuck why
      end
  end.

(** The events of other uthreads are not the waiter's. *)
Definition of_others (t : uthread) (e : cv_event) : Prop :=
  match e with
  | CvOtherWait u _ => u <> t
  | CvOtherAlarmFires u => u <> t
  | CvMutexLock u => u <> t
  | _ => True
  end.

(** The blob of a timed wait of [t] on the condition variable. *)
Definition wait_blob (t : uthread) (flag : bool) : timeout_blob cv_mtx :=
  {| timed_out := flag; uth := t; sync_ptr := p_cv_sync_obj cvm_cv;
     lock_ptr := p_cv_lock cvm_cv |}.

(** Between two events: both primitives are initialized with free
    spinlocks, the blob is the waiter's, and the waiter is either in the
    queue, once, with the flag of its blob unset, or out of the queue with
    the flag set exactly when the alarm handler took it out. *)
Definition waiter_inv (t : uthread) (w : waiter) : Prop :=
  cv_once_ctl (m_cv (w_mem w)) = true /\
  cv_lock (m_cv (w_mem w)) = false /\
  sem_once_ctl (m_mtx (w_mem w)) = true /\
  sem_lock (m_mtx (w_mem w)) = false /\
  (w_blob w = None \/
   w_blob w = Some (wait_blob t (blob_timed_out (w_blob w)))) /\
  match w_cause w with
  | None =>
      count_occ Nat.eq_dec (cv_sync_obj (m_cv (w_mem w))) t = 1%nat /\
      blob_timed_out (w_blob w) = false
  | Some ByTimeout =>
      ~ In t (cv_sync_obj (m_cv (w_mem w))) /\
      blob_timed_out (w_blob w) = true
  | Some _ =>
      ~ In t (cv_sync_obj (m_cv (w_mem w))) /\
      blob_timed_out (w_blob w) = false
  end.

(** ** For the further properties *)

(** [__uth_sync_enqueue] called for each uthread of a list, in order. *)
Definition enqueue_all (ops : schedule_ops) (uths : list uthread)
    (sync : uth_sync_t) : uth_sync_t :=
  fold_left (fun sync uth => __uth_sync_enqueue ops uth sync) uths sync.

(** [uth_cond_var_signal] called a number of times. *)
Definition signals (ops : schedule_ops) (n : nat) : prog uth_cond_var unit :=
  run_calls (fun _ : unit => uth_cond_var_signal ops the_cv) (repeat tt n).

(** The blob of a timed down of [t] on the semaphore. *)
Definition down_blob (t : uthread) (flag : bool) : timeout_blob uth_semaphore :=
  {| timed_out := flag; uth := t; sync_ptr := p_sem_sync_obj the_sem;
     lock_ptr := p_sem_lock the_sem |}.

(** A mutex and the uthread that holds it, if any.  The holder is not a
    field of the struct: it is the uthread whose lock call was the last to
    return TRUE or to be handed the mutex by an unlock. *)
Record mutex_sys : Type := {
  ms_mtx : uth_semaphore;
  ms_holder : option uthread
}.

(** The calls on a mutex; the alarm of a timed lock firing is one more
    event.  Only the holder unlocks: with no holder, no unlock is made. *)
Inductive mutex_call : Type :=
| MtxLock (uth : uthread)
| MtxTimedLock (uth : uthread) (abs_timeout : timespec)
| MtxTrylock (uth : uthread)
| MtxUnlock
| MtxAlarmFires (uth : uthread).

Definition mutex_step (ops : schedule_ops) (c : mutex_call)
  : prog mutex_sys unit :=
  fun sys =>
    match c with
    | MtxLock uth =>
        match uth_mutex_lock ops uth the_sem (ms_mtx sys) with
        | Ok (Returned _, mtx, tr) =>
            Ok (tt, {| ms_mtx := mtx; ms_holder := Some uth |}, tr)
        | Ok (Yielded _, mtx, tr) =>
            Ok (tt, {| ms_mtx := mtx; ms_holder := ms_holder sys |}, tr)
        | Stuck why => Stuck why
        end
    | MtxTimedLock uth abs =>
        match uth_mutex_timed_lock ops uth the_sem (Some abs) (ms_mtx sys) with
        | Ok (Returned true, mtx, tr) =>
            Ok (tt, {| ms_mtx := mtx; ms_holder := Some uth |}, tr)
        | Ok (_, mtx, tr) =>
            Ok (tt, {| ms_mtx := mtx; ms_holder := ms_holder sys |}, tr)
        | Stuck why => Stuck why
        end
    | MtxTrylock uth =>
        match uth_mutex_trylock ops the_sem (ms_mtx sys) with
        | Ok (true, mtx, tr) =>
            Ok (tt, {| ms_mtx := mtx; ms_holder := Some uth |}, tr)
        | Ok (false, mtx, tr) =>
            Ok (tt, {| ms_mtx := mtx; ms_holder := ms_holder sys |}, tr)
        | Stuck why => Stuck why
        end
    | MtxUnlock =>
        match ms_holder sys with
        | None => Ok (tt, sys, [])
        | Some _ =>
            match uth_mutex_unlock ops the_sem (ms_mtx sys) with
            | Ok (_, mtx, tr) =>
                Ok (tt, {| ms_mtx := mtx; ms_holder := hd_error (woken tr) |},
                    tr)
            | Stuck why => Stuck why
            end
        end
    | MtxAlarmFires uth =>
        match timeout_handler ops (down_blob uth false) (ms_mtx sys) with
        | Ok (_, mtx, tr) =>
            Ok (tt, {| ms_mtx := mtx; ms_holder := ms_holder sys |}, tr)
        | Stuck why => Stuck why
        end
    end.

(** The mutex between two calls: initialized, its spinlock free, its count 1
    with nobody waiting when nobody holds it, and 0 when somebody does. *)
Definition mutex_inv (sys : mutex_sys) : Prop :=
  sem_once_ctl (ms_mtx sys) = true /\
  sem_lock (ms_mtx sys) = false /\
  match ms_holder sys with
  | None => sem_count (ms_mtx sys) = 1 /\ sem_sync_obj (ms_mtx sys) = []
  | Some _ => sem_count (ms_mtx sys) = 0
  end.

(** A memory with one condition variable and the recursive mutex its waiters
    hold. *)
Record cv_rmtx : Type := { cr_cv : uth_cond_var; cr_rmtx : uth_recurse_mutex }.

Definition crm_cv : ptr cv_rmtx uth_cond_var :=
  {| addr_of := "cv"; load_of := cr_cv;
     store_of := fun v m => {| cr_cv := v; cr_rmtx := cr_rmtx m |} |}.
Definition crm_rmtx : ptr cv_rmtx uth_recurse_mutex :=
  {| addr_of := "r_mtx"; load_of := cr_rmtx;
     store_of := fun v m => {| cr_cv := cr_cv m; cr_rmtx := v |} |}.

(** * Symbolic execution *)

Arguments uint : simpl never.

(** Unfolds the monad, the pointers and the programs, leaving the arithmetic,
    the tests of the code and the calls to the sync object in place. *)
Ltac unfold_code :=
  cbv [bind ret emit get_stuck when load store call update
       under load_under store_under call_under update_under
       spin_pdr_init spin_pdr_lock spin_pdr_unlock
       parlib_run_once parlib_set_ran_once assert_can_block
       uthread_has_blocked uthread_runnable uthread_yield
       self field load_of store_of addr_of String.append
       p_sem_once_ctl p_sem_count p_sem_lock p_sem_sync_obj
       sem_once_ctl sem_count sem_lock sem_sync_obj
       set_sem_once_ctl set_sem_count set_sem_lock set_sem_sync_obj
       p_rmtx_once_ctl p_rmtx_mtx p_rmtx_lockholder p_rmtx_count
       rmtx_once_ctl rmtx_mtx rmtx_lockholder rmtx_count
       set_rmtx_once_ctl set_rmtx_mtx set_rmtx_lockholder set_rmtx_count
       p_cv_once_ctl p_cv_lock p_cv_sync_obj
       cv_once_ctl cv_lock cv_sync_obj
       set_cv_once_ctl set_cv_lock set_cv_sync_obj
       p_rwl_once_ctl p_rwl_lock p_rwl_nr_readers p_rwl_has_writer
       p_rwl_readers p_rwl_writers
       rwl_once_ctl rwl_lock rwl_nr_readers rwl_has_writer rwl_readers
       rwl_writers
       set_rwl_once_ctl set_rwl_lock set_rwl_nr_readers set_rwl_has_writer
       set_rwl_readers set_rwl_writers
       timed_out uth sync_ptr lock_ptr
       timeout_handler set_timeout_blob set_timeout_alarm unset_alarm
       __uth_semaphore_init uth_semaphore_init __semaphore_cb
       uth_semaphore_timed_down uth_semaphore_timed_down_restarted
       uth_semaphore_down uth_semaphore_down_restarted
       uth_semaphore_trydown uth_semaphore_up
       __uth_mutex_init uth_mutex_init uth_mutex_timed_lock
       uth_mutex_timed_lock_restarted uth_mutex_lock
       uth_mutex_lock_restarted uth_mutex_trylock uth_mutex_unlock
       __uth_recurse_mutex_init uth_recurse_mutex_init is_current_uthread
       uth_recurse_mutex_timed_lock_tail uth_recurse_mutex_timed_lock
       uth_recurse_mutex_timed_lock_restarted uth_recurse_mutex_lock
       uth_recurse_mutex_lock_restarted uth_recurse_mutex_trylock
       uth_recurse_mutex_unlock
       __uth_cond_var_init uth_cond_var_init link_cv link_mtx __cv_wait_cb
       uth_cond_var_timed_wait uth_cond_var_timed_wait_restarted
       uth_cond_var_timed_wait_relocked uth_cond_var_signal
       uth_cond_var_broadcast
       __uth_rwlock_init uth_rwlock_init __rwlock_rd_cb uth_rwlock_rdlock
       uth_rwlock_try_rdlock __rwlock_wr_cb uth_rwlock_wrlock
       uth_rwlock_try_wrlock __rw_unlock_writer __rw_unlock_reader
       uth_rwlock_unlock
       the_sem the_cv the_rwl the_rmtx sem_step rw_step
       recurse_lock_call rmtx_step cvm_cv cvm_mtx m_cv m_mtx];
  cbn [app fst snd].

(** The same, and the sync object of a 2LS whose hooks are given. *)
Ltac unfold_prog :=
  unfold_code;
  cbv [generic_2ls sync_init sync_enqueue sync_get_next
       sync_get_uth sync_swap sync_is_empty thread_bulk_runnable
       __uth_sync_init __uth_sync_enqueue __uth_sync_get_next
       __uth_sync_get_uth __uth_sync_swap __uth_sync_is_empty
       __uth_sync_wake_all
       uth_default_sync_init uth_default_sync_enqueue
       uth_default_sync_get_next uth_default_sync_swap
       uth_default_sync_is_empty];
  cbn [app fst snd].

(** The same for the rest of the interface. *)
Ltac unfold_rest :=
  cbv [uth_cond_var_timed_wait_recurse uth_cond_var_timed_wait_recurse_tail
       uth_cond_var_timed_wait_recurse_restarted
       uth_cond_var_timed_wait_recurse_relocked
       crm_cv crm_rmtx cr_cv cr_rmtx];
  unfold_code.

(** Runs a call through every case of its tests, to show that no run stops
    for a given reason. *)
Ltac no_race :=
  unfold_code;
  repeat match goal with
         | |- context [if ?b then _ else _] => destruct b; unfold_code
         | |- context [match ?o with Some _ => _ | None => _ end] =>
             destruct o; unfold_code
         | |- context [let (_, _) := ?p in _] => destruct p; unfold_code
         end;
  try discriminate.

Ltac ulia := unfold UINT_MAX in *; lia.
Ltac nlia := unfold uthread, uth_sync_t, uth_tailq in *; lia.

Lemma uint_small (z : Z) : 0 <= z <= UINT_MAX -> uint z = z.
Proof. unfold uint, UINT_MAX. intros. apply Z.mod_small. lia. Qed.

Lemma uint_range (z : Z) : 0 <= uint z <= UINT_MAX.
Proof.
  unfold uint, UINT_MAX.
  pose proof (Z.mod_pos_bound z (2 ^ 32) ltac:(lia)). lia.
Qed.

(** * Properties *)

(** ** Accesses under a spinlock *)

(** An access under a lock that is free does not read or write: the run
    stops there.  So a run that ends has made each such access with the lock
    held, that is between the [spin_pdr_lock] and the [spin_pdr_unlock] that
    its trace shows. *)
Lemma under_free_lock {Mem A} (l : ptr Mem spin_pdr_lock_t) (a : addr)
    (access : prog Mem A) (m : Mem) :
  load_of l m = false -> under l a access m = Stuck (Racing a).
Proof. intros E. unfold under, bind, load, get_stuck. rewrite E. reflexivity. Qed.

Lemma under_held_lock {Mem A} (l : ptr Mem spin_pdr_lock_t) (a : addr)
    (access : prog Mem A) (m : Mem) :
  load_of l m = true -> under l a access m = access m.
Proof.
  intros E. unfold under, bind, load. rewrite E.
  destruct (access m) as [[[x m'] tr]|w]; reflexivity.
Qed.



Lemma up_no_race ops (s : uth_semaphore) (a : addr) :
  uth_semaphore_up ops the_sem s <> Stuck (Racing a).
Proof. destruct s as [once c l q]. destruct once, l; no_race. Qed.

Lemma timed_down_no_race ops (t : uthread) (abs_timeout : option timespec)
    (s : uth_semaphore) (a : addr) :
  uth_semaphore_timed_down ops t the_sem abs_timeout s <> Stuck (Racing a).
Proof.
  destruct s as [once c l q]. destruct once, l, abs_timeout; no_race.
Qed.

Lemma handler_no_race ops {Mem : Type} (blob : timeout_blob Mem) (m : Mem)
    (a : addr) :
  ptr_ok (lock_ptr blob) -> timeout_handler ops blob m <> Stuck (Racing a).
Proof.
  destruct blob as [flag t sp lp]; cbn [lock_ptr]. intros [Lls _ _].
  unfold timeout_handler, spin_pdr_lock, spin_pdr_unlock, call_under, under,
    call, load, store, bind, emit, when, uthread_runnable, ret, get_stuck.
  cbn [timed_out uth sync_ptr lock_ptr].
  destruct (load_of lp m); [discriminate|]. rewrite Lls.
  destruct (__uth_sync_get_uth ops _ t) as [[|] rest];
    cbn [timed_out]; [discriminate|].
  destruct flag; discriminate.
Qed.


Lemma timed_wait_no_race ops (t : uthread) (abs_timeout : option timespec)
    (m : cv_mtx) (a : addr) :
  uth_cond_var_timed_wait ops t cvm_cv cvm_mtx abs_timeout m
  <> Stuck (Racing a) /\
  uth_cond_var_timed_wait_enqueued ops t cvm_cv cvm_mtx abs_timeout m
  <> Stuck (Racing a).
Proof.
  destruct m as [[conce cl cq] [sonce sc sl sq]].
  unfold uth_cond_var_timed_wait_enqueued, __cv_wait_cb_enqueued.
  split; destruct conce, cl, sonce, sl, abs_timeout; no_race.
Qed.

(** ** Semaphores *)

Lemma run_once_sem ops (s : uth_semaphore) :
  parlib_run_once (p_sem_once_ctl the_sem) (__uth_semaphore_init ops the_sem) s
  = Ok (tt, sem_ready ops s, []).
Proof.
  unfold sem_ready, parlib_run_once, bind, load. cbn.
  destruct s as [once c l q]; cbn. destruct once; reflexivity.
Qed.

(** C1. [uth_semaphore_up] on a semaphore whose spinlock is free takes the
    spinlock, pops the next uthread of the wait queue and, when there was
    none, increments the count, and releases the spinlock.  The pop and the
    increment are accesses under the spinlock, which do not go through
    unless it is held: the call ending as stated, they were made between
    the lock and the unlock of its trace, and in no state at all does the
    call stop on an access made without the spinlock.  When a uthread was
    popped the count is left as it was and the uthread is made runnable
    after the spinlock has been released; when none was, the count is
    incremented by one (as an unsigned int) and no uthread is made
    runnable. *)
Theorem uth_semaphore_up_hands_off_or_counts ops (s : uth_semaphore) :
  sem_lock (sem_ready ops s) = false ->
  let s0 := sem_ready ops s in
  let popped := fst (__uth_sync_get_next ops (sem_sync_obj s0)) in
  let rest := snd (__uth_sync_get_next ops (sem_sync_obj s0)) in
  exists s' tr,
    uth_semaphore_up ops the_sem s = Ok (tt, s', tr) /\
    sem_sync_obj s' = rest /\
    sem_lock s' = false /\
    match popped with
    | Some uth =>
        sem_count s' = sem_count s /\
        tr = [EvSpinLock "sem.lock"; EvSpinUnlock "sem.lock"; EvRunnable uth]
    | None =>
        sem_count s' = uint (sem_count s + 1) /\
        tr = [EvSpinLock "sem.lock"; EvSpinUnlock "sem.lock"]
    end /\
    forall (any : uth_semaphore) (a : addr),
      uth_semaphore_up ops the_sem any <> Stuck (Racing a).
Proof.
  intros Hfree. cbv zeta.
  pose proof (up_no_race ops) as Hrace.
  assert (Hc : sem_count (sem_ready ops s) = sem_count s).
  { unfold sem_ready. destruct (sem_once_ctl s); reflexivity. }
  unfold uth_semaphore_up.
  unfold bind at 1. rewrite run_once_sem.
  destruct (sem_ready ops s) as [once c l q]; cbn in Hfree, Hc |- *. subst l c.
  unfold bind, spin_pdr_lock, call, update, load, store; cbn.
  destruct (__uth_sync_get_next ops q) as [[u|] q']; cbn;
    eexists; eexists; repeat split; try reflexivity; apply Hrace.
Qed.

Lemma uth_semaphore_up_hands_off_or_counts_witness :
  exists s' tr,
    uth_semaphore_up (generic_2ls None) the_sem
      {| sem_once_ctl := true; sem_count := 0; sem_lock := false;
         sem_sync_obj := [7%nat; 9%nat] |} = Ok (tt, s', tr) /\
    sem_sync_obj s' = [9%nat] /\
    sem_lock s' = false /\
    sem_count s' = 0 /\
    tr = [EvSpinLock "sem.lock"; EvSpinUnlock "sem.lock"; EvRunnable 7%nat].
Proof.
  destruct (uth_semaphore_up_hands_off_or_counts (generic_2ls None)
              {| sem_once_ctl := true; sem_count := 0; sem_lock := false;
                 sem_sync_obj := [7%nat; 9%nat] |} eq_refl)
    as (s' & tr & E & Hq & Hl & (Hc & Htr) & _).
  exists s', tr. repeat split; assumption.
Defined.

(** ** Failed try operations *)

(** C9. On an initialized primitive whose spinlock is free, each of
    [uth_semaphore_trydown], [uth_rwlock_try_rdlock] and
    [uth_rwlock_try_wrlock] returns; it returns the value of the test it
    makes, and when that is FALSE the primitive is exactly as it was before
    the call. *)
Theorem failed_try_changes_nothing ops :
  (forall s : uth_semaphore,
      sem_once_ctl s = true -> sem_lock s = false ->
      exists b s' tr,
        uth_semaphore_trydown ops the_sem s = Ok (b, s', tr) /\
        b = (0 <? sem_count s) /\
        (b = false -> s' = s)) /\
  (forall r : uth_rwlock,
      rwl_once_ctl r = true -> rwl_lock r = false ->
      exists b r' tr,
        uth_rwlock_try_rdlock ops the_rwl r = Ok (b, r', tr) /\
        b = negb (rwl_has_writer r) /\
        (b = false -> r' = r)) /\
  (forall r : uth_rwlock,
      rwl_once_ctl r = true -> rwl_lock r = false ->
      exists b r' tr,
        uth_rwlock_try_wrlock ops the_rwl r = Ok (b, r', tr) /\
        b = (negb (rwl_has_writer r) && (rwl_nr_readers r =? 0)) /\
        (b = false -> r' = r)).
Proof.
  split; [|split].
  - intros [once c l q] Honce Hlock; cbn in Honce, Hlock; subst.
    unfold the_sem; unfold_prog.
    destruct (0 <? c); unfold_prog; do 3 eexists;
      (split; [reflexivity|split; [reflexivity|]]); intros E;
      [discriminate E|reflexivity].
  - intros [once l n w rq wq] Honce Hlock; cbn in Honce, Hlock; subst.
    unfold the_rwl; unfold_prog.
    destruct w; unfold_prog; do 3 eexists;
      (split; [reflexivity|split; [reflexivity|]]); intros E;
      [reflexivity|discriminate E].
  - intros [once l n w rq wq] Honce Hlock; cbn in Honce, Hlock; subst.
    unfold the_rwl; unfold_prog.
    destruct (negb w && (n =? 0)); unfold_prog; do 3 eexists;
      (split; [reflexivity|split; [reflexivity|]]); intros E;
      [discriminate E|reflexivity].
Qed.

Lemma failed_try_changes_nothing_witness :
  (exists b s' tr,
      uth_semaphore_trydown (generic_2ls None) the_sem
        {| sem_once_ctl := true; sem_count := 0; sem_lock := false;
           sem_sync_obj := [4%nat] |} = Ok (b, s', tr) /\
      b = (0 <? 0) /\
      (b = false ->
       s' = {| sem_once_ctl := true; sem_count := 0; sem_lock := false;
               sem_sync_obj := [4%nat] |})) /\
  (exists b r' tr,
      uth_rwlock_try_wrlock (generic_2ls None) the_rwl
        {| rwl_once_ctl := true; rwl_lock := false; rwl_nr_readers := 2;
           rwl_has_writer := false; rwl_readers := [];
           rwl_writers := [5%nat] |} = Ok (b, r', tr) /\
      b = (negb false && (2 =? 0)) /\
      (b = false ->
       r' = {| rwl_once_ctl := true; rwl_lock := false; rwl_nr_readers := 2;
               rwl_has_writer := false; rwl_readers := [];
               rwl_writers := [5%nat] |})).
Proof.
  split.
  - apply (proj1 (failed_try_changes_nothing (generic_2ls None))
             {| sem_once_ctl := true; sem_count := 0; sem_lock := false;
                sem_sync_obj := [4%nat] |}); reflexivity.
  - apply (proj2 (proj2 (failed_try_changes_nothing (generic_2ls None)))
             {| rwl_once_ctl := true; rwl_lock := false; rwl_nr_readers := 2;
                rwl_has_writer := false; rwl_readers := [];
                rwl_writers := [5%nat] |}); reflexivity.
Defined.

(** ** The semaphore invariant *)

Lemma get_uth_nil (uth : uthread) :
  uth_default_sync_get_uth [] uth = (false, []).
Proof. reflexivity. Qed.

Lemma ends_in_ok {Mem} (P : Mem -> Prop) (r : result (unit * Mem * trace)) :
  ends_in P r -> exists m tr, r = Ok (tt, m, tr) /\ P m.
Proof.
  destruct r as [[[[] m] tr]|w]; cbn; [eauto|tauto].
Qed.

Lemma sem_step_inv bulk (c : sem_call) (s : uth_semaphore) :
  sem_inv s ->
  exists s' tr,
    sem_step (generic_2ls bulk) c s = Ok (tt, s', tr) /\ sem_inv s'.
Proof.
  intros (Hlock & Hrange & Hq). apply ends_in_ok.
  destruct s as [once cnt l q]; cbn in Hlock, Hrange, Hq; subst l.
  pose proof (uint_range (cnt - 1)) as Hdec.
  pose proof (uint_range (cnt + 1)) as Hinc.
  assert (Hdec' : 0 < cnt -> uint (cnt - 1) = cnt - 1)
    by (intros; apply uint_small; unfold UINT_MAX in *; lia).
  unfold UINT_MAX in *.
  destruct c as [t|t abs| | |t|blob]; destruct once; unfold_prog.
  all: try (destruct (0 <? cnt) eqn:Hpos;
            [apply Z.ltb_lt in Hpos|apply Z.ltb_ge in Hpos]; unfold_prog).
  all: try (destruct blob as [blob|]; unfold_prog).
  all: try (cbn; unfold sem_inv; cbn; repeat split; try lia; intros;
            try lia; auto; fail).
  all: try (destruct q as [|h q]; unfold_prog;
            cbn; unfold sem_inv; cbn; repeat split; try lia; intros;
            try lia; auto;
            try (specialize (Hq ltac:(lia)); discriminate Hq); fail).
  all: destruct (uth_default_sync_get_uth q t) as [[|] q']; unfold_prog;
    cbn; unfold sem_inv; cbn; repeat split; try lia; intros; lia.
Qed.

(** C2. A semaphore set up by [uth_semaphore_init] or by the static
    initializer satisfies the invariant, and from a semaphore that satisfies
    it every sequence of down, timed down, trydown and up calls, of alarms of
    timed downs firing and of restarted waiters runs to its end and leaves a
    semaphore that satisfies it: the count is never negative, and a positive
    count goes with an empty wait queue. *)
Theorem sem_invariant bulk :
  (forall (garbage : uth_semaphore) (count : Z),
      ends_in sem_inv
        (uth_semaphore_init (generic_2ls bulk) the_sem count garbage)) /\
  (forall count : Z, sem_inv (UTH_SEMAPHORE_INIT count)) /\
  (forall (calls : list sem_call) (s : uth_semaphore),
      sem_inv s ->
      exists s' tr,
        run_calls (sem_step (generic_2ls bulk)) calls s = Ok (tt, s', tr) /\
        sem_inv s' /\
        0 <= sem_count s' /\
        (0 < sem_count s' -> sem_sync_obj s' = [])).
Proof.
  split; [|split].
  - intros [once cnt l q] count. unfold_prog. cbn. unfold sem_inv; cbn.
    repeat split; apply uint_range.
  - intros count. unfold sem_inv, UTH_SEMAPHORE_INIT; cbn.
    repeat split; try apply uint_range.
  - induction calls as [|c calls IH]; intros s Hinv.
    + exists s, []. repeat split; try apply Hinv. 
    + destruct (sem_step_inv bulk c Hinv) as (s1 & tr1 & E1 & Hinv1).
      destruct (IH s1 Hinv1) as (s2 & tr2 & E2 & Hinv2 & Hrest).
      exists s2, (tr1 ++ tr2). split; [|tauto].
      cbn [run_calls]. unfold bind. rewrite E1, E2. reflexivity.
Qed.

Lemma sem_invariant_witness :
  exists s' tr,
    run_calls (sem_step (generic_2ls None))
      [SemTimedDown 1%nat (Timespec 5 0); SemDown 2%nat; SemUp;
       SemAlarmFires 1%nat; SemUp; SemUp]
      (UTH_SEMAPHORE_INIT 0) = Ok (tt, s', tr) /\
    sem_inv s' /\
    0 <= sem_count s' /\
    (0 < sem_count s' -> sem_sync_obj s' = []).
Proof.
  apply (proj2 (proj2 (sem_invariant None))).
  apply (proj1 (proj2 (sem_invariant None))).
Defined.

(** ** Condition variables: signal and broadcast *)


(** C10. [uth_cond_var_signal] on an initialized condition variable whose
    spinlock is free and whose wait queue is empty returns, leaves the
    condition variable (spinlock, wait queue, once-control) as it was, and
    makes no uthread runnable. *)
Theorem signal_on_empty_is_noop bulk (c : uth_cond_var) :
  cv_once_ctl c = true -> cv_lock c = false -> cv_sync_obj c = [] ->
  exists tr,
    uth_cond_var_signal (generic_2ls bulk) the_cv c = Ok (tt, c, tr) /\
    woken tr = [] /\
    tr = [EvSpinLock "cv.lock"; EvSpinUnlock "cv.lock"].
Proof.
  destruct c as [once l q]; cbn; intros -> -> ->.
  unfold_prog. eexists; repeat split.
Qed.

Lemma signal_on_empty_is_noop_witness :
  exists tr,
    uth_cond_var_signal (generic_2ls None) the_cv
      {| cv_once_ctl := true; cv_lock := false; cv_sync_obj := [] |}
    = Ok (tt, {| cv_once_ctl := true; cv_lock := false; cv_sync_obj := [] |},
          tr) /\
    woken tr = [] /\
    tr = [EvSpinLock "cv.lock"; EvSpinUnlock "cv.lock"].
Proof.
  apply (@signal_on_empty_is_noop None
           {| cv_once_ctl := true; cv_lock := false; cv_sync_obj := [] |});
    reflexivity.
Defined.

Lemma wake_each_default {Mem : Type} (bulk : option (uth_sync_t -> unit))
    (wakees : uth_sync_t) :
  forall (fuel : nat) (m : Mem),
    (List.length wakees < fuel)%nat ->
    wake_each (generic_2ls bulk) fuel wakees m
    = Ok (tt, m, map EvRunnable wakees).
Proof.
  induction wakees as [|w wakees IH]; intros [|fuel] m Hfuel;
    try (cbn in Hfuel; lia).
  - reflexivity.
  - cbn [wake_each]. unfold_prog. rewrite IH by (cbn in Hfuel; lia).
    reflexivity.
Qed.

Lemma woken_runnable (l : list uthread) : woken (map EvRunnable l) = l.
Proof. induction l as [|x l IH]; cbn; [|rewrite IH]; reflexivity. Qed.



(** ** The timeout alarm handler *)

Lemma default_get_uth_found (sync : uth_sync_t) (uth : uthread) :
  fst (uth_default_sync_get_uth sync uth) = true <-> In uth sync.
Proof.
  induction sync as [|i rest IH]; cbn.
  - split; [discriminate|tauto].
  - destruct (Nat.eqb_spec i uth) as [->|Hne]; cbn.
    + tauto.
    + destruct (uth_default_sync_get_uth rest uth) as [found rest'].
      cbn in *. rewrite IH. split; [tauto|]. intros [E|H]; [contradiction|exact H].
Qed.

Lemma default_get_uth_rest (sync : uth_sync_t) (uth : uthread) :
  In uth sync ->
  exists before after,
    sync = before ++ uth :: after /\ ~ In uth before /\
    snd (uth_default_sync_get_uth sync uth) = before ++ after.
Proof.
  induction sync as [|i rest IH]; cbn; [tauto|].
  intros Hin. destruct (Nat.eqb_spec i uth) as [->|Hne]; cbn.
  - exists [], rest. cbn. tauto.
  - destruct Hin as [E|Hin]; [contradiction|].
    destruct (IH Hin) as (before & after & -> & Hnot & Hrest).
    destruct (uth_default_sync_get_uth (before ++ uth :: after) uth)
      as [found rest']; cbn in *. subst rest'.
    exists (i :: before), after. cbn. intuition.
Qed.

Lemma default_get_uth_absent (sync : uth_sync_t) (uth : uthread) :
  ~ In uth sync -> uth_default_sync_get_uth sync uth = (false, sync).
Proof.
  induction sync as [|i rest IH]; cbn; [reflexivity|].
  intros Hnot. destruct (Nat.eqb_spec i uth) as [->|Hne]; [tauto|].
  rewrite IH by tauto. reflexivity.
Qed.

(** C7. The alarm handler, run on a blob whose lock pointer and sync pointer
    designate two cells that do not overlap, the lock being free: it takes the
    lock, removes the blob's uthread from the wait queue, releases the lock,
    and only then makes the uthread runnable when the flag of the blob is
    set.  The removal is an access under the lock of the blob, which does
    not go through unless that lock is held: the handler ending as stated,
    the removal was made after the lock and before the unlock of its trace,
    and in no memory at all does the handler stop on an access made without
    the lock.
    The flag is written, to TRUE, exactly when the removal found the
    uthread; with the default sync object that is exactly when the uthread
    was in the queue.  On a blob as [set_timeout_blob] makes it (flag FALSE),
    a uthread that is no longer queued is neither flagged nor woken. *)
Theorem timeout_handler_steps ops {Mem : Type} (blob : timeout_blob Mem)
    (m : Mem) :
  ptr_ok (lock_ptr blob) -> ptr_ok (sync_ptr blob) ->
  ptr_apart (lock_ptr blob) (sync_ptr blob) ->
  load_of (lock_ptr blob) m = false ->
  let queue := load_of (sync_ptr blob) m in
  let removed := fst (__uth_sync_get_uth ops queue (uth blob)) in
  let rest := snd (__uth_sync_get_uth ops queue (uth blob)) in
  exists blob' tr,
    (forall (any : Mem) (a : addr),
        timeout_handler ops blob any <> Stuck (Racing a)) /\
    timeout_handler ops blob m
    = Ok (blob', store_of (sync_ptr blob) rest m, tr) /\
    blob' = {| timed_out := removed || timed_out blob; uth := uth blob;
               sync_ptr := sync_ptr blob; lock_ptr := lock_ptr blob |} /\
    tr = [EvSpinLock (addr_of (lock_ptr blob));
          EvSpinUnlock (addr_of (lock_ptr blob))]
         ++ (if timed_out blob' then [EvRunnable (uth blob)] else []) /\
    (sync_get_uth ops = None -> (removed = true <-> In (uth blob) queue)) /\
    (timed_out blob = false ->
     (timed_out blob' = true <-> removed = true) /\
     (removed = false -> blob' = blob /\ woken tr = [])).
Proof.
  intros Hlock_ok.
  pose proof (fun any a => @handler_no_race ops Mem blob any a Hlock_ok)
    as Hrace.
  revert Hlock_ok.
  destruct blob as [flag t sp lp]; cbn [timed_out uth sync_ptr lock_ptr].
  intros [Lls Lsl Lss] [Sls Ssl Sss] [Alo Aol Asc] Hfree.
  revert Hrace.
  unfold timeout_handler, spin_pdr_lock, spin_pdr_unlock, call_under, under,
    call, load, store, bind, emit, when, uthread_runnable, ret, get_stuck.
  intros Hrace.
  cbn [timed_out uth sync_ptr lock_ptr].
  rewrite Hfree. rewrite Lls. rewrite Aol.
  destruct (__uth_sync_get_uth ops (load_of sp m) t) as [removed rest] eqn:E.
  assert (Hmem : store_of lp false (store_of sp rest (store_of lp true m))
                 = store_of sp rest m).
  { rewrite Asc, Lss.
    assert (Hsame : store_of lp false m = m) by (rewrite <- Hfree; apply Lsl).
    rewrite Hsame. reflexivity. }
  assert (Hdef : sync_get_uth ops = None ->
                 (removed = true <-> In t (load_of sp m))).
  { intros Hnull. unfold __uth_sync_get_uth in E. rewrite Hnull in E.
    rewrite <- default_get_uth_found. rewrite E. reflexivity. }
  cbn [fst snd].
  destruct removed; cbn [orb timed_out uth sync_ptr lock_ptr].
  - rewrite Hmem. do 2 eexists. split; [exact Hrace|]. split; [reflexivity|].
    split; [reflexivity|]. split; [reflexivity|]. split; [exact Hdef|].
    intros ->. split; [tauto|]. intros Habs; discriminate Habs.
  - rewrite Hmem. destruct flag.
    + do 2 eexists. split; [exact Hrace|]. split; [reflexivity|].
      split; [reflexivity|]. split; [reflexivity|]. split; [exact Hdef|].
      intros Habs; discriminate Habs.
    + do 2 eexists. split; [exact Hrace|]. split; [reflexivity|].
      split; [reflexivity|]. split; [reflexivity|]. split; [exact Hdef|].
      intros _. split; [split; intros Habs; discriminate Habs|].
      intros _. split; reflexivity.
Qed.

Lemma sem_blob_pointers :
  ptr_ok (p_sem_lock the_sem) /\ ptr_ok (p_sem_sync_obj the_sem) /\
  ptr_apart (p_sem_lock the_sem) (p_sem_sync_obj the_sem).
Proof.
  repeat split; try intros ? ? [once c l q]; try intros ? [once c l q];
    try intros [once c l q]; reflexivity.
Qed.

Lemma cv_blob_pointers :
  ptr_ok (p_cv_lock the_cv) /\ ptr_ok (p_cv_sync_obj the_cv) /\
  ptr_apart (p_cv_lock the_cv) (p_cv_sync_obj the_cv).
Proof.
  repeat split; try intros ? ? [once l q]; try intros ? [once l q];
    try intros [once l q]; reflexivity.
Qed.

Lemma timeout_handler_steps_witness :
  exists blob' tr,
    timeout_handler (generic_2ls None)
      (set_timeout_blob 7%nat (p_sem_sync_obj the_sem) (p_sem_lock the_sem))
      {| sem_once_ctl := true; sem_count := 0; sem_lock := false;
         sem_sync_obj := [3%nat; 7%nat; 9%nat] |}
    = Ok (blob',
          {| sem_once_ctl := true; sem_count := 0; sem_lock := false;
             sem_sync_obj := [3%nat; 9%nat] |}, tr) /\
    timed_out blob' = true /\
    tr = [EvSpinLock "sem.lock"; EvSpinUnlock "sem.lock"; EvRunnable 7%nat].
Proof.
  pose proof (@timeout_handler_steps (generic_2ls None) uth_semaphore
                (set_timeout_blob 7%nat (p_sem_sync_obj the_sem)
                   (p_sem_lock the_sem))
                {| sem_once_ctl := true; sem_count := 0; sem_lock := false;
                   sem_sync_obj := [3%nat; 7%nat; 9%nat] |}
                (proj1 sem_blob_pointers)
                (proj1 (proj2 sem_blob_pointers))
                (proj2 (proj2 sem_blob_pointers))
                eq_refl) as H.
  cbv zeta in H. destruct H as (blob' & tr & _ & E & Hblob & Htr & _).
  exists blob', tr. split; [exact E|].
  rewrite Htr, Hblob. split; reflexivity.
Defined.

(** ** Reader-writer locks *)

Lemma runnable_each_trace {Mem : Type} (restartees : uth_tailq) (m : Mem) :
  runnable_each restartees m = Ok (tt, m, map EvRunnable restartees).
Proof.
  induction restartees as [|i safe IH]; cbn [runnable_each map].
  - reflexivity.
  - unfold_prog. rewrite IH. reflexivity.
Qed.

(** The loop of the writer path on the default sync object: every queued
    reader moves to [restartees], in order, with one increment each. *)
Lemma drain_readers_default bulk (readers : uth_sync_t) :
  forall (fuel : nat) (restartees : uth_tailq) once n w writers,
    (List.length readers < fuel)%nat ->
    drain_readers (generic_2ls bulk) fuel the_rwl restartees
      {| rwl_once_ctl := once; rwl_lock := true; rwl_nr_readers := n;
         rwl_has_writer := w; rwl_readers := readers;
         rwl_writers := writers |}
    = Ok (restartees ++ readers,
          {| rwl_once_ctl := once; rwl_lock := true;
             rwl_nr_readers :=
               Nat.iter (List.length readers) (fun n => uint (n + 1)) n;
             rwl_has_writer := w; rwl_readers := [];
             rwl_writers := writers |}, []).
Proof.
  induction readers as [|uth readers IH];
    intros [|fuel] restartees once n w writers Hfuel;
    try (cbn in Hfuel; lia).
  - cbn [drain_readers]. unfold_prog. rewrite app_nil_r. reflexivity.
  - cbn [drain_readers]. unfold_prog.
    rewrite IH by (cbn in Hfuel; lia).
    cbn [List.length]. rewrite Nat.iter_succ_r, <- app_assoc. reflexivity.
Qed.

(** The writer path of [uth_rwlock_unlock] on the default sync object. *)
Lemma unlock_writer_default bulk (fuel : nat) (r : uth_rwlock) :
  rwl_has_writer r = true -> rwl_lock r = false ->
  (List.length (rwl_readers r) < fuel)%nat ->
  exists r' tr,
    uth_rwlock_unlock (generic_2ls bulk) fuel the_rwl r = Ok (tt, r', tr) /\
    match rwl_writers r with
    | writer :: rest =>
        r' = set_rwl_writers rest r /\
        rwl_has_writer r' = true /\
        tr = [EvSpinLock "rwl.lock"; EvSpinUnlock "rwl.lock";
              EvRunnable writer]
    | [] =>
        r' = set_rwl_readers []
               (set_rwl_nr_readers
                  (Nat.iter (List.length (rwl_readers r))
                     (fun n => uint (n + 1)) (rwl_nr_readers r))
                  (set_rwl_has_writer false r)) /\
        rwl_has_writer r' = false /\
        tr = [EvSpinLock "rwl.lock"; EvSpinUnlock "rwl.lock"]
             ++ map EvRunnable (rwl_readers r)
    end.
Proof.
  destruct r as [once l n w readers writers]; cbn; intros -> -> Hfuel.
  unfold_prog. destruct writers as [|writer rest]; unfold_prog.
  - rewrite (drain_readers_default bulk readers) by exact Hfuel.
    rewrite runnable_each_trace. cbn [app].
    do 2 eexists. repeat split.
  - do 2 eexists. repeat split.
Qed.

Lemma iter_incr (n : nat) (z : Z) :
  0 <= z -> z + Z.of_nat n <= UINT_MAX ->
  Nat.iter n (fun n => uint (n + 1)) z = z + Z.of_nat n.
Proof.
  induction n as [|n IH]; intros Hz Hmax.
  - cbn. lia.
  - rewrite Nat2Z.inj_succ in *. rewrite Nat.iter_succ.
    rewrite IH by lia. rewrite uint_small by ulia. lia.
Qed.

(** C4. [uth_rwlock_unlock] on a lock that has a writer, with its spinlock
    free.  When a writer is queued, the head of the writer queue is popped,
    [has_writer] stays TRUE and nothing else changes; it is the one uthread
    made runnable.  When none is, [has_writer] becomes FALSE, the reader
    queue is emptied, [nr_readers] is incremented once per reader that was
    queued (which adds their number, short of an overflow of the unsigned
    int), and those readers are the uthreads made runnable, in queue order.
    In both cases the calls to [uthread_runnable] come after the spinlock has
    been released. *)
Theorem rw_unlock_writer_path bulk (fuel : nat) (r : uth_rwlock) :
  rwl_has_writer r = true -> rwl_lock r = false ->
  (List.length (rwl_readers r) < fuel)%nat ->
  exists r' tr,
    uth_rwlock_unlock (generic_2ls bulk) fuel the_rwl r = Ok (tt, r', tr) /\
    match rwl_writers r with
    | writer :: rest =>
        r' = set_rwl_writers rest r /\
        rwl_has_writer r' = true /\
        tr = [EvSpinLock "rwl.lock"; EvSpinUnlock "rwl.lock";
              EvRunnable writer]
    | [] =>
        r' = set_rwl_readers []
               (set_rwl_nr_readers
                  (Nat.iter (List.length (rwl_readers r))
                     (fun n => uint (n + 1)) (rwl_nr_readers r))
                  (set_rwl_has_writer false r)) /\
        rwl_has_writer r' = false /\
        (0 <= rwl_nr_readers r ->
         rwl_nr_readers r + Z.of_nat (List.length (rwl_readers r)) <= UINT_MAX ->
         rwl_nr_readers r'
         = rwl_nr_readers r + Z.of_nat (List.length (rwl_readers r))) /\
        tr = [EvSpinLock "rwl.lock"; EvSpinUnlock "rwl.lock"]
             ++ map EvRunnable (rwl_readers r)
    end.
Proof.
  intros Hw Hl Hfuel.
  destruct (unlock_writer_default bulk r Hw Hl Hfuel) as (r' & tr & E & H).
  exists r', tr. split; [exact E|].
  destruct (rwl_writers r) as [|writer rest]; [|exact H].
  destruct H as (Hr & Hw' & Htr). repeat split; try assumption.
  intros Hpos Hmax. rewrite Hr. destruct r; cbn in *.
  apply iter_incr; assumption.
Qed.

Lemma rw_unlock_writer_path_witness :
  exists r' tr,
    uth_rwlock_unlock (generic_2ls None) 3 the_rwl
      {| rwl_once_ctl := true; rwl_lock := false; rwl_nr_readers := 0;
         rwl_has_writer := true; rwl_readers := [4%nat; 5%nat];
         rwl_writers := [] |} = Ok (tt, r', tr) /\
    r' = {| rwl_once_ctl := true; rwl_lock := false; rwl_nr_readers := 2;
            rwl_has_writer := false; rwl_readers := [];
            rwl_writers := [] |} /\
    rwl_has_writer r' = false /\
    tr = [EvSpinLock "rwl.lock"; EvSpinUnlock "rwl.lock";
          EvRunnable 4%nat; EvRunnable 5%nat].
Proof.
  destruct (@rw_unlock_writer_path None 3
              {| rwl_once_ctl := true; rwl_lock := false; rwl_nr_readers := 0;
                 rwl_has_writer := true; rwl_readers := [4%nat; 5%nat];
                 rwl_writers := [] |} eq_refl eq_refl ltac:(cbn; lia))
    as (r' & tr & E & Hr & Hw & _ & Htr).
  exists r', tr. repeat split; assumption.
Defined.

Lemma rw_step_inv bulk (fuel : nat) (c : rw_call) (r : uth_rwlock) :
  rw_inv r -> (List.length (rwl_readers r) < fuel)%nat ->
  exists r' tr,
    rw_step (generic_2ls bulk) fuel c r = Ok (tt, r', tr) /\
    rw_inv r' /\
    (List.length (rwl_readers r') <= S (List.length (rwl_readers r)))%nat.
Proof.
  intros (Hlock & Hw & Hr) Hfuel.
  destruct r as [once l n w readers writers];
    cbn in Hlock, Hw, Hr, Hfuel; subst l.
  destruct c as [t| |t| |].
  - (* rdlock *)
    destruct once, w; unfold_prog; do 2 eexists;
      (split; [reflexivity|]); unfold rw_inv; cbn;
      rewrite ?length_app; cbn;
      repeat split; intros; try discriminate; auto; try lia.
    all: rewrite Hr by reflexivity; cbn; lia.
  - (* try_rdlock *)
    destruct once, w; unfold_prog; do 2 eexists;
      (split; [reflexivity|]); unfold rw_inv; cbn;
      repeat split; intros; try discriminate; auto; try lia.
  - (* wrlock *)
    destruct once, w; unfold_prog; try destruct (n =? 0) eqn:En;
      unfold_prog; do 2 eexists;
      (split; [reflexivity|]); unfold rw_inv; cbn;
      repeat split; intros; try discriminate; auto; try lia.
  - (* try_wrlock *)
    destruct once, w; unfold_prog; try destruct (n =? 0) eqn:En;
      unfold_prog; do 2 eexists;
      (split; [reflexivity|]); unfold rw_inv; cbn;
      repeat split; intros; try discriminate; auto; try lia.
  - (* unlock *)
    destruct w.
    + destruct (@unlock_writer_default bulk fuel
                  {| rwl_once_ctl := once; rwl_lock := false;
                     rwl_nr_readers := n; rwl_has_writer := true;
                     rwl_readers := readers; rwl_writers := writers |}
                  eq_refl eq_refl Hfuel) as (r' & tr & E & Hcase).
      exists r', tr. split; [exact E|].
      cbn [rwl_writers] in Hcase. destruct writers as [|writer rest].
      * destruct Hcase as (-> & _ & _). unfold rw_inv; cbn.
        repeat split; intros; try discriminate; auto; lia.
      * destruct Hcase as (-> & _ & _). unfold rw_inv; cbn.
        repeat split; intros; try discriminate; auto; lia.
    + rewrite (Hr eq_refl). unfold_prog.
      destruct (uint (n - 1) =? 0) eqn:En; unfold_prog.
      * destruct writers as [|writer rest]; unfold_prog; do 2 eexists;
          (split; [reflexivity|]); unfold rw_inv; cbn;
          repeat split; intros; try discriminate; auto; try lia.
      * do 2 eexists; (split; [reflexivity|]); unfold rw_inv; cbn;
          repeat split; intros; try discriminate; auto; try lia.
Qed.

(** C5. A reader-writer lock set up by [uth_rwlock_init] or by the static
    initializer satisfies the invariant, and from a lock that satisfies it
    every sequence of rdlock, try_rdlock, wrlock, try_wrlock and unlock calls
    runs to its end (the drain loop of unlock being given more fuel than
    there can be queued readers) and leaves a lock that satisfies it:
    [has_writer] implies [nr_readers == 0], and no [has_writer] implies an
    empty reader queue. *)
Theorem rw_invariant bulk :
  (forall garbage : uth_rwlock,
      ends_in rw_inv (uth_rwlock_init (generic_2ls bulk) the_rwl garbage)) /\
  rw_inv UTH_RWLOCK_INIT /\
  (forall (calls : list rw_call) (fuel : nat) (r : uth_rwlock),
      rw_inv r ->
      (List.length (rwl_readers r) + List.length calls < fuel)%nat ->
      exists r' tr,
        run_calls (rw_step (generic_2ls bulk) fuel) calls r = Ok (tt, r', tr) /\
        rw_inv r' /\
        (rwl_has_writer r' = true -> rwl_nr_readers r' = 0) /\
        (rwl_has_writer r' = false -> rwl_readers r' = [])).
Proof.
  split; [|split].
  - intros [once l n w readers writers]. unfold_prog. unfold rw_inv; cbn.
    repeat split; intros; try discriminate; reflexivity.
  - unfold rw_inv, UTH_RWLOCK_INIT; cbn. repeat split.
  - induction calls as [|c calls IH]; intros fuel r Hinv Hfuel.
    + exists r, []. repeat split; apply Hinv.
    + cbn [List.length] in Hfuel.
      destruct (@rw_step_inv bulk fuel c r Hinv ltac:(lia))
        as (r1 & tr1 & E1 & Hinv1 & Hlen).
      destruct (IH fuel r1 Hinv1 ltac:(lia))
        as (r2 & tr2 & E2 & Hinv2 & Hrest).
      exists r2, (tr1 ++ tr2). split; [|tauto].
      cbn [run_calls]. unfold bind. rewrite E1, E2. reflexivity.
Qed.

Lemma rw_invariant_witness :
  exists r' tr,
    run_calls (rw_step (generic_2ls None) 9)
      [RwRdlock 1%nat; RwWrlock 2%nat; RwUnlock; RwRdlock 3%nat;
       RwTryWrlock; RwUnlock; RwUnlock]
      UTH_RWLOCK_INIT = Ok (tt, r', tr) /\
    rw_inv r' /\
    (rwl_has_writer r' = true -> rwl_nr_readers r' = 0) /\
    (rwl_has_writer r' = false -> rwl_readers r' = []).
Proof.
  apply (proj2 (proj2 (rw_invariant None))).
  - apply (proj1 (proj2 (rw_invariant None))).
  - cbn. lia.
Defined.

(** ** Recursive mutexes *)

Section Recursive_accounting.
Variable ops : schedule_ops.
Variable t : uthread.

(** A lock call by the lockholder returns TRUE at once and adds one to the
    count. *)
Lemma relock_by_holder (kind : lock_kind) (r : uth_recurse_mutex) :
  rmtx_once_ctl r = true -> rmtx_lockholder r = Some t ->
  recurse_lock_call ops t kind r
  = Ok (Returned true, set_rmtx_count (uint (rmtx_count r + 1)) r, []).
Proof.
  destruct r as [once mtx holder c]; cbn; intros -> ->.
  destruct kind; unfold_prog; rewrite Nat.eqb_refl; reflexivity.
Qed.

Lemma relocks_by_holder (kinds : list lock_kind) :
  forall r : uth_recurse_mutex,
    rmtx_once_ctl r = true -> rmtx_lockholder r = Some t ->
    0 <= rmtx_count r ->
    rmtx_count r + Z.of_nat (List.length kinds) <= UINT_MAX ->
    run_calls (rmtx_step ops t) (map RLock kinds) r
    = Ok (tt,
          set_rmtx_count (rmtx_count r + Z.of_nat (List.length kinds)) r, []).
Proof.
  induction kinds as [|kind kinds IH];
    intros [once mtx holder c] Honce Hholder Hpos Hmax; cbn in Honce, Hholder, Hpos.
  - cbn. rewrite Z.add_0_r. reflexivity.
  - cbn [map run_calls rmtx_step List.length rmtx_count] in *.
    rewrite Nat2Z.inj_succ in *.
    unfold bind at 1. unfold bind at 1.
    rewrite relock_by_holder by assumption. cbn [ret rmtx_count].
    rewrite uint_small by (unfold UINT_MAX in *; lia).
    unfold set_rmtx_count at 1. cbn [rmtx_once_ctl rmtx_mtx rmtx_lockholder].
    rewrite IH; cbn; try assumption; unfold UINT_MAX in *; try lia.
    unfold set_rmtx_count; cbn. do 4 f_equal. lia.
Qed.

(** An unlock that does not bring the count to zero only decrements it. *)
Lemma unlock_inner (r : uth_recurse_mutex) :
  1 < rmtx_count r <= UINT_MAX ->
  uth_recurse_mutex_unlock ops the_rmtx r
  = Ok (tt, set_rmtx_count (rmtx_count r - 1) r, []).
Proof.
  destruct r as [once mtx holder c]; cbn; intros Hc. unfold_prog.
  assert (E : uint (c - 1) = c - 1) by (apply uint_small; unfold UINT_MAX; lia).
  rewrite E.
  destruct (c - 1 =? 0) eqn:E0; [apply Z.eqb_eq in E0; lia|]. reflexivity.
Qed.

Lemma unlocks_inner (j : nat) :
  forall r : uth_recurse_mutex,
    Z.of_nat j < rmtx_count r <= UINT_MAX ->
    run_calls (rmtx_step ops t) (repeat RUnlock j) r
    = Ok (tt, set_rmtx_count (rmtx_count r - Z.of_nat j) r, []).
Proof.
  induction j as [|j IH]; intros [once mtx holder c] Hc; cbn [rmtx_count] in Hc.
  - cbn. rewrite Z.sub_0_r. reflexivity.
  - rewrite Nat2Z.inj_succ in Hc.
    cbn [repeat run_calls rmtx_step]. unfold bind.
    rewrite unlock_inner by (cbn; ulia).
    rewrite IH by (cbn; ulia). cbn. unfold set_rmtx_count; cbn.
    do 4 f_equal. lia.
Qed.

(** The unlock that brings the count to zero clears the lockholder and
    releases the embedded mutex as [uth_semaphore_up] does. *)
Lemma unlock_last (r : uth_recurse_mutex) :
  rmtx_count r = 1 ->
  sem_lock (sem_ready ops (rmtx_mtx r)) = false ->
  exists r' tr,
    uth_recurse_mutex_unlock ops the_rmtx r = Ok (tt, r', tr) /\
    rmtx_lockholder r' = None /\ rmtx_count r' = 0 /\
    rmtx_once_ctl r' = rmtx_once_ctl r /\
    exists tr',
      uth_semaphore_up ops the_sem (rmtx_mtx r) = Ok (tt, rmtx_mtx r', tr').
Proof.
  destruct r as [once [monce mc ml mq] holder c]; cbn [rmtx_count rmtx_mtx].
  intros ->. unfold sem_ready; cbn [sem_once_ctl sem_lock].
  intros Hfree.
  destruct monce; cbn in Hfree; subst; unfold_code;
    change (uint (1 - 1) =? 0) with true; unfold_code.
  - destruct (__uth_sync_get_next ops mq) as [[u|] q']; unfold_code;
      do 2 eexists; repeat split; eexists; reflexivity.
  - destruct (__uth_sync_get_next ops (__uth_sync_init ops mq))
      as [[u|] q']; unfold_code;
      do 2 eexists; repeat split; eexists; reflexivity.
Qed.

(** However a lock call by a uthread that is not the lockholder comes to
    return TRUE without yielding, it leaves that uthread as the lockholder,
    with a count of one, of an initialized recursive mutex whose embedded
    mutex is initialized, with its spinlock free. *)
Lemma first_lock_returned (kind : lock_kind) (r r' : uth_recurse_mutex)
    (tr : trace) :
  (rmtx_once_ctl r = true -> rmtx_lockholder r <> Some t) ->
  recurse_lock_call ops t kind r = Ok (Returned true, r', tr) ->
  rmtx_lockholder r' = Some t /\ rmtx_count r' = 1 /\
  rmtx_once_ctl r' = true /\ sem_once_ctl (rmtx_mtx r') = true /\
  sem_lock (rmtx_mtx r') = false.
Proof.
  destruct r as [once [monce mc ml mq] holder c]; cbn [rmtx_once_ctl rmtx_lockholder].
  intros Hother.
  assert (Hholder : once = true -> is_current_uthread t holder = false).
  { intros ->. destruct holder as [h|]; cbn; [|reflexivity].
    destruct (Nat.eqb_spec h t) as [->|]; [|reflexivity].
    exfalso. apply Hother; reflexivity. }
  clear Hother. unfold is_current_uthread in Hholder.
  destruct once.
  - specialize (Hholder eq_refl).
    destruct kind, monce, ml, (0 <? mc) eqn:Hc; unfold_code;
      rewrite ?Hholder; unfold_code; cbn; rewrite ?Hc; unfold_code; cbn;
      intros H; inversion H; subst; repeat split.
  - clear Hholder.
    destruct kind; unfold_code; cbn;
      intros H; inversion H; subst; repeat split.
Qed.

(** A lock call by a uthread that is not the lockholder, the spinlock of the
    embedded mutex being free, returns or yields; only a trylock returns
    FALSE, and a trylock does not yield. *)
Lemma first_lock_ends (kind : lock_kind) (r : uth_recurse_mutex) :
  (rmtx_once_ctl r = true -> rmtx_lockholder r <> Some t) ->
  (rmtx_once_ctl r = true -> sem_lock (mtx_ready ops (rmtx_mtx r)) = false) ->
  exists out r1 tr1,
    recurse_lock_call ops t kind r = Ok (out, r1, tr1) /\
    match out with
    | Returned b => b = true \/ kind = ByTrylock
    | Yielded _ => kind <> ByTrylock
    end.
Proof.
  destruct r as [once [monce mc ml mq] holder c];
    cbn [rmtx_once_ctl rmtx_lockholder rmtx_mtx].
  intros Hother Hfree.
  assert (Hholder : once = true -> is_current_uthread t holder = false).
  { intros ->. destruct holder as [h|]; cbn; [|reflexivity].
    destruct (Nat.eqb_spec h t) as [->|]; [|reflexivity].
    exfalso. apply Hother; reflexivity. }
  clear Hother. unfold is_current_uthread in Hholder.
  destruct once.
  - specialize (Hholder eq_refl). specialize (Hfree eq_refl).
    unfold mtx_ready in Hfree; cbn [sem_once_ctl sem_lock] in Hfree.
    destruct monce; cbn [sem_lock] in Hfree; subst;
      destruct kind, (0 <? mc) eqn:Hc; unfold_code;
      rewrite ?Hholder; unfold_code; cbn; rewrite ?Hc; unfold_code; cbn;
      do 3 eexists; (split; [reflexivity|]);
      first [left; reflexivity | right; reflexivity | discriminate].
  - clear Hholder Hfree.
    destruct kind; unfold_code; cbn;
      do 3 eexists; (split; [reflexivity|]); left; reflexivity.
Qed.

(** A lock call that yields was made on an initialized recursive mutex, and
    leaves it as it was but for the caller, now on the wait queue of the
    embedded mutex; the frame of a plain lock has no blob. *)
Lemma first_lock_yielded (kind : lock_kind) (r r1 : uth_recurse_mutex)
    (frame : option (timeout_blob uth_recurse_mutex)) (tr1 : trace) :
  (rmtx_once_ctl r = true -> rmtx_lockholder r <> Some t) ->
  recurse_lock_call ops t kind r = Ok (Yielded frame, r1, tr1) ->
  rmtx_once_ctl r = true /\
  r1 = set_rmtx_mtx
         (set_sem_sync_obj
            (__uth_sync_enqueue ops t (sem_sync_obj (rmtx_mtx r)))
            (rmtx_mtx r)) r /\
  woken tr1 = [] /\
  (kind = ByLock -> frame = None).
Proof.
  destruct r as [once [monce mc ml mq] holder c]; cbn [rmtx_once_ctl rmtx_lockholder].
  intros Hother.
  assert (Hholder : once = true -> is_current_uthread t holder = false).
  { intros ->. destruct holder as [h|]; cbn; [|reflexivity].
    destruct (Nat.eqb_spec h t) as [->|]; [|reflexivity].
    exfalso. apply Hother; reflexivity. }
  clear Hother. unfold is_current_uthread in Hholder.
  destruct once.
  - specialize (Hholder eq_refl).
    destruct kind, monce, ml, (0 <? mc) eqn:Hc; unfold_code;
      rewrite ?Hholder; unfold_code; cbn; rewrite ?Hc; unfold_code; cbn;
      intros H; inversion H; subst; repeat split; intros E; discriminate E.
  - clear Hholder.
    destruct kind; unfold_code; cbn; intros H; inversion H.
Qed.

(** The restarted part of a lock call that yielded inside the embedded
    mutex: a timed-out wait returns FALSE and writes nothing; otherwise the
    uthread becomes the lockholder with a count of one. *)
Lemma first_lock_restarted (blob : option (timeout_blob uth_recurse_mutex))
    (r : uth_recurse_mutex) :
  uth_recurse_mutex_timed_lock_restarted t the_rmtx blob r
  = match blob with
    | Some b =>
        if timed_out b then Ok (false, r, [EvUnsetAlarm (uth b)])
        else Ok (true, set_rmtx_count 1 (set_rmtx_lockholder (Some t) r),
                 [EvUnsetAlarm (uth b)])
    | None => Ok (true, set_rmtx_count 1 (set_rmtx_lockholder (Some t) r), [])
    end.
Proof.
  destruct r as [once mtx holder c].
  destruct blob as [[flag u sp lp]|]; [destruct flag|]; reflexivity.
Qed.

(** The restarted part of a plain lock, whose frame has no blob. *)
Lemma plain_lock_restarted (r : uth_recurse_mutex) :
  uth_recurse_mutex_lock_restarted t the_rmtx None r
  = Ok (tt, set_rmtx_count 1 (set_rmtx_lockholder (Some t) r), []).
Proof. destruct r as [once mtx holder c]. reflexivity. Qed.
End Recursive_accounting.

Lemma run_calls_app {Mem Call : Type} (step : Call -> prog Mem unit)
    (calls1 calls2 : list Call) (m m1 m2 : Mem) (tr1 tr2 : trace) :
  run_calls step calls1 m = Ok (tt, m1, tr1) ->
  run_calls step calls2 m1 = Ok (tt, m2, tr2) ->
  run_calls step (calls1 ++ calls2) m = Ok (tt, m2, tr1 ++ tr2).
Proof.
  revert m tr1. induction calls1 as [|c calls1 IH]; intros m tr1 E1 E2.
  - cbn in E1. inversion E1; subst. exact E2.
  - cbn [app run_calls] in *. unfold bind in *.
    destruct (step c m) as [[[[] m'] tr']|w]; [|discriminate E1].
    destruct (run_calls step calls1 m') as [[[[] m''] tr'']|w] eqn:E;
      [|discriminate E1].
    inversion E1; subst.
    rewrite (IH m' tr'' E E2). rewrite app_assoc. reflexivity.
Qed.

(** From the state in which [t] has just become the lockholder: the further
    locks, and then the unlocks. *)
Lemma locks_then_unlocks ops (t : uthread) (r : uth_recurse_mutex)
    (kinds : list lock_kind) (j : nat) :
  rmtx_once_ctl r = true ->
  rmtx_lockholder r = Some t -> rmtx_count r = 1 ->
  sem_lock (sem_ready ops (rmtx_mtx r)) = false ->
  Z.of_nat (S (List.length kinds)) <= UINT_MAX ->
  Z.of_nat j <= Z.of_nat (S (List.length kinds)) ->
  exists r' tr,
    run_calls (rmtx_step ops t) (map RLock kinds ++ repeat RUnlock j) r
    = Ok (tt, r', tr) /\
    after_unlocks ops t (Z.of_nat (S (List.length kinds))) j r r'.
Proof.
  intros Honce Hholder Hcount Hfree Hmax Hj. unfold after_unlocks.
  rewrite Nat2Z.inj_succ in *.
  pose proof (@relocks_by_holder ops t kinds r Honce Hholder
                ltac:(lia) ltac:(ulia)) as Hlocks.
  rewrite Hcount in Hlocks.
  remember (Z.of_nat (List.length kinds)) as n eqn:En.
  assert (Hn : 0 <= n) by lia.
  destruct r as [once mtx holder c];
    cbn [rmtx_once_ctl rmtx_mtx rmtx_lockholder rmtx_count] in *.
  unfold set_rmtx_count in Hlocks;
    cbn [rmtx_once_ctl rmtx_mtx rmtx_lockholder rmtx_count] in Hlocks.
  destruct (Z.eq_dec (Z.of_nat j) (Z.succ n)) as [Hlast|Hinner].
  - (* all the unlocks *)
    assert (Ej : j = (List.length kinds + 1)%nat) by lia.
    rewrite Ej, repeat_app. cbn [repeat].
    pose proof (@unlocks_inner ops t (List.length kinds)
                  {| rmtx_once_ctl := once; rmtx_mtx := mtx;
                     rmtx_lockholder := holder; rmtx_count := 1 + n |}
                  ltac:(cbn [rmtx_count]; ulia)) as Hunlocks.
    unfold set_rmtx_count in Hunlocks;
      cbn [rmtx_once_ctl rmtx_mtx rmtx_lockholder rmtx_count] in Hunlocks.
    destruct (@unlock_last ops
                {| rmtx_once_ctl := once; rmtx_mtx := mtx;
                   rmtx_lockholder := holder;
                   rmtx_count := 1 + n - Z.of_nat (List.length kinds) |})
      as (r' & tr & E & Hnone & Hzero & _ & tr' & Hup).
    { cbn [rmtx_count]. lia. }
    { exact Hfree. }
    exists r', ([] ++ [] ++ tr ++ []). split.
    + eapply run_calls_app; [exact Hlocks|].
      eapply run_calls_app; [exact Hunlocks|].
      cbn [run_calls rmtx_step]. unfold bind. rewrite E. reflexivity.
    + split; [intros; lia|]. intros _.
      split; [exact Hnone|]. split; [exact Hzero|].
      exists tr'. exact Hup.
  - pose proof (@unlocks_inner ops t j
                  {| rmtx_once_ctl := once; rmtx_mtx := mtx;
                     rmtx_lockholder := holder; rmtx_count := 1 + n |}
                  ltac:(cbn [rmtx_count]; ulia)) as Hunlocks.
    do 2 eexists. split.
    + eapply run_calls_app; [exact Hlocks|exact Hunlocks].
    + split; [|intros; lia]. intros _.
      cbn [rmtx_once_ctl rmtx_mtx rmtx_lockholder rmtx_count set_rmtx_count].
      repeat split; [exact Hholder|lia].
Qed.

(** C8. Recursive accounting, for a uthread [t] and a recursive mutex that
    [t] does not hold.
    - The first lock call by [t], of any kind (lock, trylock, timed lock),
      ends when the spinlock of the embedded mutex is free: it returns, and
      only a trylock returns FALSE, or it yields, which a trylock does not.
    - When it returns TRUE: [t] going on to make k locks in all and then j
      unlocks, k at most UINT_MAX and j at most k, the whole sequence runs
      to its end; after less than k unlocks [t] is the lockholder with a
      count of k - j, each unlock having taken one off, and with the k-th
      there is no lockholder, the count is zero and the embedded mutex has
      been released.
    - When it yields, [t] is on the wait queue of the embedded mutex and
      nothing else has changed.  Restarted in an initialized recursive mutex
      the embedded spinlock of which is free, a plain lock makes [t] the
      lockholder with a count of one, and so does a timed lock whose alarm
      handler has not set the flag of the blob; the further locks and the
      unlocks then run as above.  A timed lock whose wait on the embedded
      mutex timed out returns FALSE and leaves the recursive mutex,
      lockholder and count included, as it was.
    - The restarted part of a timed lock, whatever the memory: it returns
      FALSE exactly when the flag of the blob is set, and then has written
      nothing.
    - A lock call of any kind by the lockholder returns TRUE and adds one
      to the count. *)
Theorem recursive_lock_accounting ops (t : uthread) :
  (forall kind r,
      (rmtx_once_ctl r = true -> rmtx_lockholder r <> Some t) ->
      (rmtx_once_ctl r = true ->
       sem_lock (mtx_ready ops (rmtx_mtx r)) = false) ->
      exists out r1 tr1,
        recurse_lock_call ops t kind r = Ok (out, r1, tr1) /\
        match out with
        | Returned b => b = true \/ kind = ByTrylock
        | Yielded _ => kind <> ByTrylock
        end) /\
  (forall kind kinds (j : nat) r r1 tr1,
      (rmtx_once_ctl r = true -> rmtx_lockholder r <> Some t) ->
      recurse_lock_call ops t kind r = Ok (Returned true, r1, tr1) ->
      let k := Z.of_nat (S (List.length kinds)) in
      k <= UINT_MAX -> Z.of_nat j <= k ->
      rmtx_lockholder r1 = Some t /\ rmtx_count r1 = 1 /\
      exists r' tr,
        run_calls (rmtx_step ops t)
          (map RLock (kind :: kinds) ++ repeat RUnlock j) r
        = Ok (tt, r', tr) /\
        after_unlocks ops t k j r1 r') /\
  (forall kind r frame r1 tr1,
      (rmtx_once_ctl r = true -> rmtx_lockholder r <> Some t) ->
      recurse_lock_call ops t kind r = Ok (Yielded frame, r1, tr1) ->
      r1 = set_rmtx_mtx
             (set_sem_sync_obj
                (__uth_sync_enqueue ops t (sem_sync_obj (rmtx_mtx r)))
                (rmtx_mtx r)) r /\
      woken tr1 = [] /\
      forall kinds (j : nat) r2 blob2,
        blob_at_restart frame blob2 ->
        rmtx_once_ctl r2 = true ->
        sem_lock (sem_ready ops (rmtx_mtx r2)) = false ->
        let k := Z.of_nat (S (List.length kinds)) in
        k <= UINT_MAX -> Z.of_nat j <= k ->
        exists ret_ r3 tr3,
          uth_recurse_mutex_timed_lock_restarted t the_rmtx blob2 r2
          = Ok (ret_, r3, tr3) /\
          (kind = ByLock ->
           ret_ = true /\
           uth_recurse_mutex_lock_restarted t the_rmtx blob2 r2
           = Ok (tt, r3, [])) /\
          ret_ = negb (blob_timed_out blob2) /\
          (ret_ = false -> r3 = r2) /\
          (ret_ = true ->
           rmtx_lockholder r3 = Some t /\ rmtx_count r3 = 1 /\
           rmtx_mtx r3 = rmtx_mtx r2 /\
           exists r' tr,
             run_calls (rmtx_step ops t)
               (map RLock kinds ++ repeat RUnlock j) r3
             = Ok (tt, r', tr) /\
             after_unlocks ops t k j r3 r')) /\
  (forall blob r,
      exists ret_ r' tr,
        uth_recurse_mutex_timed_lock_restarted t the_rmtx blob r
        = Ok (ret_, r', tr) /\
        ret_ = negb match blob with Some b => timed_out b | None => false end /\
        (ret_ = false -> r' = r) /\
        (ret_ = true -> rmtx_lockholder r' = Some t /\ rmtx_count r' = 1)) /\
  (forall kind r,
      rmtx_once_ctl r = true -> rmtx_lockholder r = Some t ->
      recurse_lock_call ops t kind r
      = Ok (Returned true, set_rmtx_count (uint (rmtx_count r + 1)) r, [])).
Proof.
  split; [|split; [|split; [|split]]].
  - intros kind r. apply first_lock_ends.
  - intros kind kinds j r r1 tr1 Hother E k Hmax Hj. subst k.
    destruct (@first_lock_returned ops t kind r r1 tr1 Hother E)
      as (Hholder & Hcount & Honce & Hmonce & Hfree).
    split; [exact Hholder|]. split; [exact Hcount|].
    destruct (@locks_then_unlocks ops t r1 kinds j Honce Hholder Hcount)
      as (r' & tr & Erun & Hafter); try assumption.
    { unfold sem_ready. rewrite Hmonce. exact Hfree. }
    exists r', (tr1 ++ tr). split; [|exact Hafter].
    cbn [map app run_calls rmtx_step]. unfold bind at 1. unfold bind at 1.
    rewrite E. cbn [ret]. rewrite Erun. rewrite app_nil_r. reflexivity.
  - intros kind r frame r1 tr1 Hother E.
    destruct (@first_lock_yielded ops t kind r r1 frame tr1 Hother E) as (_ & Hr1 & Hw & Hplain).
    split; [exact Hr1|]. split; [exact Hw|].
    intros kinds j r2 blob2 Hblob Honce Hfree k Hmax Hj. subst k.
    rewrite first_lock_restarted.
    assert (Hrest : forall r3,
               r3 = set_rmtx_count 1 (set_rmtx_lockholder (Some t) r2) ->
               rmtx_lockholder r3 = Some t /\ rmtx_count r3 = 1 /\
               rmtx_mtx r3 = rmtx_mtx r2 /\
               exists r' tr,
                 run_calls (rmtx_step ops t)
                   (map RLock kinds ++ repeat RUnlock j) r3
                 = Ok (tt, r', tr) /\
                 after_unlocks ops t (Z.of_nat (S (List.length kinds))) j r3 r').
    { intros r3 ->. destruct r2 as [once2 mtx2 holder2 c2].
      cbn [rmtx_once_ctl rmtx_mtx] in Honce, Hfree.
      split; [reflexivity|]. split; [reflexivity|]. split; [reflexivity|].
      apply locks_then_unlocks; try assumption; reflexivity. }
    destruct blob2 as [[flag u sp lp]|]; [destruct flag|];
      cbn [timed_out uth blob_timed_out negb].
    + do 3 eexists. split; [reflexivity|]. split.
      { intros ->. specialize (Hplain eq_refl). subst frame.
        destruct Hblob as [Habs|(b & Habs & _)]; discriminate Habs. }
      split; [reflexivity|]. split; [reflexivity|].
      intros Habs; discriminate Habs.
    + do 3 eexists. split; [reflexivity|]. split.
      { intros ->. specialize (Hplain eq_refl). subst frame.
        destruct Hblob as [Habs|(b & Habs & _)]; discriminate Habs. }
      split; [reflexivity|]. split; [intros Habs; discriminate Habs|].
      intros _. apply Hrest. reflexivity.
    + do 3 eexists. split; [reflexivity|]. split.
      { intros _. split; [reflexivity|]. apply plain_lock_restarted. }
      split; [reflexivity|]. split; [intros Habs; discriminate Habs|].
      intros _. apply Hrest. reflexivity.
  - intros blob r. rewrite first_lock_restarted.
    destruct r as [once mtx holder c].
    destruct blob as [[[|] u sp lp]|]; cbn; do 3 eexists;
      (split; [reflexivity|]); (split; [reflexivity|]);
      split; intros E; try discriminate E; repeat split.
  - intros kind r. apply relock_by_holder.
Qed.

Lemma recursive_lock_accounting_witness :
  exists r' tr,
    run_calls (rmtx_step (generic_2ls None) 6%nat)
      (map RLock [ByLock; ByTrylock; ByTimedLock (Timespec 9 0)]
       ++ repeat RUnlock 3)
      {| rmtx_once_ctl := true;
         rmtx_mtx := {| sem_once_ctl := true; sem_count := 1;
                        sem_lock := false; sem_sync_obj := [] |};
         rmtx_lockholder := None; rmtx_count := 0 |} = Ok (tt, r', tr) /\
    rmtx_lockholder r' = None /\ rmtx_count r' = 0 /\
    sem_count (rmtx_mtx r') = 1.
Proof.
  destruct (proj1 (proj2 (recursive_lock_accounting (generic_2ls None) 6%nat))
              ByLock [ByTrylock; ByTimedLock (Timespec 9 0)] 3%nat
              {| rmtx_once_ctl := true;
                 rmtx_mtx := {| sem_once_ctl := true; sem_count := 1;
                                sem_lock := false; sem_sync_obj := [] |};
                 rmtx_lockholder := None; rmtx_count := 0 |}
              _ _
              ltac:(discriminate) eq_refl
              ltac:(cbn; unfold UINT_MAX; lia) ltac:(cbn; lia))
    as (_ & _ & r' & tr & E & _ & Hlast).
  destruct (Hlast ltac:(cbn; lia)) as (Hnone & Hzero & _).
  exists r', tr. split; [exact E|]. split; [exact Hnone|].
  split; [exact Hzero|].
  vm_compute in E. inversion E. reflexivity.
Defined.

(** ** Waiting on a condition variable *)

Section Cv_wait.
Variable ops : schedule_ops.
Variable t : uthread.

(** The wait up to the yield: under the spinlock of the condition variable
    the alarm is armed and, in the yield callback, the caller is enqueued;
    the spinlock is released, and then the mutex is. *)
Lemma timed_wait_yields (abs_timeout : option timespec) (m : cv_mtx) :
  cv_lock (cv_ready ops (m_cv m)) = false ->
  sem_lock (sem_ready ops (m_mtx m)) = false ->
  let c0 := cv_ready ops (m_cv m) in
  let s0 := sem_ready ops (m_mtx m) in
  let popped := fst (__uth_sync_get_next ops (sem_sync_obj s0)) in
  let rest := snd (__uth_sync_get_next ops (sem_sync_obj s0)) in
  uth_cond_var_timed_wait ops t cvm_cv cvm_mtx abs_timeout m
  = Ok (match abs_timeout with
        | Some _ => Some (set_timeout_blob t (p_cv_sync_obj cvm_cv)
                            (p_cv_lock cvm_cv))
        | None => None
        end,
        {| m_cv := set_cv_sync_obj (__uth_sync_enqueue ops t (cv_sync_obj c0)) c0;
           m_mtx := match popped with
                    | Some _ => set_sem_sync_obj rest s0
                    | None =>
                        set_sem_count (uint (sem_count s0 + 1))
                          (set_sem_sync_obj rest s0)
                    end |},
        [EvSpinLock "cv.lock"]
        ++ match abs_timeout with
           | Some abs => [EvSetAlarm t abs]
           | None => []
           end
        ++ [EvYield t; EvHasBlocked t; EvSpinUnlock "cv.lock";
            EvSpinLock "mtx.lock"; EvSpinUnlock "mtx.lock"]
        ++ match popped with
           | Some waiter => [EvRunnable waiter]
           | None => []
           end).
Proof.
  destruct m as [[conce cl cq] [sonce sc sl sq]].
  unfold cv_ready, sem_ready; cbn [m_cv m_mtx cv_once_ctl sem_once_ctl].
  intros Hcv Hmtx. cbv zeta.
  destruct conce, sonce; cbn in Hcv, Hmtx; subst;
    cbn [cv_sync_obj sem_sync_obj sem_count];
    destruct abs_timeout as [abs|]; unfold_code;
    match goal with
    | |- context [__uth_sync_get_next ops ?q] =>
        destruct (__uth_sync_get_next ops q) as [[u|] q']
    end; unfold_code; reflexivity.
Qed.

(** The wait up to the release of the spinlock of the condition variable:
    the mutex has not been touched. *)
Lemma timed_wait_enqueues (abs_timeout : option timespec) (m : cv_mtx) :
  cv_lock (cv_ready ops (m_cv m)) = false ->
  let c0 := cv_ready ops (m_cv m) in
  uth_cond_var_timed_wait_enqueued ops t cvm_cv cvm_mtx abs_timeout m
  = Ok (match abs_timeout with
        | Some _ => Some (set_timeout_blob t (p_cv_sync_obj cvm_cv)
                            (p_cv_lock cvm_cv))
        | None => None
        end,
        {| m_cv := set_cv_sync_obj (__uth_sync_enqueue ops t (cv_sync_obj c0)) c0;
           m_mtx := m_mtx m |},
        [EvSpinLock "cv.lock"]
        ++ match abs_timeout with
           | Some abs => [EvSetAlarm t abs]
           | None => []
           end
        ++ [EvYield t; EvHasBlocked t; EvSpinUnlock "cv.lock"]).
Proof.
  destruct m as [[conce cl cq] s].
  unfold cv_ready; cbn [m_cv m_mtx cv_once_ctl].
  intros Hcv. cbv zeta.
  unfold uth_cond_var_timed_wait_enqueued, __cv_wait_cb_enqueued.
  destruct conce; cbn in Hcv; subst;
    destruct abs_timeout as [abs|]; unfold_code; reflexivity.
Qed.

(** The whole wait up to its yield is that, followed by the
    [uth_mutex_unlock] that ends the yield callback. *)
Lemma timed_wait_enqueued_then_unlock (abs_timeout : option timespec)
    (m : cv_mtx) :
  uth_cond_var_timed_wait ops t cvm_cv cvm_mtx abs_timeout m
  = (blob <- uth_cond_var_timed_wait_enqueued ops t cvm_cv cvm_mtx abs_timeout ;;
     uth_mutex_unlock ops cvm_mtx ;;
     ret blob) m.
Proof.
  destruct m as [[conce cl cq] [sonce sc sl sq]].
  unfold uth_cond_var_timed_wait_enqueued, __cv_wait_cb_enqueued.
  destruct conce, cl, sonce, sl, abs_timeout as [abs|]; unfold_code;
    try reflexivity;
    match goal with
    | |- context [__uth_sync_get_next ops ?q] =>
        destruct (__uth_sync_get_next ops q) as [[u|] q']
    end; unfold_code; reflexivity.
Qed.

(** The wait from its restart on: the return value is fixed by the flag of
    the blob, and then the mutex is locked, at once when its count is
    positive, else by queueing on the mutex and yielding again. *)
Lemma timed_wait_restarted (blob : option (timeout_blob cv_mtx)) (m : cv_mtx) :
  sem_lock (mtx_ready ops (m_mtx m)) = false ->
  let s0 := mtx_ready ops (m_mtx m) in
  uth_cond_var_timed_wait_restarted ops t cvm_mtx blob m
  = if 0 <? sem_count s0 then
      Ok (Returned (negb (blob_timed_out blob)),
          {| m_cv := m_cv m;
             m_mtx := set_sem_count (uint (sem_count s0 - 1)) s0 |},
          match blob with Some b => [EvUnsetAlarm (uth b)] | None => [] end
          ++ [EvSpinLock "mtx.lock"; EvSpinUnlock "mtx.lock"])
    else
      Ok (Yielded (negb (blob_timed_out blob), None),
          {| m_cv := m_cv m;
             m_mtx := set_sem_sync_obj
                        (__uth_sync_enqueue ops t (sem_sync_obj s0)) s0 |},
          match blob with Some b => [EvUnsetAlarm (uth b)] | None => [] end
          ++ [EvSpinLock "mtx.lock"; EvYield t; EvHasBlocked t;
              EvSpinUnlock "mtx.lock"]).
Proof.
  destruct m as [c [sonce sc sl sq]].
  unfold mtx_ready; cbn [m_cv m_mtx sem_once_ctl].
  intros Hmtx. cbv zeta.
  destruct sonce; cbn in Hmtx; subst; cbn [sem_count sem_sync_obj].
  - destruct blob as [[[|] u sp lp]|]; unfold_code;
      destruct (0 <? sc); unfold_code; reflexivity.
  - destruct blob as [[[|] u sp lp]|]; unfold_code; reflexivity.
Qed.

(** The wait once restarted after queueing on the mutex returns what had
    been fixed before, and writes nothing. *)
Lemma timed_wait_relocked (ret_ : bool) (m : cv_mtx) :
  uth_cond_var_timed_wait_relocked (ret_, None) m = Ok (ret_, m, []).
Proof. reflexivity. Qed.

End Cv_wait.

(** *** The waiter and the events around it *)

Lemma queued_in (t : uthread) (m : cv_mtx) :
  queued t m = true <-> In t (cv_sync_obj (m_cv m)).
Proof.
  unfold queued. rewrite existsb_exists. split.
  - intros (x & Hin & E). apply Nat.eqb_eq in E. subst. exact Hin.
  - intros Hin. exists t. split; [exact Hin|apply Nat.eqb_refl].
Qed.

Lemma queued_not_in (t : uthread) (m : cv_mtx) :
  queued t m = false <-> ~ In t (cv_sync_obj (m_cv m)).
Proof.
  rewrite <- queued_in. destruct (queued t m); split; congruence.
Qed.

Lemma cause_after_left t by_ before after :
  In t (cv_sync_obj (m_cv before)) -> ~ In t (cv_sync_obj (m_cv after)) ->
  cause_after t by_ before after None = Some by_.
Proof.
  intros Hin Hout. unfold cause_after.
  apply queued_in in Hin. apply queued_not_in in Hout.
  rewrite Hin, Hout. reflexivity.
Qed.

Lemma cause_after_stays t by_ before after :
  In t (cv_sync_obj (m_cv after)) ->
  cause_after t by_ before after None = None.
Proof.
  intros Hin. unfold cause_after. apply queued_in in Hin.
  rewrite Hin. rewrite andb_false_r. reflexivity.
Qed.

Lemma once_in (t : uthread) (q : list uthread) :
  count_occ Nat.eq_dec q t = 1%nat -> In t q.
Proof. intros H. apply (count_occ_In Nat.eq_dec). lia. Qed.

Lemma default_get_uth_other (sync : uth_sync_t) (u t : uthread) :
  u <> t ->
  count_occ Nat.eq_dec (snd (uth_default_sync_get_uth sync u)) t
  = count_occ Nat.eq_dec sync t.
Proof.
  intros Hne. induction sync as [|i rest IH]; [reflexivity|].
  cbn [uth_default_sync_get_uth].
  destruct (Nat.eqb_spec i u) as [->|Hiu]; cbn [snd].
  - rewrite count_occ_cons_neq by exact Hne. reflexivity.
  - destruct (uth_default_sync_get_uth rest u) as [found rest'].
    cbn [snd] in *. cbn [count_occ]. rewrite IH. reflexivity.
Qed.

Lemma default_get_uth_length (sync : uth_sync_t) (u : uthread) :
  (List.length (snd (uth_default_sync_get_uth sync u)) <= List.length sync)%nat.
Proof.
  induction sync as [|i rest IH]; [cbn; lia|].
  cbn [uth_default_sync_get_uth].
  destruct (Nat.eqb i u); cbn [snd List.length]; [lia|].
  destruct (uth_default_sync_get_uth rest u) as [found rest'].
  cbn [snd List.length] in *. lia.
Qed.

Lemma default_get_uth_once (sync : uth_sync_t) (t : uthread) :
  count_occ Nat.eq_dec sync t = 1%nat ->
  fst (uth_default_sync_get_uth sync t) = true /\
  ~ In t (snd (uth_default_sync_get_uth sync t)).
Proof.
  intros Hone. split.
  - apply default_get_uth_found. apply once_in. exact Hone.
  - destruct (default_get_uth_rest sync t (once_in t sync Hone))
      as (before & after & -> & Hnot & ->).
    rewrite count_occ_app, count_occ_cons_eq in Hone by reflexivity.
    assert (Hafter : count_occ Nat.eq_dec after t = 0%nat)
      by (unfold uthread in *; lia).
    apply (count_occ_not_In Nat.eq_dec) in Hafter.
    rewrite in_app_iff. tauto.
Qed.

Lemma handler_on_cv bulk (u : uthread) (flag : bool) (c : uth_cond_var)
    (s : uth_semaphore) :
  cv_lock c = false ->
  timeout_handler (generic_2ls bulk) (wait_blob u flag)
    {| m_cv := c; m_mtx := s |}
  = Ok (wait_blob u (fst (uth_default_sync_get_uth (cv_sync_obj c) u) || flag),
        {| m_cv := set_cv_sync_obj
                     (snd (uth_default_sync_get_uth (cv_sync_obj c) u)) c;
           m_mtx := s |},
        [EvSpinLock "cv.lock"; EvSpinUnlock "cv.lock"]
        ++ (if fst (uth_default_sync_get_uth (cv_sync_obj c) u) || flag
            then [EvRunnable u] else [])).
Proof.
  destruct c as [once l q]; cbn [cv_lock cv_sync_obj]; intros ->.
  unfold wait_blob. unfold_prog.
  destruct (uth_default_sync_get_uth q u) as [[|] rest]; destruct flag;
    reflexivity.
Qed.

Lemma env_step_inv bulk (fuel : nat) (t : uthread) (e : cv_event) (w : waiter) :
  waiter_inv t w -> of_others t e ->
  (List.length (cv_sync_obj (m_cv (w_mem w))) < fuel)%nat ->
  exists w',
    cv_env_step (generic_2ls bulk) fuel t e w = Ok w' /\
    waiter_inv t w' /\
    (List.length (cv_sync_obj (m_cv (w_mem w')))
     <= S (List.length (cv_sync_obj (m_cv (w_mem w)))))%nat.
Proof.
  destruct w as [[[conce cl q] [sonce sc sl sq]] blob cause].
  unfold waiter_inv;
    cbn [w_mem w_blob w_cause m_cv m_mtx cv_once_ctl cv_lock cv_sync_obj
         sem_once_ctl sem_lock].
  intros (-> & -> & -> & -> & Hblob & Hcause) Hother Hfuel.
  destruct e as [| | |u abs|u|u|]; unfold cv_env_step;
    cbn [w_mem w_blob w_cause].
  - (* signal *)
    destruct q as [|h q']; unfold_prog.
    + eexists. split; [reflexivity|].
      cbn [w_mem w_blob w_cause m_cv m_mtx cv_once_ctl cv_lock cv_sync_obj
           sem_once_ctl sem_lock List.length].
      split; [|lia]. repeat (split; [reflexivity|]). split; [exact Hblob|].
      destruct cause as [c|]; [exact Hcause|].
      destruct Hcause as [Hone _]. discriminate Hone.
    + eexists. split; [reflexivity|].
      cbn [w_mem w_blob w_cause m_cv m_mtx cv_once_ctl cv_lock cv_sync_obj
           sem_once_ctl sem_lock List.length].
      split; [|lia]. repeat (split; [reflexivity|]). split; [exact Hblob|].
      destruct cause as [c|].
      * cbn [cause_after]. destruct c; (split; [|apply Hcause]);
          intros Hin; apply (proj1 Hcause); right; exact Hin.
      * destruct Hcause as [Hone Hflag].
        destruct (Nat.eq_dec h t) as [->|Hne].
        -- rewrite count_occ_cons_eq in Hone by reflexivity.
           assert (Hout : ~ In t q').
           { apply (count_occ_not_In Nat.eq_dec). unfold uthread in *. lia. }
           rewrite cause_after_left; [split; assumption|left; reflexivity|exact Hout].
        -- rewrite count_occ_cons_neq in Hone by exact Hne.
           rewrite cause_after_stays; [split; assumption|].
           apply once_in. exact Hone.
  - (* broadcast *)
    destruct q as [|h q'].
    + unfold_prog. eexists. split; [reflexivity|].
      cbn [w_mem w_blob w_cause m_cv m_mtx cv_once_ctl cv_lock cv_sync_obj
           sem_once_ctl sem_lock List.length].
      split; [|lia]. repeat (split; [reflexivity|]). split; [exact Hblob|].
      destruct cause as [c|]; [exact Hcause|].
      destruct Hcause as [Hone _]. discriminate Hone.
    + assert (E : exists tr,
                 uth_cond_var_broadcast (generic_2ls bulk) fuel cvm_cv
                   {| m_cv := {| cv_once_ctl := true; cv_lock := false;
                                 cv_sync_obj := h :: q' |};
                      m_mtx := {| sem_once_ctl := true; sem_count := sc;
                                  sem_lock := false; sem_sync_obj := sq |} |}
                 = Ok (tt,
                       {| m_cv := {| cv_once_ctl := true; cv_lock := false;
                                     cv_sync_obj := [] |};
                          m_mtx := {| sem_once_ctl := true; sem_count := sc;
                                      sem_lock := false; sem_sync_obj := sq |} |},
                       tr)).
      { destruct bulk as [hook|]; unfold_prog.
        - eexists; reflexivity.
        - rewrite (wake_each_default None (h :: q')) by exact Hfuel.
          eexists; reflexivity. }
      destruct E as [tr ->].
      eexists. split; [reflexivity|].
      cbn [w_mem w_blob w_cause m_cv m_mtx cv_once_ctl cv_lock cv_sync_obj
           sem_once_ctl sem_lock List.length].
      split; [|lia]. repeat (split; [reflexivity|]). split; [exact Hblob|].
      destruct cause as [c|].
      * cbn [cause_after]. destruct c; (split; [|apply Hcause]);
          intros Hin; destruct Hin.
      * destruct Hcause as [Hone Hflag].
        rewrite cause_after_left;
          [split; [intros Hin; destruct Hin|exact Hflag]
          |apply once_in; exact Hone
          |intros Hin; destruct Hin].
  - (* the alarm of the waiter *)
    destruct Hblob as [->|Hblob].
    + eexists. split; [reflexivity|].
      cbn [w_mem w_blob w_cause m_cv m_mtx cv_once_ctl cv_lock cv_sync_obj
           sem_once_ctl sem_lock List.length].
      split; [|lia]. repeat (split; [reflexivity|]). split; [left; reflexivity|].
      exact Hcause.
    + rewrite Hblob. rewrite handler_on_cv by reflexivity.
      unfold set_cv_sync_obj. cbn [cv_sync_obj cv_once_ctl cv_lock].
      eexists. split; [reflexivity|].
      cbn [w_mem w_blob w_cause m_cv m_mtx cv_once_ctl cv_lock cv_sync_obj
           sem_once_ctl sem_lock blob_timed_out timed_out wait_blob].
      split; [|pose proof (default_get_uth_length q t); nlia].
      repeat (split; [reflexivity|]). split; [right; reflexivity|].
      destruct cause as [c|].
      * assert (Hout : ~ In t q) by (destruct c; apply Hcause).
        rewrite (default_get_uth_absent q t Hout). cbn [fst snd orb cause_after].
        exact Hcause.
      * destruct Hcause as [Hone Hflag].
        destruct (default_get_uth_once q t Hone) as [-> Hout].
        cbn [orb].
        rewrite cause_after_left;
          [split; [exact Hout|reflexivity]|apply once_in; exact Hone|exact Hout].
  - (* another uthread gets on the wait queue *)
    cbn [of_others] in Hother.
    rewrite timed_wait_enqueues by reflexivity.
    eexists. split; [reflexivity|].
    unfold cv_ready;
      cbn [w_mem w_blob w_cause m_cv m_mtx cv_once_ctl cv_lock cv_sync_obj
           sem_once_ctl sem_lock set_cv_sync_obj].
    unfold __uth_sync_enqueue, uth_default_sync_enqueue; cbn [sync_enqueue generic_2ls].
    rewrite length_app; cbn [List.length].
    split; [|lia]. repeat (split; [reflexivity|]).
    split; [exact Hblob|].
    assert (Hcount : count_occ Nat.eq_dec (q ++ [u]) t = count_occ Nat.eq_dec q t).
    { rewrite count_occ_app, count_occ_cons_neq by exact Hother.
      cbn [count_occ]. nlia. }
    assert (Hin : In t (q ++ [u]) -> In t q).
    { rewrite in_app_iff. intros [H|[H|[]]]; [exact H|contradiction]. }
    destruct cause as [[| |]|]; try (split; [|apply Hcause]).
    all: try (intros H; apply (proj1 Hcause); apply Hin; exact H).
    rewrite Hcount. apply Hcause.
  - (* the alarm of another uthread *)
    cbn [of_others] in Hother.
    change (set_timeout_blob u (p_cv_sync_obj cvm_cv) (p_cv_lock cvm_cv))
      with (wait_blob u false).
    rewrite handler_on_cv by reflexivity.
    unfold set_cv_sync_obj. cbn [cv_sync_obj cv_once_ctl cv_lock].
    eexists. split; [reflexivity|].
    cbn [w_mem w_blob w_cause m_cv m_mtx cv_once_ctl cv_lock cv_sync_obj
         sem_once_ctl sem_lock].
    split; [|pose proof (default_get_uth_length q u); nlia].
    repeat (split; [reflexivity|]). split; [exact Hblob|].
    pose proof (default_get_uth_other q Hother) as Hcount.
    assert (Hin : ~ In t q -> ~ In t (snd (uth_default_sync_get_uth q u))).
    { intros Hout. apply (count_occ_not_In Nat.eq_dec). rewrite Hcount.
      apply (count_occ_not_In Nat.eq_dec). exact Hout. }
    destruct cause as [[| |]|]; try (split; [|apply Hcause]).
    all: try (apply Hin; apply Hcause).
    rewrite Hcount. apply Hcause.
  - (* a uthread locks the mutex *)
    unfold_prog. destruct (0 <? sc); unfold_prog;
      (eexists; split; [reflexivity|]);
      cbn [w_mem w_blob w_cause m_cv m_mtx cv_once_ctl cv_lock cv_sync_obj
           sem_once_ctl sem_lock];
      (split; [|lia]); repeat (split; [reflexivity|]);
      (split; [exact Hblob|exact Hcause]).
  - (* the mutex is unlocked *)
    unfold_prog. destruct sq as [|h sq']; unfold_prog;
      (eexists; split; [reflexivity|]);
      cbn [w_mem w_blob w_cause m_cv m_mtx cv_once_ctl cv_lock cv_sync_obj
           sem_once_ctl sem_lock];
      (split; [|lia]); repeat (split; [reflexivity|]);
      (split; [exact Hblob|exact Hcause]).
Qed.

Lemma env_step_untimed ops (fuel : nat) (t : uthread) (e : cv_event)
    (w w' : waiter) :
  w_blob w = None -> cv_env_step ops fuel t e w = Ok w' -> w_blob w' = None.
Proof.
  intros Hblob E. destruct e; unfold cv_env_step in E; rewrite ?Hblob in E;
    try match type of E with
        | match ?p with _ => _ end = _ =>
            destruct p as [[[? ?] ?]|]; [|discriminate E]
        end;
    inversion E; subst; try exact Hblob; reflexivity.
Qed.

Lemma env_run_inv bulk (t : uthread) (events : list cv_event) :
  forall (fuel : nat) (w : waiter),
    waiter_inv t w -> Forall (of_others t) events ->
    (List.length (cv_sync_obj (m_cv (w_mem w))) + List.length events < fuel)%nat ->
    exists w',
      cv_env_run (generic_2ls bulk) fuel t events w = Ok w' /\
      waiter_inv t w' /\
      (w_blob w = None -> w_blob w' = None).
Proof.
  induction events as [|e events IH]; intros fuel w Hinv Hothers Hfuel.
  - exists w. cbn. tauto.
  - inversion Hothers as [|e' events' Hother Hrest]; subst.
    cbn [List.length] in Hfuel.
    destruct (@env_step_inv bulk fuel t e w Hinv Hother ltac:(lia))
      as (w1 & E1 & Hinv1 & Hlen).
    destruct (IH fuel w1 Hinv1 Hrest ltac:(lia)) as (w2 & E2 & Hinv2 & Hblob2).
    exists w2. cbn [cv_env_run]. rewrite E1. split; [exact E2|].
    split; [exact Hinv2|]. intros Hblob. apply Hblob2.
    eapply env_step_untimed; [exact Hblob|exact E1].
Qed.

(** From the yield of a wait on: whatever the events, the waiter is still
    queued or has come off the queue for one cause, which fixes what the
    restarted call returns. *)
Lemma woken_then_restarted bulk (t : uthread) (abs_timeout : option timespec)
    (cq : uth_sync_t) (s1 : uth_semaphore) :
  ~ In t cq -> sem_once_ctl s1 = true -> sem_lock s1 = false ->
    forall (events : list cv_event) (fuel : nat),
      Forall (of_others t) events ->
      (List.length cq + 1 + List.length events < fuel)%nat ->
      exists w,
        cv_env_run (generic_2ls bulk) fuel t events
          {| w_mem := {| m_cv := {| cv_once_ctl := true; cv_lock := false;
                                     cv_sync_obj := cq ++ [t] |};
                          m_mtx := s1 |};
             w_blob := match abs_timeout with
                       | Some _ => Some (wait_blob t false)
                       | None => None
                       end;
             w_cause := None |} = Ok w /\
        match w_cause w with
        | None => In t (cv_sync_obj (m_cv (w_mem w)))
        | Some cause =>
            ~ In t (cv_sync_obj (m_cv (w_mem w))) /\
            (abs_timeout = None -> cause <> ByTimeout) /\
            exists out m2 tr2,
              uth_cond_var_timed_wait_restarted (generic_2ls bulk) t cvm_mtx
                (w_blob w) (w_mem w) = Ok (out, m2, tr2) /\
              wait_result out
              = match cause with ByTimeout => false | _ => true end /\
              m_cv m2 = m_cv (w_mem w) /\
              match out with
              | Returned _ =>
                  0 < sem_count (m_mtx (w_mem w)) /\
                  sem_count (m_mtx m2)
                  = uint (sem_count (m_mtx (w_mem w)) - 1) /\
                  sem_sync_obj (m_mtx m2) = sem_sync_obj (m_mtx (w_mem w))
              | Yielded frame2 =>
                  sem_count (m_mtx (w_mem w)) <= 0 /\
                  sem_count (m_mtx m2) = sem_count (m_mtx (w_mem w)) /\
                  sem_sync_obj (m_mtx m2)
                  = sem_sync_obj (m_mtx (w_mem w)) ++ [t] /\
                  forall m3,
                    uth_cond_var_timed_wait_relocked frame2 m3
                    = Ok (wait_result out, m3, [])
              end
        end.
Proof.
  intros Hnew Honce Hlock events fuel Hothers Hfuel.
  match goal with
  | |- context [cv_env_run _ _ _ _ ?w0] =>
      destruct (@env_run_inv bulk t events fuel w0) as (w & E & Hinv & Hblob)
  end.
  - unfold waiter_inv;
      cbn [w_mem w_blob w_cause m_cv m_mtx cv_once_ctl cv_lock cv_sync_obj].
    split; [reflexivity|]. split; [reflexivity|].
    split; [exact Honce|]. split; [exact Hlock|].
    split; [destruct abs_timeout; [right|left]; reflexivity|].
    split; [|destruct abs_timeout; reflexivity].
    rewrite count_occ_app, count_occ_cons_eq by reflexivity.
    apply (count_occ_not_In Nat.eq_dec) in Hnew. cbn [count_occ]. nlia.
  - exact Hothers.
  - cbn [w_mem m_cv cv_sync_obj].
    rewrite length_app. cbn [List.length]. nlia.
  - exists w. split; [exact E|].
    destruct w as [[wc [wsonce wsc wsl wsq]] wblob wcause].
    unfold waiter_inv in Hinv;
      cbn [w_mem w_blob w_cause m_cv m_mtx sem_once_ctl sem_lock sem_count
           sem_sync_obj] in *.
    destruct Hinv as (_ & _ & -> & -> & _ & Hcause).
    destruct wcause as [cause|]; [|apply once_in; apply Hcause].
    assert (Hout : ~ In t (cv_sync_obj wc)) by (destruct cause; apply Hcause).
    assert (Hflag : negb (blob_timed_out wblob)
                    = match cause with ByTimeout => false | _ => true end).
    { destruct cause; destruct Hcause as [_ ->]; reflexivity. }
    split; [exact Hout|]. split.
    { intros ->. specialize (Hblob eq_refl). subst wblob.
      destruct cause; destruct Hcause as [_ Habs]; discriminate. }
    rewrite timed_wait_restarted by reflexivity.
    unfold mtx_ready; cbn [m_cv m_mtx sem_once_ctl sem_count sem_sync_obj].
    unfold __uth_sync_enqueue, uth_default_sync_enqueue;
      cbn [generic_2ls sync_enqueue].
    destruct (0 <? wsc) eqn:Hpos.
    + do 3 eexists. split; [reflexivity|]. cbn [wait_result].
      split; [exact Hflag|]. split; [reflexivity|].
      cbn [m_mtx sem_count sem_sync_obj set_sem_count].
      repeat split. lia.
    + do 3 eexists. split; [reflexivity|]. cbn [wait_result fst].
      split; [exact Hflag|]. split; [reflexivity|].
      cbn [m_mtx sem_count sem_sync_obj set_sem_sync_obj].
      repeat split. lia.
Qed.

(** C3. [uth_cond_var_timed_wait] by a uthread [t] that holds the mutex
    (which is therefore initialized), on the default sync object.
    - The call up to its yield is the part that gets [t] on the wait queue
      followed by the [uth_mutex_unlock] that ends the yield callback.
    - The first part, with the spinlock of the condition variable free,
      takes that spinlock, arms the alarm when there is a deadline, enqueues
      [t] at the tail of the wait queue in the yield callback, an access
      that does not go through unless the spinlock is held, and releases
      the spinlock.  The mutex has not been touched by then: [t] is on the
      queue before the mutex is released, which is what the mutex unlock of
      the callback then does.  In no memory at all does the call stop on an
      access made without the spinlock that protects it.
    - From the release of the spinlock on, whatever signals, broadcasts,
      alarms, other waiters, locks and unlocks of the mutex come next, the
      unlock of the callback being one of them and coming at any point or
      not yet, [t] is either still in the wait queue, or it has come off it
      through exactly one of signal, broadcast and the handler of its own
      alarm, the last only when there was a deadline.  The restarted call
      then fixes its return value, TRUE after a signal or a broadcast and
      FALSE after a timeout, and goes on to lock the mutex: it returns that
      value with the count of the mutex taken, or else queues [t] on the
      mutex and yields, and returns that same value once restarted from
      there, which takes an unlocker handing the mutex over. *)
Theorem cv_timed_wait_contract bulk (t : uthread)
    (abs_timeout : option timespec) (m : cv_mtx) :
  cv_lock (cv_ready (generic_2ls bulk) (m_cv m)) = false ->
  sem_once_ctl (m_mtx m) = true -> sem_lock (m_mtx m) = false ->
  ~ In t (cv_sync_obj (cv_ready (generic_2ls bulk) (m_cv m))) ->
  let c0 := cv_ready (generic_2ls bulk) (m_cv m) in
  let s0 := m_mtx m in
  exists frame m1 m1',
    (forall (any : cv_mtx) (a : addr),
        uth_cond_var_timed_wait (generic_2ls bulk) t cvm_cv cvm_mtx
          abs_timeout any <> Stuck (Racing a) /\
        uth_cond_var_timed_wait_enqueued (generic_2ls bulk) t cvm_cv cvm_mtx
          abs_timeout any <> Stuck (Racing a)) /\
    uth_cond_var_timed_wait (generic_2ls bulk) t cvm_cv cvm_mtx abs_timeout m
    = (blob <- uth_cond_var_timed_wait_enqueued (generic_2ls bulk) t cvm_cv
                 cvm_mtx abs_timeout ;;
       uth_mutex_unlock (generic_2ls bulk) cvm_mtx ;;
       ret blob) m /\
    uth_cond_var_timed_wait_enqueued (generic_2ls bulk) t cvm_cv cvm_mtx
      abs_timeout m
    = Ok (frame, m1,
          [EvSpinLock "cv.lock"]
          ++ match abs_timeout with
             | Some abs => [EvSetAlarm t abs]
             | None => []
             end
          ++ [EvYield t; EvHasBlocked t; EvSpinUnlock "cv.lock"]) /\
    m_cv m1 = set_cv_sync_obj (cv_sync_obj c0 ++ [t]) c0 /\
    m_mtx m1 = s0 /\
    uth_mutex_unlock (generic_2ls bulk) cvm_mtx m1
    = Ok (tt, m1',
          [EvSpinLock "mtx.lock"; EvSpinUnlock "mtx.lock"]
          ++ match sem_sync_obj s0 with
             | waiter :: _ => [EvRunnable waiter]
             | [] => []
             end) /\
    m_cv m1' = m_cv m1 /\
    m_mtx m1' = match sem_sync_obj s0 with
                | _ :: rest => set_sem_sync_obj rest s0
                | [] => set_sem_count (uint (sem_count s0 + 1)) s0
                end /\
    uth_cond_var_timed_wait (generic_2ls bulk) t cvm_cv cvm_mtx abs_timeout m
    = Ok (frame, m1',
          [EvSpinLock "cv.lock"]
          ++ match abs_timeout with
             | Some abs => [EvSetAlarm t abs]
             | None => []
             end
          ++ [EvYield t; EvHasBlocked t; EvSpinUnlock "cv.lock";
              EvSpinLock "mtx.lock"; EvSpinUnlock "mtx.lock"]
          ++ match sem_sync_obj s0 with
             | waiter :: _ => [EvRunnable waiter]
             | [] => []
             end) /\
    forall (events : list cv_event) (fuel : nat),
      Forall (of_others t) events ->
      (List.length (cv_sync_obj c0) + 1 + List.length events < fuel)%nat ->
      exists w,
        cv_env_run (generic_2ls bulk) fuel t events
          {| w_mem := m1; w_blob := frame; w_cause := None |} = Ok w /\
        match w_cause w with
        | None => In t (cv_sync_obj (m_cv (w_mem w)))
        | Some cause =>
            ~ In t (cv_sync_obj (m_cv (w_mem w))) /\
            (abs_timeout = None -> cause <> ByTimeout) /\
            exists out m2 tr2,
              uth_cond_var_timed_wait_restarted (generic_2ls bulk) t cvm_mtx
                (w_blob w) (w_mem w) = Ok (out, m2, tr2) /\
              wait_result out
              = match cause with ByTimeout => false | _ => true end /\
              m_cv m2 = m_cv (w_mem w) /\
              match out with
              | Returned _ =>
                  0 < sem_count (m_mtx (w_mem w)) /\
                  sem_count (m_mtx m2)
                  = uint (sem_count (m_mtx (w_mem w)) - 1) /\
                  sem_sync_obj (m_mtx m2) = sem_sync_obj (m_mtx (w_mem w))
              | Yielded frame2 =>
                  sem_count (m_mtx (w_mem w)) <= 0 /\
                  sem_count (m_mtx m2) = sem_count (m_mtx (w_mem w)) /\
                  sem_sync_obj (m_mtx m2)
                  = sem_sync_obj (m_mtx (w_mem w)) ++ [t] /\
                  forall m3,
                    uth_cond_var_timed_wait_relocked frame2 m3
                    = Ok (wait_result out, m3, [])
              end
        end.
Proof.
  intros Hcv Honce Hmtx Hnew. cbv zeta.
  pose proof (fun any a =>
                @timed_wait_no_race (generic_2ls bulk) t abs_timeout any a)
    as Hrace.
  assert (Hready : sem_ready (generic_2ls bulk) (m_mtx m) = m_mtx m).
  { unfold sem_ready. rewrite Honce. reflexivity. }
  rewrite <- timed_wait_enqueued_then_unlock.
  rewrite timed_wait_yields by (rewrite ?Hready; assumption).
  rewrite timed_wait_enqueues by assumption.
  rewrite Hready.
  assert (Hc0 : cv_once_ctl (cv_ready (generic_2ls bulk) (m_cv m)) = true).
  { unfold cv_ready. destruct (cv_once_ctl (m_cv m)) eqn:E; [exact E|reflexivity]. }
  destruct (cv_ready (generic_2ls bulk) (m_cv m)) as [conce cl cq].
  destruct (m_mtx m) as [sonce sc sl sq].
  cbn [cv_once_ctl cv_lock cv_sync_obj sem_once_ctl sem_lock sem_sync_obj
       sem_count] in *.
  subst conce cl sonce sl.
  unfold __uth_sync_get_next, __uth_sync_enqueue, uth_default_sync_get_next,
    uth_default_sync_enqueue; cbn [generic_2ls sync_get_next sync_enqueue].
  destruct sq as [|waiter rest]; cbn [fst snd];
    (do 3 eexists; split; [exact Hrace|];
     split; [reflexivity|]; split; [reflexivity|];
     split; [reflexivity|]; split; [reflexivity|];
     split; [unfold_prog; reflexivity|]; split; [reflexivity|];
     split; [reflexivity|]; split; [destruct abs_timeout; reflexivity|]);
    unfold set_cv_sync_obj; cbn [cv_once_ctl cv_lock cv_sync_obj];
    change (set_timeout_blob t (p_cv_sync_obj cvm_cv) (p_cv_lock cvm_cv))
      with (wait_blob t false);
    apply woken_then_restarted; try assumption; reflexivity.
Qed.

Lemma cv_timed_wait_contract_witness :
  exists frame m1 tr1 w out m2 tr2,
    uth_cond_var_timed_wait_enqueued (generic_2ls None) 1%nat cvm_cv cvm_mtx
      (Some (Timespec 5 0))
      {| m_cv := {| cv_once_ctl := true; cv_lock := false;
                    cv_sync_obj := [2%nat] |};
         m_mtx := {| sem_once_ctl := true; sem_count := 0; sem_lock := false;
                     sem_sync_obj := [] |} |} = Ok (frame, m1, tr1) /\
    cv_sync_obj (m_cv m1) = [2%nat; 1%nat] /\
    sem_count (m_mtx m1) = 0 /\
    cv_env_run (generic_2ls None) 9 1%nat
      [CvSignal; CvAlarmFires; CvMutexUnlock; CvSignal]
      {| w_mem := m1; w_blob := frame; w_cause := None |} = Ok w /\
    w_cause w = Some ByTimeout /\
    uth_cond_var_timed_wait_restarted (generic_2ls None) 1%nat cvm_mtx
      (w_blob w) (w_mem w) = Ok (out, m2, tr2) /\
    out = Returned false /\
    sem_count (m_mtx m2) = 0.
Proof.
  pose proof (@cv_timed_wait_contract None 1%nat (Some (Timespec 5 0))
                {| m_cv := {| cv_once_ctl := true; cv_lock := false;
                              cv_sync_obj := [2%nat] |};
                   m_mtx := {| sem_once_ctl := true; sem_count := 0;
                               sem_lock := false; sem_sync_obj := [] |} |}
                eq_refl eq_refl eq_refl
                ltac:(cbn; intros [H|[]]; discriminate H)) as H.
  cbv zeta in H.
  destruct H
    as (frame & m1 & m1' & _ & _ & E & Hcv & Hmtx & _ & _ & _ & _ & Hrun).
  destruct (Hrun [CvSignal; CvAlarmFires; CvMutexUnlock; CvSignal] 9%nat
              ltac:(repeat constructor) ltac:(cbn; lia)) as (w & Ew & Hw).
  exists frame, m1. eexists. exists w.
  vm_compute in E. inversion E; subst frame m1. clear E.
  vm_compute in Ew. inversion Ew; subst w. clear Ew.
  cbn [w_cause w_blob w_mem] in Hw |- *.
  destruct Hw as (_ & _ & out & m2 & tr2 & Er & Hres & _ & Hout).
  exists out, m2, tr2.
  split; [reflexivity|]. split; [reflexivity|]. split; [reflexivity|].
  split; [reflexivity|]. split; [reflexivity|]. split; [exact Er|].
  destruct out as [ret_|frame2].
  - cbn [wait_result] in Hres. subst ret_. split; [reflexivity|].
    destruct Hout as (_ & Hcount & _). exact Hcount.
  - exfalso. destruct Hout as (Hle & _). cbn in Hle. lia.
Defined.

(** ** The scenarios of the specification, run on the embedding *)

(** Sem handoff: with a count of 0 a down yields; the up hands its unit to
    the waiter, which returns once restarted; the count is 0 at the end. *)
Example sem_handoff_scenario :
  exists s0 s1 s2 frame,
    uth_semaphore_init (generic_2ls None) the_sem 0 (UTH_SEMAPHORE_INIT 5)
    = Ok (tt, s0, []) /\
    uth_semaphore_down (generic_2ls None) 1%nat the_sem s0
    = Ok (Yielded frame, s1,
          [EvSpinLock "sem.lock"; EvYield 1%nat; EvHasBlocked 1%nat;
           EvSpinUnlock "sem.lock"]) /\
    uth_semaphore_up (generic_2ls None) the_sem s1
    = Ok (tt, s2,
          [EvSpinLock "sem.lock"; EvSpinUnlock "sem.lock"; EvRunnable 1%nat]) /\
    uth_semaphore_down_restarted frame s2 = Ok (tt, s2, []) /\
    sem_count s2 = 0 /\ sem_sync_obj s2 = [].
Proof.
  do 4 eexists.
  repeat match goal with |- _ /\ _ => split end.
  all: [> (vm_compute; reflexivity) .. ].
Qed.

(** Timed down: with a count of 0 and no up, the alarm handler takes the
    waiter off the queue and the restarted call returns FALSE; a later up
    finds no waiter and leaves a count of 1. *)
Example timed_down_scenario :
  exists s1 s2 s3 blob blob',
    uth_semaphore_timed_down (generic_2ls None) 1%nat the_sem
      (Some (Timespec 0 50000000)) (UTH_SEMAPHORE_INIT 0)
    = Ok (Yielded (Some blob), s1,
          [EvSpinLock "sem.lock"; EvSetAlarm 1%nat (Timespec 0 50000000);
           EvYield 1%nat; EvHasBlocked 1%nat; EvSpinUnlock "sem.lock"]) /\
    timeout_handler (generic_2ls None) blob s1
    = Ok (blob', s2,
          [EvSpinLock "sem.lock"; EvSpinUnlock "sem.lock"; EvRunnable 1%nat]) /\
    uth_semaphore_timed_down_restarted (Some blob') s2
    = Ok (false, s2, [EvUnsetAlarm 1%nat]) /\
    sem_sync_obj s2 = [] /\
    uth_semaphore_up (generic_2ls None) the_sem s2
    = Ok (tt, s3, [EvSpinLock "sem.lock"; EvSpinUnlock "sem.lock"]) /\
    sem_count s3 = 1.
Proof.
  do 5 eexists.
  repeat match goal with |- _ /\ _ => split end.
  all: [> (vm_compute; reflexivity) .. ].
Qed.

(** Recursive reentry: three locks by uthread 1, then three unlocks; after
    the first two unlocks uthread 1 is the lockholder with counts 2 and 1 and
    a trylock by uthread 2 fails, after the third there is no lockholder and
    a trylock by uthread 2 succeeds. *)
Example recursive_reentry_scenario :
  exists r0 r3 r4 r5 r6 r7 tr0 tr3 tr4 tr5 tr6 tr7 tr8,
    uth_recurse_mutex_init (generic_2ls None) the_rmtx
      {| rmtx_once_ctl := false; rmtx_mtx := UTH_SEMAPHORE_INIT 0;
         rmtx_lockholder := None; rmtx_count := 0 |} = Ok (tt, r0, tr0) /\
    run_calls (rmtx_step (generic_2ls None) 1%nat)
      [RLock ByLock; RLock ByLock; RLock ByLock] r0 = Ok (tt, r3, tr3) /\
    rmtx_step (generic_2ls None) 1%nat RUnlock r3 = Ok (tt, r4, tr4) /\
    (rmtx_lockholder r4 = Some 1%nat /\ rmtx_count r4 = 2) /\
    uth_recurse_mutex_trylock (generic_2ls None) 2%nat the_rmtx r4
    = Ok (false, r4, tr7) /\
    rmtx_step (generic_2ls None) 1%nat RUnlock r4 = Ok (tt, r5, tr5) /\
    (rmtx_lockholder r5 = Some 1%nat /\ rmtx_count r5 = 1) /\
    rmtx_step (generic_2ls None) 1%nat RUnlock r5 = Ok (tt, r6, tr6) /\
    (rmtx_lockholder r6 = None /\ rmtx_count r6 = 0) /\
    uth_recurse_mutex_trylock (generic_2ls None) 2%nat the_rmtx r6
    = Ok (true, r7, tr8) /\
    (rmtx_lockholder r7 = Some 2%nat /\ rmtx_count r7 = 1).
Proof.
  do 13 eexists.
  repeat match goal with |- _ /\ _ => split end.
  all: [> (vm_compute; reflexivity) .. ].
Qed.

(** Writer preference: four readers hold the lock, a writer queues, the
    readers leave one by one and the last one hands the lock to the writer;
    four readers queue behind it, and its unlock makes the four runnable
    together. *)
Example rw_writer_preference_scenario :
  exists r1 r2 r3 tr1 tr2 tr3,
    run_calls (rw_step (generic_2ls None) 9)
      [RwRdlock 1%nat; RwRdlock 2%nat; RwRdlock 3%nat; RwRdlock 4%nat;
       RwWrlock 5%nat; RwUnlock; RwUnlock; RwUnlock]
      UTH_RWLOCK_INIT = Ok (tt, r1, tr1) /\
    (rwl_has_writer r1 = false /\ rwl_nr_readers r1 = 1 /\
     rwl_writers r1 = [5%nat]) /\
    run_calls (rw_step (generic_2ls None) 9)
      [RwUnlock; RwRdlock 6%nat; RwRdlock 7%nat; RwRdlock 8%nat;
       RwRdlock 9%nat] r1 = Ok (tt, r2, tr2) /\
    (rwl_has_writer r2 = true /\ rwl_nr_readers r2 = 0 /\
     rwl_readers r2 = [6%nat; 7%nat; 8%nat; 9%nat] /\
     woken tr2 = [5%nat]) /\
    rw_step (generic_2ls None) 9 RwUnlock r2 = Ok (tt, r3, tr3) /\
    (rwl_has_writer r3 = false /\ rwl_nr_readers r3 = 4 /\
     rwl_readers r3 = [] /\
     woken tr3 = [6%nat; 7%nat; 8%nat; 9%nat]).
Proof.
  do 6 eexists.
  repeat match goal with |- _ /\ _ => split end.
  all: [> (vm_compute; reflexivity) .. ].
Qed.

(** * Further properties *)

(** ** The default sync object *)

Lemma enqueue_all_default bulk (uths : list uthread) :
  forall sync : uth_sync_t,
    enqueue_all (generic_2ls bulk) uths sync = sync ++ uths.
Proof.
  unfold enqueue_all.
  induction uths as [|uth uths IH]; intros sync; cbn [fold_left].
  - rewrite app_nil_r. reflexivity.
  - rewrite IH. unfold __uth_sync_enqueue, uth_default_sync_enqueue.
    cbn [generic_2ls sync_enqueue]. rewrite <- app_assoc. reflexivity.
Qed.

(** X1. The default sync object is a FIFO: once initialized, whatever it
    held before, and uthreads enqueued one after the other, it holds exactly
    them; it is empty iff none was enqueued; and [__uth_sync_wake_all] makes
    them runnable in the order they were enqueued, without touching the
    memory of the primitives. *)
Theorem default_sync_wakes_in_enqueue_order bulk {Mem : Type}
    (garbage : uth_sync_t) (uths : list uthread) (fuel : nat) (m : Mem) :
  (List.length uths < fuel)%nat ->
  let ops := generic_2ls bulk in
  let sync := enqueue_all ops uths (__uth_sync_init ops garbage) in
  sync = uths /\
  (__uth_sync_is_empty ops sync = true <-> uths = []) /\
  exists tr,
    __uth_sync_wake_all ops fuel sync m = Ok (tt, m, tr) /\
    woken tr = uths.
Proof.
  intros Hfuel. cbv zeta. rewrite enqueue_all_default.
  unfold __uth_sync_init, uth_default_sync_init; cbn [generic_2ls sync_init app].
  split; [reflexivity|]. split.
  - unfold __uth_sync_is_empty, uth_default_sync_is_empty.
    cbn [generic_2ls sync_is_empty].
    destruct uths; split; intros H; try reflexivity; discriminate H.
  - unfold __uth_sync_wake_all. cbn [generic_2ls thread_bulk_runnable].
    destruct bulk as [hook|].
    + eexists. split; [reflexivity|]. cbn. apply app_nil_r.
    + rewrite wake_each_default by exact Hfuel.
      eexists. split; [reflexivity|]. apply woken_runnable.
Qed.

Lemma default_sync_wakes_in_enqueue_order_witness :
  enqueue_all (generic_2ls None) [5%nat; 3%nat; 8%nat]
    (__uth_sync_init (generic_2ls None) [1%nat]) = [5%nat; 3%nat; 8%nat] /\
  exists tr,
    __uth_sync_wake_all (generic_2ls None) 4
      (enqueue_all (generic_2ls None) [5%nat; 3%nat; 8%nat]
         (__uth_sync_init (generic_2ls None) [1%nat])) tt = Ok (tt, tt, tr) /\
    woken tr = [5%nat; 3%nat; 8%nat].
Proof.
  destruct (@default_sync_wakes_in_enqueue_order None unit [1%nat]
              [5%nat; 3%nat; 8%nat] 4%nat tt ltac:(cbn; lia))
    as (Hsync & _ & Hwake).
  split; [exact Hsync|exact Hwake].
Defined.

Lemma default_get_uth_enqueued (sync : uth_sync_t) (uth : uthread) :
  ~ In uth sync ->
  uth_default_sync_get_uth (uth_default_sync_enqueue uth sync) uth
  = (true, sync).
Proof.
  intros Hnot. unfold uth_default_sync_enqueue.
  induction sync as [|i rest IH]; cbn [app uth_default_sync_get_uth].
  - rewrite Nat.eqb_refl. reflexivity.
  - destruct (Nat.eqb_spec i uth) as [->|Hne].
    + exfalso. apply Hnot. left. reflexivity.
    + rewrite IH; [reflexivity|]. intros Hin. apply Hnot. right. exact Hin.
Qed.

(** X2. [uth_default_sync_get_uth]: asked for a uthread that is not in the
    queue it returns FALSE and leaves the queue as it is; asked for one that
    is, it returns TRUE and takes out its first occurrence only, the other
    uthreads keeping their order.  So enqueueing a uthread that was not
    queued and then removing it gives back the queue there was. *)
Theorem default_get_uth_removes_one (sync : uth_sync_t) (uth : uthread) :
  (~ In uth sync -> uth_default_sync_get_uth sync uth = (false, sync)) /\
  (In uth sync ->
   exists before after,
     sync = before ++ uth :: after /\ ~ In uth before /\
     uth_default_sync_get_uth sync uth = (true, before ++ after)) /\
  (~ In uth sync ->
   uth_default_sync_get_uth (uth_default_sync_enqueue uth sync) uth
   = (true, sync)).
Proof.
  split; [apply default_get_uth_absent|]. split.
  - intros Hin.
    destruct (default_get_uth_rest sync uth Hin)
      as (before & after & E & Hnot & Hrest).
    exists before, after. split; [exact E|]. split; [exact Hnot|].
    pose proof (proj2 (default_get_uth_found sync uth) Hin) as Hfound.
    destruct (uth_default_sync_get_uth sync uth) as [found rest].
    cbn [fst snd] in *. subst. reflexivity.
  - apply default_get_uth_enqueued.
Qed.

Lemma default_get_uth_removes_one_witness :
  uth_default_sync_get_uth [4%nat; 6%nat] 9%nat = (false, [4%nat; 6%nat]) /\
  uth_default_sync_get_uth
    (uth_default_sync_enqueue 9%nat [4%nat; 6%nat]) 9%nat
  = (true, [4%nat; 6%nat]).
Proof.
  assert (Hnot : ~ In 9%nat [4%nat; 6%nat])
    by (cbn; intros [H|[H|[]]]; discriminate H).
  split.
  - apply (proj1 (default_get_uth_removes_one [4%nat; 6%nat] 9%nat) Hnot).
  - apply (proj2 (proj2 (default_get_uth_removes_one [4%nat; 6%nat] 9%nat))
             Hnot).
Defined.

(** ** Waking in order *)

Lemma woken_app (tr1 tr2 : trace) : woken (tr1 ++ tr2) = woken tr1 ++ woken tr2.
Proof.
  induction tr1 as [|e tr1 IH]; [reflexivity|].
  destruct e; cbn [app woken]; rewrite IH; try reflexivity.
  rewrite app_assoc. reflexivity.
Qed.

Lemma downs_queue_up bulk (uths : list uthread) :
  forall (sync : uth_sync_t),
  exists tr,
    run_calls (sem_step (generic_2ls bulk)) (map SemDown uths)
      {| sem_once_ctl := true; sem_count := 0; sem_lock := false;
         sem_sync_obj := sync |}
    = Ok (tt, {| sem_once_ctl := true; sem_count := 0; sem_lock := false;
                 sem_sync_obj := sync ++ uths |}, tr) /\
    woken tr = [].
Proof.
  induction uths as [|uth uths IH]; intros sync.
  - exists []. cbn. rewrite app_nil_r. split; reflexivity.
  - destruct (IH (sync ++ [uth])) as (tr & E & Hw).
    cbn [map run_calls]. unfold bind at 1.
    replace (sem_step (generic_2ls bulk) (SemDown uth)
               {| sem_once_ctl := true; sem_count := 0; sem_lock := false;
                  sem_sync_obj := sync |})
      with (Ok (tt, {| sem_once_ctl := true; sem_count := 0;
                       sem_lock := false; sem_sync_obj := sync ++ [uth] |},
                [EvSpinLock "sem.lock"; EvYield uth; EvHasBlocked uth;
                 EvSpinUnlock "sem.lock"]))
      by (unfold_prog; reflexivity).
    rewrite E. rewrite <- app_assoc. eexists. split; [reflexivity|].
    cbn [app woken]. exact Hw.
Qed.

Lemma ups_without_waiter bulk (n : nat) :
  forall count : Z,
    0 <= count -> count + Z.of_nat n <= UINT_MAX ->
    run_calls (sem_step (generic_2ls bulk)) (repeat SemUp n)
      {| sem_once_ctl := true; sem_count := count; sem_lock := false;
         sem_sync_obj := [] |}
    = Ok (tt, {| sem_once_ctl := true; sem_count := count + Z.of_nat n;
                 sem_lock := false; sem_sync_obj := [] |},
          List.concat (repeat [EvSpinLock "sem.lock"; EvSpinUnlock "sem.lock"] n)).
Proof.
  induction n as [|n IH]; intros count Hpos Hmax.
  - cbn. rewrite Z.add_0_r. reflexivity.
  - rewrite Nat2Z.inj_succ in Hmax.
    cbn [repeat run_calls List.concat]. unfold bind at 1.
    replace (sem_step (generic_2ls bulk) SemUp
               {| sem_once_ctl := true; sem_count := count; sem_lock := false;
                  sem_sync_obj := [] |})
      with (Ok (tt, {| sem_once_ctl := true; sem_count := count + 1;
                       sem_lock := false; sem_sync_obj := [] |},
                [EvSpinLock "sem.lock"; EvSpinUnlock "sem.lock"]))
      by (unfold_prog; rewrite uint_small by ulia; reflexivity).
    rewrite IH by ulia. do 4 f_equal. lia.
Qed.

Lemma woken_locks (n : nat) :
  woken (List.concat (repeat [EvSpinLock "sem.lock"; EvSpinUnlock "sem.lock"] n)) = [].
Proof. induction n as [|n IH]; [reflexivity|exact IH]. Qed.

Lemma ups_wake_the_head bulk (sync : uth_sync_t) :
  forall n : nat,
    Z.of_nat (n - List.length sync) <= UINT_MAX ->
    exists tr,
      run_calls (sem_step (generic_2ls bulk)) (repeat SemUp n)
        {| sem_once_ctl := true; sem_count := 0; sem_lock := false;
           sem_sync_obj := sync |}
      = Ok (tt, {| sem_once_ctl := true;
                   sem_count := Z.of_nat (n - List.length sync);
                   sem_lock := false; sem_sync_obj := skipn n sync |}, tr) /\
      woken tr = firstn n sync.
Proof.
  induction sync as [|uth sync IH]; intros n Hmax.
  - rewrite ups_without_waiter by (cbn in Hmax; ulia).
    rewrite skipn_nil, firstn_nil. cbn [List.length] in *.
    rewrite Nat.sub_0_r, Z.add_0_l.
    eexists. split; [reflexivity|apply woken_locks].
  - destruct n as [|n].
    + exists []. split; reflexivity.
    + cbn [List.length Nat.sub] in Hmax.
      destruct (IH n Hmax) as (tr & E & Hw).
      cbn [repeat run_calls skipn firstn List.length Nat.sub].
      unfold bind at 1.
      replace (sem_step (generic_2ls bulk) SemUp
                 {| sem_once_ctl := true; sem_count := 0; sem_lock := false;
                    sem_sync_obj := uth :: sync |})
        with (Ok (tt, {| sem_once_ctl := true; sem_count := 0;
                         sem_lock := false; sem_sync_obj := sync |},
                  [EvSpinLock "sem.lock"; EvSpinUnlock "sem.lock";
                   EvRunnable uth]))
        by (unfold_prog; reflexivity).
      rewrite E. eexists. split; [reflexivity|].
      cbn [app woken]. rewrite Hw. reflexivity.
Qed.

(** X3. Handoff in order.  On an initialized semaphore with a count of 0
    and nobody waiting, downs by the uthreads of a list all yield, and [n] ups
    after them make runnable the first [n] of those uthreads, in the order of
    their downs; the uthreads not yet served stay queued in that order, and
    only the ups that found nobody waiting are added to the count. *)
Theorem sem_ups_serve_downs_in_order bulk (uths : list uthread) (n : nat) :
  Z.of_nat (n - List.length uths) <= UINT_MAX ->
  exists tr,
    run_calls (sem_step (generic_2ls bulk))
      (map SemDown uths ++ repeat SemUp n)
      {| sem_once_ctl := true; sem_count := 0; sem_lock := false;
         sem_sync_obj := [] |}
    = Ok (tt, {| sem_once_ctl := true;
                 sem_count := Z.of_nat (n - List.length uths);
                 sem_lock := false; sem_sync_obj := skipn n uths |}, tr) /\
    woken tr = firstn n uths.
Proof.
  intros Hmax.
  destruct (downs_queue_up bulk uths []) as (tr1 & E1 & Hw1).
  destruct (ups_wake_the_head bulk uths n Hmax) as (tr2 & E2 & Hw2).
  exists (tr1 ++ tr2). split.
  - eapply run_calls_app; [exact E1|exact E2].
  - rewrite woken_app, Hw1, Hw2. reflexivity.
Qed.

Lemma sem_ups_serve_downs_in_order_witness :
  exists tr,
    run_calls (sem_step (generic_2ls None))
      (map SemDown [4%nat; 2%nat; 7%nat] ++ repeat SemUp 2)
      {| sem_once_ctl := true; sem_count := 0; sem_lock := false;
         sem_sync_obj := [] |}
    = Ok (tt, {| sem_once_ctl := true; sem_count := 0; sem_lock := false;
                 sem_sync_obj := [7%nat] |}, tr) /\
    woken tr = [4%nat; 2%nat].
Proof.
  apply (@sem_ups_serve_downs_in_order None [4%nat; 2%nat; 7%nat] 2%nat).
  cbn. unfold UINT_MAX. lia.
Defined.

Lemma signals_wake_the_head bulk (sync : uth_sync_t) :
  forall n : nat,
  exists tr,
    signals (generic_2ls bulk) n
      {| cv_once_ctl := true; cv_lock := false; cv_sync_obj := sync |}
    = Ok (tt, {| cv_once_ctl := true; cv_lock := false;
                 cv_sync_obj := skipn n sync |}, tr) /\
    woken tr = firstn n sync.
Proof.
  unfold signals.
  induction sync as [|uth sync IH]; intros n.
  - rewrite skipn_nil, firstn_nil.
    induction n as [|n IHn]; [exists []; split; reflexivity|].
    destruct IHn as (tr & E & Hw).
    cbn [repeat run_calls]. unfold bind at 1.
    replace (uth_cond_var_signal (generic_2ls bulk) the_cv
               {| cv_once_ctl := true; cv_lock := false; cv_sync_obj := [] |})
      with (Ok (tt, {| cv_once_ctl := true; cv_lock := false;
                       cv_sync_obj := [] |},
                [EvSpinLock "cv.lock"; EvSpinUnlock "cv.lock"]))
      by (unfold_prog; reflexivity).
    rewrite E. eexists. split; [reflexivity|]. cbn [app woken]. exact Hw.
  - destruct n as [|n]; [exists []; split; reflexivity|].
    destruct (IH n) as (tr & E & Hw).
    cbn [repeat run_calls skipn firstn]. unfold bind at 1.
    replace (uth_cond_var_signal (generic_2ls bulk) the_cv
               {| cv_once_ctl := true; cv_lock := false;
                  cv_sync_obj := uth :: sync |})
      with (Ok (tt, {| cv_once_ctl := true; cv_lock := false;
                       cv_sync_obj := sync |},
                [EvSpinLock "cv.lock"; EvSpinUnlock "cv.lock";
                 EvRunnable uth]))
      by (unfold_prog; reflexivity).
    rewrite E. eexists. split; [reflexivity|].
    cbn [app woken]. rewrite Hw. reflexivity.
Qed.

(** X4. Signals wake in order and are not remembered.  On an initialized
    condition variable with a free spinlock, [n] calls to
    [uth_cond_var_signal] make runnable the first [n] waiters of the queue,
    in queue order, and leave the others queued; signals in excess of the
    waiters leave no mark, the condition variable being the one with an
    empty queue however many there were. *)
Theorem signals_wake_in_order bulk (c : uth_cond_var) (n : nat) :
  cv_once_ctl c = true -> cv_lock c = false ->
  exists tr,
    signals (generic_2ls bulk) n c
    = Ok (tt, set_cv_sync_obj (skipn n (cv_sync_obj c)) c, tr) /\
    woken tr = firstn n (cv_sync_obj c) /\
    ((List.length (cv_sync_obj c) <= n)%nat ->
     signals (generic_2ls bulk) n c = Ok (tt, set_cv_sync_obj [] c, tr)).
Proof.
  destruct c as [once l sync]; cbn [cv_once_ctl cv_lock cv_sync_obj].
  intros -> ->.
  destruct (signals_wake_the_head bulk sync n) as (tr & E & Hw).
  exists tr. unfold set_cv_sync_obj; cbn [cv_once_ctl cv_lock].
  split; [exact E|]. split; [exact Hw|].
  intros Hlen. rewrite E. rewrite skipn_all2 by exact Hlen. reflexivity.
Qed.

Lemma signals_wake_in_order_witness :
  exists tr,
    signals (generic_2ls None) 2
      {| cv_once_ctl := true; cv_lock := false;
         cv_sync_obj := [4%nat; 2%nat; 7%nat] |}
    = Ok (tt, {| cv_once_ctl := true; cv_lock := false;
                 cv_sync_obj := [7%nat] |}, tr) /\
    woken tr = [4%nat; 2%nat].
Proof.
  destruct (@signals_wake_in_order None
              {| cv_once_ctl := true; cv_lock := false;
                 cv_sync_obj := [4%nat; 2%nat; 7%nat] |} 2%nat
              eq_refl eq_refl) as (tr & E & Hw & _).
  exists tr. split; [exact E|exact Hw].
Defined.

(** ** Timed downs: the alarm against the up *)

Lemma handler_on_sem bulk (u : uthread) (flag : bool) (s : uth_semaphore) :
  sem_lock s = false ->
  timeout_handler (generic_2ls bulk) (down_blob u flag) s
  = Ok (down_blob u (fst (uth_default_sync_get_uth (sem_sync_obj s) u) || flag),
        set_sem_sync_obj (snd (uth_default_sync_get_uth (sem_sync_obj s) u)) s,
        [EvSpinLock "sem.lock"; EvSpinUnlock "sem.lock"]
        ++ (if fst (uth_default_sync_get_uth (sem_sync_obj s) u) || flag
            then [EvRunnable u] else [])).
Proof.
  destruct s as [once c l q]; cbn [sem_lock sem_sync_obj]; intros ->.
  unfold down_blob. unfold_prog.
  destruct (uth_default_sync_get_uth q u) as [[|] rest]; destruct flag;
    reflexivity.
Qed.

Lemma timed_down_yields bulk (t : uthread) (abs : timespec) (s : uth_semaphore) :
  sem_lock (sem_ready (generic_2ls bulk) s) = false ->
  sem_count (sem_ready (generic_2ls bulk) s) = 0 ->
  uth_semaphore_timed_down (generic_2ls bulk) t the_sem (Some abs) s
  = Ok (Yielded (Some (down_blob t false)),
        set_sem_sync_obj
          (sem_sync_obj (sem_ready (generic_2ls bulk) s) ++ [t])
          (sem_ready (generic_2ls bulk) s),
        [EvSpinLock "sem.lock"; EvSetAlarm t abs; EvYield t; EvHasBlocked t;
         EvSpinUnlock "sem.lock"]).
Proof.
  unfold sem_ready. destruct s as [once c l q].
  destruct once; cbn [sem_once_ctl sem_lock sem_count sem_sync_obj];
    intros Hl Hc; subst; unfold_prog; reflexivity.
Qed.

(** X5. A timed down that times out leaves no trace.  On a semaphore with
    a free spinlock and a count of 0, a timed down by a uthread that is not
    already queued takes the spinlock, arms the alarm on the blob that
    [set_timeout_blob] makes, and yields with the uthread put at the tail of
    the queue before the spinlock is released; when its alarm then fires,
    the handler takes exactly that uthread out, an access that does not go
    through unless the handler holds the spinlock, so that the semaphore is
    again the one the down found, and makes it runnable once the spinlock is
    released; the restarted down cancels the alarm and returns FALSE
    without writing to the semaphore.  In no state at all does the down or
    the handler stop on an access made without the spinlock. *)
Theorem timed_out_down_leaves_no_trace bulk (t : uthread) (abs : timespec)
    (s : uth_semaphore) :
  sem_lock (sem_ready (generic_2ls bulk) s) = false ->
  sem_count (sem_ready (generic_2ls bulk) s) = 0 ->
  ~ In t (sem_sync_obj (sem_ready (generic_2ls bulk) s)) ->
  let s0 := sem_ready (generic_2ls bulk) s in
  exists blob s1 tr1 blob',
    (forall (any : uth_semaphore) (a : addr),
        uth_semaphore_timed_down (generic_2ls bulk) t the_sem (Some abs) any
        <> Stuck (Racing a) /\
        timeout_handler (generic_2ls bulk) blob any <> Stuck (Racing a)) /\
    uth_semaphore_timed_down (generic_2ls bulk) t the_sem (Some abs) s
    = Ok (Yielded (Some blob), s1, tr1) /\
    blob = set_timeout_blob t (p_sem_sync_obj the_sem) (p_sem_lock the_sem) /\
    tr1 = [EvSpinLock "sem.lock"; EvSetAlarm t abs; EvYield t; EvHasBlocked t;
           EvSpinUnlock "sem.lock"] /\
    s1 = set_sem_sync_obj (sem_sync_obj s0 ++ [t]) s0 /\
    sem_sync_obj s1 = sem_sync_obj s0 ++ [t] /\
    woken tr1 = [] /\
    timeout_handler (generic_2ls bulk) blob s1
    = Ok (blob', s0,
          [EvSpinLock "sem.lock"; EvSpinUnlock "sem.lock"; EvRunnable t]) /\
    blob' = {| timed_out := true; uth := t;
               sync_ptr := p_sem_sync_obj the_sem;
               lock_ptr := p_sem_lock the_sem |} /\
    uth_semaphore_timed_down_restarted (Some blob') s0
    = Ok (false, s0, [EvUnsetAlarm t]).
Proof.
  intros Hlock Hcount Hnew. cbv zeta.
  rewrite timed_down_yields by assumption.
  destruct (sem_ready (generic_2ls bulk) s) as [once c l q].
  cbn [sem_lock sem_count sem_sync_obj] in *. subst l c.
  unfold set_sem_sync_obj;
    cbn [sem_once_ctl sem_count sem_lock sem_sync_obj].
  do 4 eexists. split; cycle 1.
  - split; [reflexivity|]. split; [reflexivity|].
    split; [reflexivity|]. split; [reflexivity|]. split; [reflexivity|].
    split; [reflexivity|].
    rewrite handler_on_sem by reflexivity. cbn [sem_sync_obj].
    pose proof (default_get_uth_enqueued q t Hnew) as E.
    unfold uth_default_sync_enqueue in E. rewrite E. cbn [fst snd orb].
    repeat split.
  - intros any a. split; [apply timed_down_no_race|].
    apply handler_no_race. exact (proj1 sem_blob_pointers).
Qed.

Lemma timed_out_down_leaves_no_trace_witness :
  exists blob s1 tr1 blob',
    uth_semaphore_timed_down (generic_2ls None) 4%nat the_sem
      (Some (Timespec 0 50000000))
      {| sem_once_ctl := true; sem_count := 0; sem_lock := false;
         sem_sync_obj := [6%nat] |}
    = Ok (Yielded (Some blob), s1, tr1) /\
    tr1 = [EvSpinLock "sem.lock"; EvSetAlarm 4%nat (Timespec 0 50000000);
           EvYield 4%nat; EvHasBlocked 4%nat; EvSpinUnlock "sem.lock"] /\
    sem_sync_obj s1 = [6%nat; 4%nat] /\
    timeout_handler (generic_2ls None) blob s1
    = Ok (blob',
          {| sem_once_ctl := true; sem_count := 0; sem_lock := false;
             sem_sync_obj := [6%nat] |},
          [EvSpinLock "sem.lock"; EvSpinUnlock "sem.lock"; EvRunnable 4%nat]) /\
    uth_semaphore_timed_down_restarted (Some blob')
      {| sem_once_ctl := true; sem_count := 0; sem_lock := false;
         sem_sync_obj := [6%nat] |}
    = Ok (false,
          {| sem_once_ctl := true; sem_count := 0; sem_lock := false;
             sem_sync_obj := [6%nat] |}, [EvUnsetAlarm 4%nat]).
Proof.
  destruct (@timed_out_down_leaves_no_trace None 4%nat
              (Timespec 0 50000000)
              {| sem_once_ctl := true; sem_count := 0; sem_lock := false;
                 sem_sync_obj := [6%nat] |} eq_refl eq_refl
              ltac:(cbn; intros [H|[]]; discriminate H))
    as (blob & s1 & tr1 & blob' & _ & E & _ & Htr & _ & Hq & _ & Eh & _ & Er).
  exists blob, s1, tr1, blob'.
  split; [exact E|]. split; [exact Htr|]. split; [exact Hq|].
  split; [exact Eh|exact Er].
Defined.

(** X6. An up that comes before the alarm wins.  On a semaphore with a
    free spinlock, a count of 0 and nobody waiting, a timed down yields; the
    up that follows hands its unit to the waiter (the count stays 0) and
    makes it runnable; the alarm firing after that finds the uthread gone,
    does not set the flag and does not make it runnable a second time; and
    the restarted down returns TRUE. *)
Theorem up_before_alarm_wins bulk (t : uthread) (abs : timespec)
    (s : uth_semaphore) :
  sem_lock (sem_ready (generic_2ls bulk) s) = false ->
  sem_count (sem_ready (generic_2ls bulk) s) = 0 ->
  sem_sync_obj (sem_ready (generic_2ls bulk) s) = [] ->
  let s0 := sem_ready (generic_2ls bulk) s in
  exists blob s1 tr1 blob',
    uth_semaphore_timed_down (generic_2ls bulk) t the_sem (Some abs) s
    = Ok (Yielded (Some blob), s1, tr1) /\
    uth_semaphore_up (generic_2ls bulk) the_sem s1
    = Ok (tt, s0,
          [EvSpinLock "sem.lock"; EvSpinUnlock "sem.lock"; EvRunnable t]) /\
    timeout_handler (generic_2ls bulk) blob s0
    = Ok (blob', s0, [EvSpinLock "sem.lock"; EvSpinUnlock "sem.lock"]) /\
    timed_out blob' = false /\
    uth_semaphore_timed_down_restarted (Some blob') s0
    = Ok (true, s0, [EvUnsetAlarm t]).
Proof.
  intros Hlock Hcount Hempty. cbv zeta.
  rewrite timed_down_yields by assumption.
  assert (Honce : sem_once_ctl (sem_ready (generic_2ls bulk) s) = true).
  { unfold sem_ready. destruct (sem_once_ctl s) eqn:E; [exact E|reflexivity]. }
  destruct (sem_ready (generic_2ls bulk) s) as [once c l q].
  cbn [sem_once_ctl sem_lock sem_count sem_sync_obj] in *. subst.
  do 4 eexists. split; [reflexivity|].
  split; [unfold_prog; reflexivity|].
  rewrite handler_on_sem by reflexivity.
  cbn. repeat split.
Qed.

Lemma up_before_alarm_wins_witness :
  exists blob s1 tr1 blob',
    uth_semaphore_timed_down (generic_2ls None) 4%nat the_sem
      (Some (Timespec 0 50000000))
      {| sem_once_ctl := true; sem_count := 0; sem_lock := false;
         sem_sync_obj := [] |}
    = Ok (Yielded (Some blob), s1, tr1) /\
    uth_semaphore_up (generic_2ls None) the_sem s1
    = Ok (tt,
          {| sem_once_ctl := true; sem_count := 0; sem_lock := false;
             sem_sync_obj := [] |},
          [EvSpinLock "sem.lock"; EvSpinUnlock "sem.lock"; EvRunnable 4%nat]) /\
    timeout_handler (generic_2ls None) blob
      {| sem_once_ctl := true; sem_count := 0; sem_lock := false;
         sem_sync_obj := [] |}
    = Ok (blob',
          {| sem_once_ctl := true; sem_count := 0; sem_lock := false;
             sem_sync_obj := [] |},
          [EvSpinLock "sem.lock"; EvSpinUnlock "sem.lock"]) /\
    timed_out blob' = false /\
    uth_semaphore_timed_down_restarted (Some blob')
      {| sem_once_ctl := true; sem_count := 0; sem_lock := false;
         sem_sync_obj := [] |}
    = Ok (true,
          {| sem_once_ctl := true; sem_count := 0; sem_lock := false;
             sem_sync_obj := [] |}, [EvUnsetAlarm 4%nat]).
Proof.
  apply (@up_before_alarm_wins None 4%nat (Timespec 0 50000000)
           {| sem_once_ctl := true; sem_count := 0; sem_lock := false;
              sem_sync_obj := [] |} eq_refl eq_refl eq_refl).
Defined.

(** ** Mutual exclusion *)

Lemma mutex_step_inv bulk (c : mutex_call) (sys : mutex_sys) :
  mutex_inv sys ->
  exists sys' tr,
    mutex_step (generic_2ls bulk) c sys = Ok (tt, sys', tr) /\ mutex_inv sys'.
Proof.
  destruct sys as [[once cnt l q] holder].
  unfold mutex_inv; cbn [ms_mtx ms_holder sem_once_ctl sem_lock sem_count
                         sem_sync_obj].
  intros (-> & -> & Hholder).
  destruct c as [t|t abs|t| |t]; unfold mutex_step; cbn [ms_mtx ms_holder].
  - (* lock *)
    destruct holder as [h|]; [subst cnt|destruct Hholder as [-> ->]];
      unfold_prog; do 2 eexists; (split; [reflexivity|]);
      cbn; repeat split.
  - (* timed lock *)
    destruct holder as [h|]; [subst cnt|destruct Hholder as [-> ->]];
      unfold_prog; do 2 eexists; (split; [reflexivity|]);
      cbn; repeat split.
  - (* trylock *)
    destruct holder as [h|]; [subst cnt|destruct Hholder as [-> ->]];
      unfold_prog; do 2 eexists; (split; [reflexivity|]);
      cbn; repeat split.
  - (* unlock *)
    destruct holder as [h|].
    + subst cnt. destruct q as [|w rest]; unfold_prog;
        do 2 eexists; (split; [reflexivity|]); cbn; repeat split.
    + do 2 eexists. split; [reflexivity|]. cbn. tauto.
  - (* the alarm of a timed lock *)
    rewrite handler_on_sem by reflexivity. cbn [sem_sync_obj].
    do 2 eexists. split; [reflexivity|].
    cbn [ms_mtx ms_holder set_sem_sync_obj sem_once_ctl sem_lock sem_count
         sem_sync_obj].
    split; [reflexivity|]. split; [reflexivity|].
    destruct holder as [h|]; [exact Hholder|].
    destruct Hholder as [-> ->]. split; reflexivity.
Qed.

(** X7. Mutual exclusion.  A mutex set up by [uth_mutex_init] is free, and
    through every sequence of lock, timed lock, trylock, unlock by the
    holder and alarm firings the count is 1 exactly when nobody holds the
    mutex and 0 when somebody does.  So while a uthread holds it, a trylock
    returns FALSE and a lock yields with the caller queued; and an unlock
    either finds a waiter, which becomes the holder with the count still 0,
    or leaves the mutex free. *)
Theorem mutex_mutual_exclusion bulk :
  (forall garbage : uth_semaphore,
      ends_in (fun mtx => mutex_inv {| ms_mtx := mtx; ms_holder := None |})
        (uth_mutex_init (generic_2ls bulk) the_sem garbage)) /\
  (forall (calls : list mutex_call) (sys : mutex_sys),
      mutex_inv sys ->
      exists sys' tr,
        run_calls (mutex_step (generic_2ls bulk)) calls sys = Ok (tt, sys', tr) /\
        mutex_inv sys') /\
  (forall (sys : mutex_sys) (holder t : uthread),
      mutex_inv sys -> ms_holder sys = Some holder ->
      (exists tr,
          uth_mutex_trylock (generic_2ls bulk) the_sem (ms_mtx sys)
          = Ok (false, ms_mtx sys, tr)) /\
      (exists tr,
          uth_mutex_lock (generic_2ls bulk) t the_sem (ms_mtx sys)
          = Ok (Yielded None,
                set_sem_sync_obj (sem_sync_obj (ms_mtx sys) ++ [t]) (ms_mtx sys),
                tr)) /\
      (exists sys' tr,
          mutex_step (generic_2ls bulk) MtxUnlock sys = Ok (tt, sys', tr) /\
          ms_holder sys' = hd_error (sem_sync_obj (ms_mtx sys)) /\
          woken tr = match sem_sync_obj (ms_mtx sys) with
                     | waiter :: _ => [waiter]
                     | [] => []
                     end /\
          sem_sync_obj (ms_mtx sys') = tl (sem_sync_obj (ms_mtx sys)))).
Proof.
  split; [|split].
  - intros [once cnt l q]. unfold_prog. cbn. unfold mutex_inv; cbn. tauto.
  - induction calls as [|c calls IH]; intros sys Hinv.
    + exists sys, []. split; [reflexivity|exact Hinv].
    + destruct (mutex_step_inv bulk c Hinv) as (sys1 & tr1 & E1 & Hinv1).
      destruct (IH sys1 Hinv1) as (sys2 & tr2 & E2 & Hinv2).
      exists sys2, (tr1 ++ tr2). split; [|exact Hinv2].
      cbn [run_calls]. unfold bind. rewrite E1, E2. reflexivity.
  - intros [[once cnt l q] holder0] holder t.
    unfold mutex_inv; cbn [ms_mtx ms_holder sem_once_ctl sem_lock sem_count
                           sem_sync_obj].
    intros (-> & -> & Hcount) ->. subst cnt.
    split; [|split].
    + unfold_prog. eexists; reflexivity.
    + unfold_prog. eexists; reflexivity.
    + unfold mutex_step; cbn [ms_mtx ms_holder].
      destruct q as [|w rest]; unfold_prog; do 2 eexists;
        (split; [reflexivity|]); cbn; repeat split.
Qed.

Lemma mutex_mutual_exclusion_witness :
  exists sys' tr,
    run_calls (mutex_step (generic_2ls None))
      [MtxLock 1%nat; MtxTrylock 2%nat; MtxLock 3%nat; MtxUnlock;
       MtxTimedLock 4%nat (Timespec 1 0); MtxAlarmFires 4%nat; MtxUnlock]
      {| ms_mtx := {| sem_once_ctl := true; sem_count := 1; sem_lock := false;
                      sem_sync_obj := [] |};
         ms_holder := None |} = Ok (tt, sys', tr) /\
    mutex_inv sys'.
Proof.
  apply (proj1 (proj2 (mutex_mutual_exclusion None))).
  unfold mutex_inv. cbn. repeat split; reflexivity.
Defined.

(** ** Waiting with a recursive mutex *)

(** X8. [uth_cond_var_timed_wait_recurse] gives up the whole recursion
    depth for the wait and restores it on every return.  Up to its yield the
    call leaves the recursive mutex with no lockholder and a count of 0, and
    keeps the count it found in its frame.  Restarted, whatever happened to
    the memory in between, it returns only after writing the caller as
    lockholder and the kept count back, be it at once or after queueing on
    the embedded mutex, and it returns FALSE exactly when the wait timed
    out. *)
Theorem wait_recurse_restores_depth ops (t : uthread)
    (abs_timeout : option timespec) (m : cv_rmtx) :
  cv_lock (cv_ready ops (cr_cv m)) = false ->
  sem_lock (sem_ready ops (rmtx_mtx (cr_rmtx m))) = false ->
  let k := rmtx_count (cr_rmtx m) in
  exists blob m1 tr1,
    uth_cond_var_timed_wait_recurse ops t crm_cv crm_rmtx abs_timeout m
    = Ok ((k, blob), m1, tr1) /\
    rmtx_lockholder (cr_rmtx m1) = None /\
    rmtx_count (cr_rmtx m1) = 0 /\
    cv_sync_obj (cr_cv m1)
    = __uth_sync_enqueue ops t (cv_sync_obj (cv_ready ops (cr_cv m))) /\
    forall (m2 : cv_rmtx) (blob2 : option (timeout_blob cv_rmtx)),
      sem_lock (mtx_ready ops (rmtx_mtx (cr_rmtx m2))) = false ->
      exists out m3 tr3,
        uth_cond_var_timed_wait_recurse_restarted ops t crm_rmtx (k, blob2) m2
        = Ok (out, m3, tr3) /\
        match out with
        | Returned ret_ =>
            ret_ = negb (blob_timed_out blob2) /\
            rmtx_lockholder (cr_rmtx m3) = Some t /\
            rmtx_count (cr_rmtx m3) = k
        | Yielded frame2 =>
            rmtx_lockholder (cr_rmtx m3) = rmtx_lockholder (cr_rmtx m2) /\
            rmtx_count (cr_rmtx m3) = rmtx_count (cr_rmtx m2) /\
            forall m4 : cv_rmtx,
            exists m5,
              uth_cond_var_timed_wait_recurse_relocked t crm_rmtx frame2 m4
              = Ok (negb (blob_timed_out blob2), m5, []) /\
              rmtx_lockholder (cr_rmtx m5) = Some t /\
              rmtx_count (cr_rmtx m5) = k /\
              rmtx_mtx (cr_rmtx m5) = rmtx_mtx (cr_rmtx m4) /\
              cr_cv m5 = cr_cv m4
        end.
Proof.
  destruct m as [[conce cl cq] [ronce [sonce sc sl sq] holder k]].
  unfold cv_ready, sem_ready;
    cbn [cr_cv cr_rmtx rmtx_mtx rmtx_count cv_once_ctl sem_once_ctl].
  intros Hcv Hmtx. cbv zeta.
  assert (Hfirst :
    exists blob m1 tr1,
      uth_cond_var_timed_wait_recurse ops t crm_cv crm_rmtx abs_timeout
        {| cr_cv := {| cv_once_ctl := conce; cv_lock := cl;
                       cv_sync_obj := cq |};
           cr_rmtx := {| rmtx_once_ctl := ronce;
                         rmtx_mtx := {| sem_once_ctl := sonce; sem_count := sc;
                                        sem_lock := sl; sem_sync_obj := sq |};
                         rmtx_lockholder := holder; rmtx_count := k |} |}
      = Ok ((k, blob), m1, tr1) /\
      rmtx_lockholder (cr_rmtx m1) = None /\
      rmtx_count (cr_rmtx m1) = 0 /\
      cv_sync_obj (cr_cv m1)
      = __uth_sync_enqueue ops t
          (cv_sync_obj
             (if conce
              then {| cv_once_ctl := conce; cv_lock := cl; cv_sync_obj := cq |}
              else {| cv_once_ctl := true; cv_lock := false;
                      cv_sync_obj := __uth_sync_init ops cq |}))).
  { destruct conce, sonce; cbn in Hcv, Hmtx; subst;
      destruct abs_timeout as [abs|]; unfold_rest;
      match goal with
      | |- context [__uth_sync_get_next ops ?q] =>
          destruct (__uth_sync_get_next ops q) as [[u|] q']
      end; unfold_rest; do 3 eexists; repeat split. }
  destruct Hfirst as (blob & m1 & tr1 & E & Hholder & Hcount & Hqueue).
  exists blob, m1, tr1. split; [exact E|]. split; [exact Hholder|].
  split; [exact Hcount|]. split; [exact Hqueue|].
  clear. intros [c2 [ronce2 [sonce2 sc2 sl2 sq2] holder2 k2]] blob2.
  unfold mtx_ready; cbn [cr_rmtx rmtx_mtx sem_once_ctl].
  intros Hmtx2.
  destruct sonce2; cbn in Hmtx2; subst.
  - destruct blob2 as [[[|] u sp lp]|]; destruct (0 <? sc2) eqn:Hpos;
      unfold_rest; rewrite ?Hpos; unfold_rest;
      do 3 eexists; (split; [reflexivity|]); cbn;
      repeat split; intros m4; destruct m4 as [c4 [r4 s4 h4 k4]];
      eexists; repeat split.
  - destruct blob2 as [[[|] u sp lp]|];
      unfold_rest; do 3 eexists; (split; [reflexivity|]); cbn;
      repeat split.
Qed.

Lemma wait_recurse_restores_depth_witness :
  exists blob m1 tr1,
    uth_cond_var_timed_wait_recurse (generic_2ls None) 1%nat crm_cv crm_rmtx
      None
      {| cr_cv := {| cv_once_ctl := true; cv_lock := false;
                     cv_sync_obj := [] |};
         cr_rmtx := {| rmtx_once_ctl := true;
                       rmtx_mtx := {| sem_once_ctl := true; sem_count := 0;
                                      sem_lock := false; sem_sync_obj := [] |};
                       rmtx_lockholder := Some 1%nat; rmtx_count := 3 |} |}
    = Ok ((3, blob), m1, tr1) /\
    rmtx_lockholder (cr_rmtx m1) = None /\
    rmtx_count (cr_rmtx m1) = 0 /\
    cv_sync_obj (cr_cv m1) = [1%nat].
Proof.
  destruct (@wait_recurse_restores_depth (generic_2ls None) 1%nat None
              {| cr_cv := {| cv_once_ctl := true; cv_lock := false;
                             cv_sync_obj := [] |};
                 cr_rmtx := {| rmtx_once_ctl := true;
                               rmtx_mtx := {| sem_once_ctl := true;
                                              sem_count := 0;
                                              sem_lock := false;
                                              sem_sync_obj := [] |};
                               rmtx_lockholder := Some 1%nat;
                               rmtx_count := 3 |} |}
              eq_refl eq_refl)
    as (blob & m1 & tr1 & E & Hholder & Hcount & Hqueue & _).
  exists blob, m1, tr1. repeat split; assumption.
Defined.

(** ** Reader-writer locks: the reader side of unlock, and the handoffs *)

(** X9. [uth_rwlock_unlock] on a lock that has no writer, with its spinlock
    free: [nr_readers] is decremented as an unsigned int and the reader queue
    is not touched.  Only when the count reaches 0 is the writer queue
    looked at: its head, if any, is popped and made runnable after the
    spinlock is released, with [has_writer] set; otherwise nobody is made
    runnable.  An unlock of a lock that nobody holds is not detected: it
    wraps [nr_readers] from 0 to UINT_MAX. *)
Theorem rw_unlock_reader_path bulk (fuel : nat) (r : uth_rwlock) :
  rwl_has_writer r = false -> rwl_lock r = false ->
  exists r' tr,
    uth_rwlock_unlock (generic_2ls bulk) fuel the_rwl r = Ok (tt, r', tr) /\
    rwl_nr_readers r' = uint (rwl_nr_readers r - 1) /\
    rwl_readers r' = rwl_readers r /\
    rwl_lock r' = false /\
    (rwl_nr_readers r = 0 -> rwl_nr_readers r' = UINT_MAX) /\
    match (uint (rwl_nr_readers r - 1) =? 0), rwl_writers r with
    | true, writer :: rest =>
        rwl_has_writer r' = true /\ rwl_writers r' = rest /\
        tr = [EvSpinLock "rwl.lock"; EvSpinUnlock "rwl.lock";
              EvRunnable writer]
    | _, _ =>
        rwl_has_writer r' = false /\ rwl_writers r' = rwl_writers r /\
        tr = [EvSpinLock "rwl.lock"; EvSpinUnlock "rwl.lock"]
    end.
Proof.
  destruct r as [once l n w readers writers]; cbn; intros -> ->.
  unfold_prog.
  destruct (uint (n - 1) =? 0) eqn:E; unfold_prog;
    [destruct writers as [|writer rest]; unfold_prog|];
    do 2 eexists; (split; [reflexivity|]); cbn;
    repeat split; intros ->; reflexivity.
Qed.

Lemma rw_unlock_reader_path_witness :
  exists r' tr,
    uth_rwlock_unlock (generic_2ls None) 1 the_rwl
      {| rwl_once_ctl := true; rwl_lock := false; rwl_nr_readers := 1;
         rwl_has_writer := false; rwl_readers := [];
         rwl_writers := [5%nat; 6%nat] |} = Ok (tt, r', tr) /\
    rwl_nr_readers r' = 0 /\
    rwl_has_writer r' = true /\ rwl_writers r' = [6%nat] /\
    tr = [EvSpinLock "rwl.lock"; EvSpinUnlock "rwl.lock"; EvRunnable 5%nat].
Proof.
  destruct (@rw_unlock_reader_path None 1%nat
              {| rwl_once_ctl := true; rwl_lock := false; rwl_nr_readers := 1;
                 rwl_has_writer := false; rwl_readers := [];
                 rwl_writers := [5%nat; 6%nat] |} eq_refl eq_refl)
    as (r' & tr & E & Hn & _ & _ & _ & Hcase).
  exists r', tr. split; [exact E|]. split; [exact Hn|]. exact Hcase.
Defined.

Lemma reader_unlock_step bulk (fuel : nat) once (n : Z) (writers : uth_sync_t) :
  1 < n <= UINT_MAX ->
  rw_step (generic_2ls bulk) fuel RwUnlock
    {| rwl_once_ctl := once; rwl_lock := false; rwl_nr_readers := n;
       rwl_has_writer := false; rwl_readers := []; rwl_writers := writers |}
  = Ok (tt, {| rwl_once_ctl := once; rwl_lock := false;
               rwl_nr_readers := n - 1; rwl_has_writer := false;
               rwl_readers := []; rwl_writers := writers |},
        [EvSpinLock "rwl.lock"; EvSpinUnlock "rwl.lock"]).
Proof.
  intros Hn. unfold_prog. rewrite uint_small by ulia.
  destruct (n - 1 =? 0) eqn:E; [apply Z.eqb_eq in E; lia|]. reflexivity.
Qed.

Lemma reader_unlocks bulk (fuel : nat) once (writers : uth_sync_t) (j : nat) :
  forall n : Z,
    Z.of_nat j < n <= UINT_MAX ->
    run_calls (rw_step (generic_2ls bulk) fuel) (repeat RwUnlock j)
      {| rwl_once_ctl := once; rwl_lock := false; rwl_nr_readers := n;
         rwl_has_writer := false; rwl_readers := []; rwl_writers := writers |}
    = Ok (tt, {| rwl_once_ctl := once; rwl_lock := false;
                 rwl_nr_readers := n - Z.of_nat j; rwl_has_writer := false;
                 rwl_readers := []; rwl_writers := writers |},
          List.concat
            (repeat [EvSpinLock "rwl.lock"; EvSpinUnlock "rwl.lock"] j)).
Proof.
  induction j as [|j IH]; intros n Hn.
  - cbn. rewrite Z.sub_0_r. reflexivity.
  - rewrite Nat2Z.inj_succ in Hn.
    cbn [repeat run_calls List.concat]. unfold bind at 1.
    rewrite reader_unlock_step by lia.
    rewrite IH by lia. rewrite Nat2Z.inj_succ. do 4 f_equal. lia.
Qed.

Lemma woken_rw_locks (n : nat) :
  woken (List.concat
           (repeat [EvSpinLock "rwl.lock"; EvSpinUnlock "rwl.lock"] n)) = [].
Proof. induction n as [|n IH]; [reflexivity|exact IH]. Qed.

(** X10. The writer gets the lock when the last reader leaves.  On an
    initialized lock held by [k] readers, with no writer and empty queues, a
    wrlock yields with the caller queued; each of the first [k - 1] unlocks
    only decrements [nr_readers] and makes nobody runnable; the [k]-th pops
    the writer, sets [has_writer] with [nr_readers] at 0 and makes the writer
    runnable. *)
Theorem writer_runs_after_last_reader bulk (fuel : nat) (t : uthread)
    (k j : nat) :
  (1 <= k)%nat -> Z.of_nat k <= UINT_MAX -> (j <= k)%nat ->
  exists r' tr,
    run_calls (rw_step (generic_2ls bulk) fuel)
      (RwWrlock t :: repeat RwUnlock j)
      {| rwl_once_ctl := true; rwl_lock := false;
         rwl_nr_readers := Z.of_nat k; rwl_has_writer := false;
         rwl_readers := []; rwl_writers := [] |} = Ok (tt, r', tr) /\
    r' = (if (j <? k)%nat
          then {| rwl_once_ctl := true; rwl_lock := false;
                  rwl_nr_readers := Z.of_nat (k - j);
                  rwl_has_writer := false; rwl_readers := [];
                  rwl_writers := [t] |}
          else {| rwl_once_ctl := true; rwl_lock := false;
                  rwl_nr_readers := 0; rwl_has_writer := true;
                  rwl_readers := []; rwl_writers := [] |}) /\
    woken tr = (if (j <? k)%nat then [] else [t]).
Proof.
  intros Hk Hmax Hj.
  assert (Hwr :
    rw_step (generic_2ls bulk) fuel (RwWrlock t)
      {| rwl_once_ctl := true; rwl_lock := false;
         rwl_nr_readers := Z.of_nat k; rwl_has_writer := false;
         rwl_readers := []; rwl_writers := [] |}
    = Ok (tt, {| rwl_once_ctl := true; rwl_lock := false;
                 rwl_nr_readers := Z.of_nat k; rwl_has_writer := false;
                 rwl_readers := []; rwl_writers := [t] |},
          [EvSpinLock "rwl.lock"; EvYield t; EvHasBlocked t;
           EvSpinUnlock "rwl.lock"])).
  { unfold_prog. destruct (Z.of_nat k =? 0) eqn:E;
      [apply Z.eqb_eq in E; lia|]. reflexivity. }
  cbn [run_calls]. unfold bind at 1. rewrite Hwr.
  destruct (Nat.ltb_spec j k) as [Hlt|Hge].
  - rewrite reader_unlocks by lia.
    do 2 eexists. split; [reflexivity|]. split.
    + do 3 f_equal. lia.
    + cbn [app woken]. apply woken_rw_locks.
  - assert (Ej : j = (pred k + 1)%nat) by lia.
    rewrite Ej, repeat_app. cbn [repeat].
    pose proof (@reader_unlocks bulk fuel true [t] (pred k) (Z.of_nat k)
                  ltac:(lia)) as E1.
    assert (E2 :
      run_calls (rw_step (generic_2ls bulk) fuel) [RwUnlock]
        {| rwl_once_ctl := true; rwl_lock := false;
           rwl_nr_readers := Z.of_nat k - Z.of_nat (pred k);
           rwl_has_writer := false; rwl_readers := [];
           rwl_writers := [t] |}
      = Ok (tt, {| rwl_once_ctl := true; rwl_lock := false;
                   rwl_nr_readers := 0; rwl_has_writer := true;
                   rwl_readers := []; rwl_writers := [] |},
            [EvSpinLock "rwl.lock"; EvSpinUnlock "rwl.lock"; EvRunnable t]
            ++ [])).
    { replace (Z.of_nat k - Z.of_nat (pred k)) with 1 by lia.
      unfold_prog. reflexivity. }
    rewrite (run_calls_app _ _ _ _ E1 E2).
    do 2 eexists. split; [reflexivity|]. split; [reflexivity|].
    cbn [app woken]. rewrite woken_app, woken_rw_locks. reflexivity.
Qed.

Lemma writer_runs_after_last_reader_witness :
  exists r' tr,
    run_calls (rw_step (generic_2ls None) 1)
      (RwWrlock 9%nat :: repeat RwUnlock 4)
      {| rwl_once_ctl := true; rwl_lock := false; rwl_nr_readers := 4;
         rwl_has_writer := false; rwl_readers := [];
         rwl_writers := [] |} = Ok (tt, r', tr) /\
    r' = {| rwl_once_ctl := true; rwl_lock := false; rwl_nr_readers := 0;
            rwl_has_writer := true; rwl_readers := []; rwl_writers := [] |} /\
    woken tr = [9%nat].
Proof.
  apply (@writer_runs_after_last_reader None 1%nat 9%nat 4%nat 4%nat);
    cbn; unfold UINT_MAX; lia.
Defined.

Lemma rdlocks_queue_up bulk (fuel : nat) (uths : list uthread) :
  forall readers : uth_sync_t,
  exists tr,
    run_calls (rw_step (generic_2ls bulk) fuel) (map RwRdlock uths)
      {| rwl_once_ctl := true; rwl_lock := false; rwl_nr_readers := 0;
         rwl_has_writer := true; rwl_readers := readers; rwl_writers := [] |}
    = Ok (tt, {| rwl_once_ctl := true; rwl_lock := false; rwl_nr_readers := 0;
                 rwl_has_writer := true; rwl_readers := readers ++ uths;
                 rwl_writers := [] |}, tr) /\
    woken tr = [].
Proof.
  induction uths as [|uth uths IH]; intros readers.
  - exists []. cbn. rewrite app_nil_r. split; reflexivity.
  - destruct (IH (readers ++ [uth])) as (tr & E & Hw).
    cbn [map run_calls]. unfold bind at 1.
    replace (rw_step (generic_2ls bulk) fuel (RwRdlock uth)
               {| rwl_once_ctl := true; rwl_lock := false;
                  rwl_nr_readers := 0; rwl_has_writer := true;
                  rwl_readers := readers; rwl_writers := [] |})
      with (Ok (tt, {| rwl_once_ctl := true; rwl_lock := false;
                       rwl_nr_readers := 0; rwl_has_writer := true;
                       rwl_readers := readers ++ [uth]; rwl_writers := [] |},
                [EvSpinLock "rwl.lock"; EvYield uth; EvHasBlocked uth;
                 EvSpinUnlock "rwl.lock"]))
      by (unfold_prog; reflexivity).
    rewrite E. rewrite <- app_assoc. eexists. split; [reflexivity|].
    cbn [app woken]. exact Hw.
Qed.

(** X11. Readers that came while a writer held the lock all enter at its
    unlock.  On an initialized lock held by a writer, with empty queues,
    rdlocks by the uthreads of a list all yield without touching
    [nr_readers]; the unlock of the writer, no writer being queued, clears
    [has_writer], makes all of them runnable in the order they came, and
    leaves [nr_readers] at their number and both queues empty. *)
Theorem queued_readers_enter_together bulk (fuel : nat)
    (uths : list uthread) :
  (List.length uths < fuel)%nat ->
  Z.of_nat (List.length uths) <= UINT_MAX ->
  exists tr,
    run_calls (rw_step (generic_2ls bulk) fuel)
      (map RwRdlock uths ++ [RwUnlock])
      {| rwl_once_ctl := true; rwl_lock := false; rwl_nr_readers := 0;
         rwl_has_writer := true; rwl_readers := []; rwl_writers := [] |}
    = Ok (tt, {| rwl_once_ctl := true; rwl_lock := false;
                 rwl_nr_readers := Z.of_nat (List.length uths);
                 rwl_has_writer := false; rwl_readers := [];
                 rwl_writers := [] |}, tr) /\
    woken tr = uths.
Proof.
  intros Hfuel Hmax.
  destruct (rdlocks_queue_up bulk fuel uths []) as (tr1 & E1 & Hw1).
  cbn [app] in E1.
  destruct (@unlock_writer_default bulk fuel
              {| rwl_once_ctl := true; rwl_lock := false; rwl_nr_readers := 0;
                 rwl_has_writer := true; rwl_readers := uths;
                 rwl_writers := [] |} eq_refl eq_refl Hfuel)
    as (r' & tr2 & E2 & Hr & _ & Htr).
  cbn [rwl_readers rwl_nr_readers set_rwl_has_writer set_rwl_nr_readers
       set_rwl_readers rwl_once_ctl rwl_lock rwl_has_writer rwl_writers]
    in Hr, Htr.
  rewrite iter_incr in Hr by lia. rewrite Z.add_0_l in Hr. subst r'.
  exists (tr1 ++ tr2 ++ []). split.
  - eapply run_calls_app; [exact E1|].
    cbn [run_calls rw_step]. unfold bind. rewrite E2. reflexivity.
  - rewrite app_nil_r, woken_app, Hw1, Htr. cbn [app woken].
    apply woken_runnable.
Qed.

Lemma queued_readers_enter_together_witness :
  exists tr,
    run_calls (rw_step (generic_2ls None) 4)
      (map RwRdlock [6%nat; 7%nat; 8%nat] ++ [RwUnlock])
      {| rwl_once_ctl := true; rwl_lock := false; rwl_nr_readers := 0;
         rwl_has_writer := true; rwl_readers := []; rwl_writers := [] |}
    = Ok (tt, {| rwl_once_ctl := true; rwl_lock := false; rwl_nr_readers := 3;
                 rwl_has_writer := false; rwl_readers := [];
                 rwl_writers := [] |}, tr) /\
    woken tr = [6%nat; 7%nat; 8%nat].
Proof.
  apply (@queued_readers_enter_together None 4%nat [6%nat; 7%nat; 8%nat]);
    cbn; unfold UINT_MAX; lia.
Defined.

(** ** Recursive mutexes: the other uthreads *)

(** X12. A recursive mutex held by one uthread keeps the others out.  On
    an initialized recursive mutex with a lockholder, the embedded mutex
    being held (count 0, spinlock free), a trylock by another uthread
    returns FALSE and leaves the whole struct as it was; a lock or timed
    lock by another uthread yields with the caller queued on the embedded
    mutex, the lockholder and the count being left alone. *)
Theorem recursive_mutex_keeps_others_out ops (t holder : uthread)
    (abs_timeout : option timespec) (r : uth_recurse_mutex) :
  rmtx_once_ctl r = true -> rmtx_lockholder r = Some holder -> holder <> t ->
  sem_once_ctl (rmtx_mtx r) = true -> sem_lock (rmtx_mtx r) = false ->
  sem_count (rmtx_mtx r) = 0 ->
  (exists tr,
      uth_recurse_mutex_trylock ops t the_rmtx r = Ok (false, r, tr)) /\
  (exists frame tr,
      uth_recurse_mutex_timed_lock ops t the_rmtx abs_timeout r
      = Ok (Yielded frame,
            set_rmtx_mtx
              (set_sem_sync_obj
                 (__uth_sync_enqueue ops t (sem_sync_obj (rmtx_mtx r)))
                 (rmtx_mtx r)) r, tr) /\
      woken tr = []).
Proof.
  destruct r as [once [sonce sc sl sq] h k];
    cbn [rmtx_once_ctl rmtx_lockholder rmtx_mtx rmtx_count sem_once_ctl
         sem_lock sem_count].
  intros -> E Hne -> -> ->. inversion E; subst h.
  assert (Hcur : Nat.eqb holder t = false) by (apply Nat.eqb_neq; exact Hne).
  split.
  - unfold_code. rewrite Hcur. unfold_code. eexists; reflexivity.
  - destruct abs_timeout as [abs|]; unfold_code; rewrite Hcur; unfold_code;
      do 2 eexists; split; reflexivity.
Qed.

Lemma recursive_mutex_keeps_others_out_witness :
  exists tr,
    uth_recurse_mutex_trylock (generic_2ls None) 2%nat the_rmtx
      {| rmtx_once_ctl := true;
         rmtx_mtx := {| sem_once_ctl := true; sem_count := 0;
                        sem_lock := false; sem_sync_obj := [] |};
         rmtx_lockholder := Some 1%nat; rmtx_count := 2 |}
    = Ok (false,
          {| rmtx_once_ctl := true;
             rmtx_mtx := {| sem_once_ctl := true; sem_count := 0;
                            sem_lock := false; sem_sync_obj := [] |};
             rmtx_lockholder := Some 1%nat; rmtx_count := 2 |}, tr).
Proof.
  apply (@recursive_mutex_keeps_others_out (generic_2ls None) 2%nat 1%nat None
           {| rmtx_once_ctl := true;
              rmtx_mtx := {| sem_once_ctl := true; sem_count := 0;
                             sem_lock := false; sem_sync_obj := [] |};
              rmtx_lockholder := Some 1%nat; rmtx_count := 2 |}
           eq_refl eq_refl ltac:(discriminate) eq_refl eq_refl eq_refl).
Defined.

(** ** Static initializers: the first use *)

(** X13. The first use of a primitive whose once-control has not run does
    what the same call does after the [_init] function of the primitive:
    whatever the lock word and the wait queues hold, and whatever the 2LS,
    the result, the memory and the trace are the same.  For a semaphore the
    count is the one the static initializer gave; for a mutex it is set to 1;
    for a recursive mutex the lockholder and the depth are reset as well.
    Such a first call ends, and leaves the once-control set and the spinlock
    free. *)
Theorem first_use_completes_init ops (t : uthread)
    (abs_timeout : option timespec) (fuel : nat) :
  (forall (c : Z) (l : bool) (q : uth_sync_t),
      let s := {| sem_once_ctl := false; sem_count := uint c; sem_lock := l;
                  sem_sync_obj := q |} in
      uth_semaphore_timed_down ops t the_sem abs_timeout s
      = (uth_semaphore_init ops the_sem c ;;
         uth_semaphore_timed_down ops t the_sem abs_timeout) s /\
      uth_semaphore_trydown ops the_sem s
      = (uth_semaphore_init ops the_sem c ;;
         uth_semaphore_trydown ops the_sem) s /\
      uth_semaphore_up ops the_sem s
      = (uth_semaphore_init ops the_sem c ;; uth_semaphore_up ops the_sem) s /\
      ends_in (fun s' => sem_once_ctl s' = true /\ sem_lock s' = false)
        (uth_semaphore_timed_down ops t the_sem abs_timeout s)) /\
  (forall (c : Z) (l : bool) (q : uth_sync_t),
      let s := {| sem_once_ctl := false; sem_count := c; sem_lock := l;
                  sem_sync_obj := q |} in
      uth_mutex_timed_lock ops t the_sem abs_timeout s
      = (uth_mutex_init ops the_sem ;;
         uth_mutex_timed_lock ops t the_sem abs_timeout) s /\
      uth_mutex_lock ops t the_sem s
      = (uth_mutex_init ops the_sem ;; uth_mutex_lock ops t the_sem) s /\
      uth_mutex_trylock ops the_sem s
      = (uth_mutex_init ops the_sem ;; uth_mutex_trylock ops the_sem) s /\
      ends_in (fun s' => sem_once_ctl s' = true /\ sem_lock s' = false)
        (uth_mutex_timed_lock ops t the_sem abs_timeout s)) /\
  (forall (mtx : uth_semaphore) (h : option uthread) (k : Z),
      let r := {| rmtx_once_ctl := false; rmtx_mtx := mtx;
                  rmtx_lockholder := h; rmtx_count := k |} in
      uth_recurse_mutex_timed_lock ops t the_rmtx abs_timeout r
      = (uth_recurse_mutex_init ops the_rmtx ;;
         uth_recurse_mutex_timed_lock ops t the_rmtx abs_timeout) r /\
      uth_recurse_mutex_trylock ops t the_rmtx r
      = (uth_recurse_mutex_init ops the_rmtx ;;
         uth_recurse_mutex_trylock ops t the_rmtx) r /\
      ends_in (fun r' => rmtx_once_ctl r' = true /\
                         sem_once_ctl (rmtx_mtx r') = true /\
                         sem_lock (rmtx_mtx r') = false)
        (uth_recurse_mutex_timed_lock ops t the_rmtx abs_timeout r)) /\
  (forall (l : bool) (q : uth_sync_t) (mtx : uth_semaphore),
      let c := {| cv_once_ctl := false; cv_lock := l; cv_sync_obj := q |} in
      let m := {| m_cv := c; m_mtx := mtx |} in
      uth_cond_var_signal ops the_cv c
      = (uth_cond_var_init ops the_cv ;; uth_cond_var_signal ops the_cv) c /\
      uth_cond_var_broadcast ops fuel the_cv c
      = (uth_cond_var_init ops the_cv ;;
         uth_cond_var_broadcast ops fuel the_cv) c /\
      uth_cond_var_timed_wait ops t cvm_cv cvm_mtx abs_timeout m
      = (uth_cond_var_init ops cvm_cv ;;
         uth_cond_var_timed_wait ops t cvm_cv cvm_mtx abs_timeout) m /\
      ends_in (fun c' => cv_once_ctl c' = true /\ cv_lock c' = false)
        (uth_cond_var_signal ops the_cv c)) /\
  (forall (l : bool) (n : Z) (w : bool) (rq wq : uth_sync_t),
      let r := {| rwl_once_ctl := false; rwl_lock := l; rwl_nr_readers := n;
                  rwl_has_writer := w; rwl_readers := rq;
                  rwl_writers := wq |} in
      uth_rwlock_rdlock ops t the_rwl r
      = (uth_rwlock_init ops the_rwl ;; uth_rwlock_rdlock ops t the_rwl) r /\
      uth_rwlock_try_rdlock ops the_rwl r
      = (uth_rwlock_init ops the_rwl ;; uth_rwlock_try_rdlock ops the_rwl) r /\
      uth_rwlock_wrlock ops t the_rwl r
      = (uth_rwlock_init ops the_rwl ;; uth_rwlock_wrlock ops t the_rwl) r /\
      uth_rwlock_try_wrlock ops the_rwl r
      = (uth_rwlock_init ops the_rwl ;;
         uth_rwlock_try_wrlock ops the_rwl) r /\
      ends_in (fun r' => rwl_once_ctl r' = true /\ rwl_lock r' = false)
        (uth_rwlock_wrlock ops t the_rwl r)).
Proof.
  repeat match goal with |- _ /\ _ => split end; cbv zeta; intros;
    repeat match goal with |- _ /\ _ => split end;
    try destruct abs_timeout; unfold_code;
    repeat match goal with
           | |- context [if ?b then _ else _] => destruct b; unfold_code
           | |- context [match ?o with Some _ => _ | None => _ end] =>
               destruct o; unfold_code
           | |- context [let (_, _) := ?p in _] => destruct p; unfold_code
           | |- context [match ?r with Ok _ => _ | Stuck _ => _ end] =>
               lazymatch r with
               | match _ with Ok _ => _ | Stuck _ => _ end => fail
               | _ => destruct r as [[[? ?] ?]|?]; unfold_code
               end
           end;
    first [reflexivity | cbn; repeat split].
Qed.

(** ** Try and blocking calls *)

(** X14. A try call and the blocking call agree on who gets in.  On an
    initialized primitive whose spinlock is free, whatever the 2LS: when the
    try call returns TRUE, the blocking call by any uthread returns without
    yielding and leaves the primitive exactly as the try call does; when the
    try call returns FALSE, the blocking call yields, with the caller put on
    the wait queue, everything else as it was, and no uthread made
    runnable.  This holds of [uth_semaphore_trydown] and
    [uth_semaphore_timed_down], of [uth_mutex_trylock] and [uth_mutex_lock],
    of [uth_rwlock_try_rdlock] and [uth_rwlock_rdlock], and of
    [uth_rwlock_try_wrlock] and [uth_rwlock_wrlock]. *)
Theorem try_agrees_with_blocking ops (t : uthread)
    (abs_timeout : option timespec) :
  (forall s : uth_semaphore,
      sem_once_ctl s = true -> sem_lock s = false ->
      exists b s1 tr1 r s2 tr2,
        uth_semaphore_trydown ops the_sem s = Ok (b, s1, tr1) /\
        uth_semaphore_timed_down ops t the_sem abs_timeout s
        = Ok (r, s2, tr2) /\
        uth_mutex_trylock ops the_sem s = Ok (b, s1, tr1) /\
        (exists r' tr3, uth_mutex_lock ops t the_sem s = Ok (r', s2, tr3)) /\
        woken tr2 = [] /\
        match r with
        | Returned ret_ => b = true /\ ret_ = true /\ s2 = s1
        | Yielded _ =>
            b = false /\ s1 = s /\
            s2 = set_sem_sync_obj
                   (__uth_sync_enqueue ops t (sem_sync_obj s)) s
        end) /\
  (forall rwl : uth_rwlock,
      rwl_once_ctl rwl = true -> rwl_lock rwl = false ->
      exists b rwl1 tr1 r rwl2 tr2,
        uth_rwlock_try_rdlock ops the_rwl rwl = Ok (b, rwl1, tr1) /\
        uth_rwlock_rdlock ops t the_rwl rwl = Ok (r, rwl2, tr2) /\
        woken tr2 = [] /\
        match r with
        | Returned _ => b = true /\ rwl2 = rwl1
        | Yielded _ =>
            b = false /\ rwl1 = rwl /\
            rwl2 = set_rwl_readers
                     (__uth_sync_enqueue ops t (rwl_readers rwl)) rwl
        end) /\
  (forall rwl : uth_rwlock,
      rwl_once_ctl rwl = true -> rwl_lock rwl = false ->
      exists b rwl1 tr1 r rwl2 tr2,
        uth_rwlock_try_wrlock ops the_rwl rwl = Ok (b, rwl1, tr1) /\
        uth_rwlock_wrlock ops t the_rwl rwl = Ok (r, rwl2, tr2) /\
        woken tr2 = [] /\
        match r with
        | Returned _ => b = true /\ rwl2 = rwl1
        | Yielded _ =>
            b = false /\ rwl1 = rwl /\
            rwl2 = set_rwl_writers
                     (__uth_sync_enqueue ops t (rwl_writers rwl)) rwl
        end).
Proof.
  split; [|split].
  - intros [once c l q]; cbn [sem_once_ctl sem_lock]; intros -> ->.
    destruct abs_timeout as [abs|]; unfold_code;
      destruct (0 <? c); unfold_code;
      do 6 eexists;
      (split; [reflexivity|]); (split; [reflexivity|]);
      (split; [reflexivity|]); (split; [do 2 eexists; reflexivity|]);
      (split; [reflexivity|]); repeat split.
  - intros [once l n w rq wq]; cbn [rwl_once_ctl rwl_lock]; intros -> ->.
    unfold_code; destruct w; unfold_code; do 6 eexists;
      (split; [reflexivity|]); (split; [reflexivity|]);
      (split; [reflexivity|]); repeat split.
  - intros [once l n w rq wq]; cbn [rwl_once_ctl rwl_lock]; intros -> ->.
    unfold_code; destruct (negb w && (n =? 0)); unfold_code;
      do 6 eexists;
      (split; [reflexivity|]); (split; [reflexivity|]);
      (split; [reflexivity|]); repeat split.
Qed.

Lemma try_agrees_with_blocking_witness :
  exists b s1 tr1 r s2 tr2,
    uth_semaphore_trydown (generic_2ls None) the_sem
      {| sem_once_ctl := true; sem_count := 1; sem_lock := false;
         sem_sync_obj := [] |} = Ok (b, s1, tr1) /\
    uth_semaphore_timed_down (generic_2ls None) 3%nat the_sem None
      {| sem_once_ctl := true; sem_count := 1; sem_lock := false;
         sem_sync_obj := [] |} = Ok (r, s2, tr2).
Proof.
  destruct (proj1 (try_agrees_with_blocking (generic_2ls None) 3%nat None)
              {| sem_once_ctl := true; sem_count := 1; sem_lock := false;
                 sem_sync_obj := [] |} eq_refl eq_refl)
    as (b & s1 & tr1 & r & s2 & tr2 & E1 & E2 & _).
  exists b, s1, tr1, r, s2, tr2. split; assumption.
Defined.

(** ** Destroying *)

(** X15. Destroying requires that nobody waits.  With the default sync
    object, each destroy function passes its assertion exactly when the
    wait queues of the primitive are empty (the one of the embedded mutex
    for a recursive mutex, both for a reader-writer lock), and leaves the
    primitive as it was.  A primitive just set up by its [_init] function,
    out of whatever memory, can be destroyed; a semaphore on which a down
    has just yielded cannot. *)
Theorem destroy_requires_no_waiters bulk (t : uthread) :
  (forall s : uth_semaphore,
      (sem_sync_obj s = [] -> uth_semaphore_destroy None s = Passed s) /\
      (sem_sync_obj s <> [] -> uth_semaphore_destroy None s = AssertFailed) /\
      uth_mutex_destroy None s = uth_semaphore_destroy None s) /\
  (forall r : uth_recurse_mutex,
      (sem_sync_obj (rmtx_mtx r) = [] ->
       uth_recurse_mutex_destroy None r = Passed r) /\
      (sem_sync_obj (rmtx_mtx r) <> [] ->
       uth_recurse_mutex_destroy None r = AssertFailed)) /\
  (forall c : uth_cond_var,
      (cv_sync_obj c = [] -> uth_cond_var_destroy None c = Passed c) /\
      (cv_sync_obj c <> [] -> uth_cond_var_destroy None c = AssertFailed)) /\
  (forall r : uth_rwlock,
      (rwl_readers r = [] /\ rwl_writers r = [] ->
       uth_rwlock_destroy None r = Passed r) /\
      (rwl_readers r <> [] \/ rwl_writers r <> [] ->
       uth_rwlock_destroy None r = AssertFailed)) /\
  (forall (s : uth_semaphore) (count : Z),
      ends_in (fun s' => uth_semaphore_destroy None s' = Passed s')
        (uth_semaphore_init (generic_2ls bulk) the_sem count s) /\
      ends_in (fun s' => uth_mutex_destroy None s' = Passed s')
        (uth_mutex_init (generic_2ls bulk) the_sem s)) /\
  (forall r : uth_recurse_mutex,
      ends_in (fun r' => uth_recurse_mutex_destroy None r' = Passed r')
        (uth_recurse_mutex_init (generic_2ls bulk) the_rmtx r)) /\
  (forall c : uth_cond_var,
      ends_in (fun c' => uth_cond_var_destroy None c' = Passed c')
        (uth_cond_var_init (generic_2ls bulk) the_cv c)) /\
  (forall r : uth_rwlock,
      ends_in (fun r' => uth_rwlock_destroy None r' = Passed r')
        (uth_rwlock_init (generic_2ls bulk) the_rwl r)) /\
  (forall s : uth_semaphore,
      sem_once_ctl s = true -> sem_lock s = false -> sem_count s = 0 ->
      ends_in (fun s' => uth_semaphore_destroy None s' = AssertFailed)
        (uth_semaphore_down (generic_2ls bulk) t the_sem s)).
Proof.
  repeat match goal with |- _ /\ _ => split end.
  - intros [once c l q]. split; [|split].
    + cbn. intros ->. reflexivity.
    + cbn. destruct q; [intros E; now destruct E|reflexivity].
    + reflexivity.
  - intros [once [sonce c l q] h k]. split.
    + cbn. intros ->. reflexivity.
    + cbn. destruct q; [intros E; now destruct E|reflexivity].
  - intros [once l q]. split.
    + cbn. intros ->. reflexivity.
    + cbn. destruct q; [intros E; now destruct E|reflexivity].
  - intros [once l n w rq wq]. split.
    + cbn. intros [-> ->]. reflexivity.
    + cbn. destruct rq, wq; try reflexivity.
      intros [E|E]; now destruct E.
  - intros [once c l q] count. split; unfold_prog; reflexivity.
  - intros [once [sonce c l q] h k]. unfold_prog. reflexivity.
  - intros [once l q]. unfold_prog. reflexivity.
  - intros [once l n w rq wq]. unfold_prog. reflexivity.
  - intros [once c l q]; cbn [sem_once_ctl sem_lock sem_count];
      intros -> -> ->.
    unfold_prog. cbn. destruct q; reflexivity.
Qed.

Lemma destroy_requires_no_waiters_witness :
  ends_in (fun s' => uth_semaphore_destroy None s' = AssertFailed)
    (uth_semaphore_down (generic_2ls None) 2%nat the_sem
       {| sem_once_ctl := true; sem_count := 0; sem_lock := false;
          sem_sync_obj := [] |}).
Proof.
  apply (proj2 (proj2 (proj2 (proj2 (proj2 (proj2 (proj2 (proj2
           (destroy_requires_no_waiters None 2%nat)))))))));
    reflexivity.
Defined.
